(** * da_crawler: a shallow embedding of the site crawler

    The development follows [src/da_crawler.py].  Definitions:
    - [Text]: the Python [str] operations the crawler uses,
    - [Re]: the fragment of Python's [re] module its patterns need
      (a backtracking matcher, [re.search] and [re.sub]),
    - [Discovery]: [extract_article_links] and [discover_all_links],
    - [Pipeline]: [strip_html_basic], [extract_article_content],
      [manual_clean], [gpt_clean] and their helpers,
    - [Metadata]: [extract_metadata],
    - [Orchestrator]: [crawl_article] and the per-article loop of
      [crawl_site],
    - [Site]: [crawl_site] as a whole,
    - [DiscoverySpec], [FrontierSpec], [OrchestratorSpec], [PipelineSpec],
      [TextSpec], [MetadataSpec], [PatternSpec]: the invariants of the
      loops and the predicates the facts are stated with,
    - [Sample]: a small site, parser, console and model to run the crawler
      on.
    The facts follow, one module per component.

    A character is a code point below 256 ([ascii]); the character tables
    ([isspace], [isdigit], [isword], [lower_char]) are CPython's, restricted
    to that range.  Everything that lives outside the repository (the HTTP
    client, the selectolax parser, [urllib.parse], [json.loads], the
    iteration order of a [set], the remote model, the database) is a
    section variable, and may raise wherever the library may.  The
    content pipeline prints through the section variable [print], which
    may raise too (a console that cannot encode a message does); the
    prints of discovery, of [crawl_article] and of [crawl_site], and
    sleeping, are left out. *)

From Stdlib Require Import Bool Arith ZArith Lia List Ascii String Permutation.
Import ListNotations.
Open Scope string_scope.
Open Scope nat_scope.

Set Implicit Arguments.
Set Warnings "-register-all".

(* ------------------------------------------------------------------ *)
(** ** Python [str] operations *)

Module Text.

Definition code (c : ascii) : nat := nat_of_ascii c.

Definition between (lo hi n : nat) : bool := (lo <=? n) && (n <=? hi).

(** [str.isspace] on one character, which is also [\s] of a [str] pattern. *)
Definition isspace (c : ascii) : bool :=
  let n := code c in
  between 9 13 n || between 28 32 n || (n =? 133) || (n =? 160).

(** [\d] of a [str] pattern: the decimal digits. *)
Definition isdigit (c : ascii) : bool := between 48 57 (code c).

Definition isupper_ascii (c : ascii) : bool := between 65 90 (code c).
Definition islower_ascii (c : ascii) : bool := between 97 122 (code c).

(** [str.isalnum] on one character. *)
Definition isalnum (c : ascii) : bool :=
  let n := code c in
  isdigit c || isupper_ascii c || islower_ascii c
  || (n =? 170) || (n =? 178) || (n =? 179) || (n =? 181) || (n =? 185)
  || (n =? 186) || between 188 190 n
  || between 192 214 n || between 216 246 n || between 248 255 n.

(** [\w] of a [str] pattern. *)
Definition isword (c : ascii) : bool := isalnum c || (code c =? 95).

(** [str.lower] on one character. *)
Definition lower_char (c : ascii) : ascii :=
  let n := code c in
  if between 65 90 n || between 192 214 n || between 216 222 n
  then ascii_of_nat (n + 32) else c.

Fixpoint lower (s : string) : string :=
  match s with
  | EmptyString => EmptyString
  | String c s' => String (lower_char c) (lower s')
  end.

Definition newline : ascii := ascii_of_nat 10.
Definition nl : string := String newline EmptyString.

(** [x in s] for two strings. *)
Fixpoint contains (x s : string) : bool :=
  if prefix x s then true
  else match s with
       | EmptyString => false
       | String _ s' => contains x s'
       end.

Definition startswith (s p : string) : bool := prefix p s.

Fixpoint rev (s : string) : string :=
  match s with
  | EmptyString => EmptyString
  | String c s' => rev s' ++ String c EmptyString
  end.

Definition endswith (s p : string) : bool := prefix (rev p) (rev s).

(** [s.lstrip()], [s.rstrip()], [s.strip()]. *)
Fixpoint lstrip (s : string) : string :=
  match s with
  | EmptyString => EmptyString
  | String c s' => if isspace c then lstrip s' else s
  end.

Definition rstrip (s : string) : string := rev (lstrip (rev s)).

Definition strip (s : string) : string := rstrip (lstrip s).

(** [s.rstrip(c)] for a one-character argument. *)
Fixpoint lstrip_char (c : ascii) (s : string) : string :=
  match s with
  | EmptyString => EmptyString
  | String a s' => if Ascii.eqb a c then lstrip_char c s' else s
  end.

Definition rstrip_char (c : ascii) (s : string) : string :=
  rev (lstrip_char c (rev s)).

(** [s.split(c)[-1]]: what follows the last occurrence of [c]. *)
Fixpoint last_segment (c : ascii) (s : string) : string :=
  match s with
  | EmptyString => EmptyString
  | String a s' =>
      if Ascii.eqb a c then last_segment c s'
      else if contains (String c EmptyString) s' then last_segment c s'
           else s
  end.

(** [s[:n]] and [s[n:]] for [n >= 0]. *)
Fixpoint take (n : nat) (s : string) : string :=
  match n, s with
  | S n', String c s' => String c (take n' s')
  | _, _ => EmptyString
  end.

Fixpoint drop (n : nat) (s : string) : string :=
  match n, s with
  | S n', String _ s' => drop n' s'
  | _, _ => s
  end.

(** [sep.join(parts)]. *)
Definition join (sep : string) (parts : list string) : string :=
  String.concat sep parts.

(** [s.replace(old, new)] for a non-empty [old]. *)
Fixpoint replace_from (skip : nat) (old new s : string) : string :=
  match s with
  | EmptyString => EmptyString
  | String c s' =>
      match skip with
      | S n => replace_from n old new s'
      | O =>
          if prefix old s
          then new ++ replace_from (String.length old - 1) old new s'
          else String c (replace_from 0 old new s')
      end
  end.

Definition replace (old new s : string) : string := replace_from 0 old new s.

(** Whether every character of [s] satisfies [f]. *)
Fixpoint all_chars (f : ascii -> bool) (s : string) : bool :=
  match s with
  | EmptyString => true
  | String c s' => f c && all_chars f s'
  end.

(** Whether [s] is a single line. *)
Definition no_newline (s : string) : bool :=
  all_chars (fun c => negb (Ascii.eqb c newline)) s.

(** Truth value of a string: [not s] is [s == ""]. *)
Definition nonempty (s : string) : bool :=
  match s with EmptyString => false | _ => true end.

End Text.

(* ------------------------------------------------------------------ *)
(** ** The fragment of Python's [re] the crawler uses *)

Module Re.
Import Text.

(** Pattern syntax.  [Rep true r] is [r*], [Rep false r] is [r*?]. *)
Inductive regex : Type :=
| Eps
| Chr (c : ascii)
| Cls (f : ascii -> bool)
| Dot
| Bol
| Eol
| Cat (r1 r2 : regex)
| Alt (r1 r2 : regex)
| Rep (greedy : bool) (r : regex).

(** The flags [re.I], [re.M], [re.S]. *)
Record flags : Type := Flags { IGNORECASE : bool; MULTILINE : bool; DOTALL : bool }.

Definition no_flags : flags := Flags false false false.
Definition flag_I : flags := Flags true false false.
Definition flag_S : flags := Flags false false true.
Definition flag_IM : flags := Flags true true false.
Definition flag_IS : flags := Flags true false true.

Definition chr_match (fl : flags) (c a : ascii) : bool :=
  if IGNORECASE fl then Ascii.eqb (lower_char c) (lower_char a)
  else Ascii.eqb c a.

Definition at_bol (fl : flags) (prev : option ascii) : bool :=
  match prev with
  | None => true
  | Some p => MULTILINE fl && Ascii.eqb p newline
  end.

Definition at_eol (fl : flags) (s : string) : bool :=
  match s with
  | EmptyString => true
  | String a EmptyString => Ascii.eqb a newline
  | String a _ => MULTILINE fl && Ascii.eqb a newline
  end.

Definition first_of {A : Type} (x y : option A) : option A :=
  match x with
  | Some _ => x
  | None => y
  end.

(** The continuation of a match: the character before the position reached
    and the rest of the subject. *)
Definition cont : Type := option ascii -> string -> option string.

(** At most [n] iterations of [step], greedy or lazy; an iteration that
    consumes nothing is not taken. *)
Fixpoint rep_loop (greedy : bool) (step : option ascii -> string -> cont -> option string)
    (k : cont) (n : nat) (prev : option ascii) (s : string) {struct n}
  : option string :=
  match n with
  | O => k prev s
  | S n' =>
      let again :=
        step prev s
          (fun p s' =>
             if String.length s' <? String.length s
             then rep_loop greedy step k n' p s' else None) in
      if greedy then first_of again (k prev s)
      else first_of (k prev s) again
  end.

(** The backtracking matcher, in continuation-passing style: [exec fl r
    prev s k] matches [r] at the head of [s] ([prev] is the character before
    it) and hands the rest to [k]; alternatives are tried in Python's
    order. *)
Fixpoint exec (fl : flags) (r : regex) (prev : option ascii) (s : string)
    (k : cont) {struct r} : option string :=
  match r with
  | Eps => k prev s
  | Chr c =>
      match s with
      | String a s' => if chr_match fl c a then k (Some a) s' else None
      | EmptyString => None
      end
  | Cls f =>
      match s with
      | String a s' => if f a then k (Some a) s' else None
      | EmptyString => None
      end
  | Dot =>
      match s with
      | String a s' =>
          if DOTALL fl || negb (Ascii.eqb a newline) then k (Some a) s' else None
      | EmptyString => None
      end
  | Bol => if at_bol fl prev then k prev s else None
  | Eol => if at_eol fl s then k prev s else None
  | Cat r1 r2 => exec fl r1 prev s (fun p s' => exec fl r2 p s' k)
  | Alt r1 r2 => first_of (exec fl r1 prev s k) (exec fl r2 prev s k)
  | Rep greedy r1 => rep_loop greedy (exec fl r1) k (String.length s) prev s
  end.

Definition accept : cont := fun _ s => Some s.

(** [re.match] at one position: the rest of the subject after the match. *)
Definition match_at (fl : flags) (r : regex) (prev : option ascii) (s : string)
  : option string := exec fl r prev s accept.

(** [re.search(r, s, fl)] as a truth value. *)
Fixpoint search_from (fl : flags) (r : regex) (prev : option ascii) (s : string)
  : bool :=
  match match_at fl r prev s with
  | Some _ => true
  | None =>
      match s with
      | EmptyString => false
      | String a s' => search_from fl r (Some a) s'
      end
  end.

Definition search (fl : flags) (r : regex) (s : string) : bool :=
  search_from fl r None s.

(** [re.sub(r, repl, s, flags=fl)] for a literal [repl]: leftmost matches,
    none overlapping; [skip] counts the characters of the current match
    still to drop. *)
Fixpoint sub_from (fl : flags) (r : regex) (repl : string) (skip : nat)
    (prev : option ascii) (s : string) : string :=
  match skip with
  | S n =>
      match s with
      | EmptyString => EmptyString
      | String a s' => sub_from fl r repl n (Some a) s'
      end
  | O =>
      match match_at fl r prev s with
      | Some rest =>
          repl ++
          match s with
          | EmptyString => EmptyString
          | String a s' =>
              match String.length s - String.length rest with
              | O => String a (sub_from fl r repl 0 (Some a) s')
              | S m => sub_from fl r repl m (Some a) s'
              end
          end
      | None =>
          match s with
          | EmptyString => EmptyString
          | String a s' => String a (sub_from fl r repl 0 (Some a) s')
          end
      end
  end.

Definition sub (fl : flags) (r : regex) (repl s : string) : string :=
  sub_from fl r repl 0 None s.

(** Pattern combinators. *)
Fixpoint lit (s : string) : regex :=
  match s with
  | EmptyString => Eps
  | String c EmptyString => Chr c
  | String c s' => Cat (Chr c) (lit s')
  end.

Definition star (r : regex) : regex := Rep true r.
Definition star_lazy (r : regex) : regex := Rep false r.
Definition plus (r : regex) : regex := Cat r (Rep true r).
Definition opt (r : regex) : regex := Alt r Eps.

Fixpoint times (n : nat) (r : regex) : regex :=
  match n with
  | O => Eps
  | S O => r
  | S n' => Cat r (times n' r)
  end.

Definition at_least (n : nat) (r : regex) : regex := Cat (times n r) (star r).

Fixpoint alts (rs : list regex) : regex :=
  match rs with
  | [] => Cls (fun _ => false)
  | [r] => r
  | r :: rs' => Alt r (alts rs')
  end.

Fixpoint cats (rs : list regex) : regex :=
  match rs with
  | [] => Eps
  | [r] => r
  | r :: rs' => Cat r (cats rs')
  end.

Definition digit : regex := Cls isdigit.                 (* \d *)
Definition space : regex := Cls isspace.                 (* \s *)
Definition anychar : regex := Cls (fun _ => true).       (* [\s\S] *)
Definition one_of (s : string) : regex :=                (* [...] *)
  Cls (fun a => contains (String a EmptyString) s).
Definition word_or_dash : regex :=                       (* [\w-] *)
  Cls (fun a => isword a || Ascii.eqb a "-"%char).
Definition not_char (c : ascii) : regex :=               (* [^c] *)
  Cls (fun a => negb (Ascii.eqb a c)).

End Re.

(* ------------------------------------------------------------------ *)
(** ** Exceptions and Python sets *)

(** The result of a call that may raise. *)
Inductive outcome (A : Type) : Type :=
| Ok (a : A)
| Raised.

Arguments Raised {A}.

Definition bind {A B : Type} (m : outcome A) (f : A -> outcome B) : outcome B :=
  match m with
  | Ok a => f a
  | Raised => Raised
  end.

Notation "x <- m ;; k" := (bind m (fun x => k))
  (at level 61, m at next level, right associativity).

(** A [set] of strings, kept as the list of its elements in the order of
    their first insertion.  [list(s)] is not that order: it is the
    section variable [set_order] of the modules below. *)
Module PySet.

Definition mem (x : string) (l : list string) : bool :=
  existsb (String.eqb x) l.

Definition add (x : string) (l : list string) : list string :=
  if mem x l then l else (l ++ [x])%list.

End PySet.

(** [l[:stop]] for a Python integer [stop]. *)
Definition slice_to {A : Type} (l : list A) (stop : Z) : list A :=
  if (0 <=? stop)%Z then firstn (Z.to_nat stop) l
  else firstn (List.length l - Z.to_nat (- stop)) l.

(** [len(l)] as a Python integer. *)
Definition len {A : Type} (l : list A) : Z := Z.of_nat (List.length l).

(* ------------------------------------------------------------------ *)
(** ** Link extraction and breadth-first discovery *)

Module Discovery.
Import Text Re.

(** *** The URL patterns of [discover_all_links] *)

Definition hard_exclude_patterns : list regex :=
  [ lit "?share=";                                          (* \?share= *)
    Cat (one_of "&#") (lit "share=");                       (* [&#]share= *)
    cats [lit "/"; plus digit; lit "-"; plus digit; lit "x"; plus digit;
          lit "/"];                                         (* /\d+-\d+x\d+/ *)
    cats [plus digit; lit "x"; plus digit; lit ".";
          alts [lit "jpg"; lit "jpeg"; lit "png"; lit "gif"; lit "webp"]];
                                        (* \d+x\d+\.(jpg|jpeg|png|gif|webp) *)
    lit "#respond";
    lit "#comment";
    Cat (lit "/page/") (plus digit);                        (* /page/\d+ *)
    lit "/author/";
    cats [lit "/writer"; opt (lit "s"); lit "/"] ].         (* /writers?/ *)

(** [name/?$] *)
Definition section_re (name : string) : regex :=
  cats [lit name; opt (lit "/"); Eol].

Definition soft_exclude_patterns : list regex :=
  [ section_re "/category";
    section_re "/categories";
    section_re "/tag";
    section_re "/tags";
    cats [lit "/topic"; opt (lit "s"); opt (lit "/"); Eol]; (* /topics?/?$ *)
    section_re "/archive";
    section_re "/archives";
    cats [lit "/"; times 4 digit; opt (lit "/"); Eol];      (* /\d{4}/?$ *)
    cats [lit "/"; times 4 digit; lit "/"; times 2 digit; opt (lit "/"); Eol];
                                                            (* /\d{4}/\d{2}/?$ *)
    section_re "/hub";
    section_re "/all-articles";
    section_re "/news";
    section_re "/world-news";
    section_re "/politics";
    section_re "/opinion";
    section_re "/sports";
    section_re "/tech";
    section_re "/business";
    section_re "/story" ].

(** [any(re.search(pattern, link, re.I) for pattern in patterns)] *)
Definition any_search_I (patterns : list regex) (link : string) : bool :=
  existsb (fun pattern => search flag_I pattern link) patterns.

Definition hard_excluded (link : string) : bool :=
  any_search_I hard_exclude_patterns link.

Definition is_section_page (link : string) : bool :=
  any_search_I soft_exclude_patterns link.

(** /20\d{2}/\d{2}/\d{2}/[\w-]+ *)
Definition full_date_re : regex :=
  cats [lit "/20"; times 2 digit; lit "/"; times 2 digit; lit "/";
        times 2 digit; lit "/"; plus word_or_dash].

(** /(news|story)/20\d{2}/\d{2}/\d{2}/[\w-]+ *)
Definition news_date_re : regex :=
  cats [lit "/"; Alt (lit "news") (lit "story"); full_date_re].

(** /20\d{2}/\d{2}/[\w-]{10,} *)
Definition wordpress_re : regex :=
  cats [lit "/20"; times 2 digit; lit "/"; times 2 digit; lit "/";
        at_least 10 word_or_dash].

(** /[\w-]{20,}/?$ *)
Definition long_slug_re : regex :=
  cats [lit "/"; at_least 20 word_or_dash; opt (lit "/"); Eol].

Definition category_words : list string :=
  [ "news"; "politics"; "world"; "business"; "sports";
    "tech"; "technology"; "science"; "opinion"; "entertainment";
    "lifestyle"; "health"; "culture"; "economy"; "society" ].

(** Stage 3 of the per-link body: the [if]/[elif] chain that sets
    [is_article]. *)
Definition is_article (link : string) : bool :=
  if contains "/article/" link then true
  else if search no_flags news_date_re link then true
  else if search no_flags full_date_re link then true
  else if search no_flags wordpress_re link && negb (endswith link "/")
       then true
  else if search no_flags long_slug_re link then
         let slug := last_segment "/" (rstrip_char "/" link) in
         negb (PySet.mem (lower slug) category_words)
  else false.

(** The substrings [extract_article_links] filters on. *)
Definition link_denylist : list string :=
  [ "login"; "signup"; "privacy"; "terms";
    "contact"; "about"; ".jpg"; ".png"; ".gif" ].

(** What [urlparse] gives, as far as the crawler reads it. *)
Record url_parts : Type := UrlParts { scheme : string; netloc : string }.

(** What [requests.get] gives: an exception, or a status and a body. *)
Inductive response : Type :=
| ConnError
| Status (status_code : Z) (text : string).

(** How the body of the [for link in links] loop is left. *)
Inductive control : Type :=
| Next          (* fell through, or [continue] *)
| Break         (* the hard stop on the article budget *)
| Throw.        (* an exception, caught by the [try] around the loop *)

(** An entry of the run's log: a URL appended to the queue, a URL added to
    [visited] and requested, a link on which the body of [for link in
    links] starts. *)
Inductive event : Type :=
| Enq (url : string)
| Visit (url : string)
| Seen (link : string).

(** The variables of [discover_all_links].  [trace] is not in the source: it
    logs the appends to [queue], the additions to [visited] and the links
    the loop body is run on, and is read by nothing. *)
Record frontier : Type := Frontier {
  visited : list string;
  queue : list string;
  article_urls : list string;
  trace : list event
}.

Section WithWorld.

(** [HTMLParser(html).css("a")], then [a.attributes.get("href")] of each. *)
Variable anchors_href : string -> outcome (list (option string)).
(** [urllib.parse.urljoin] and [urllib.parse.urlparse]. *)
Variable urljoin : string -> string -> outcome string.
Variable urlparse : string -> outcome url_parts.
(** [list(s)] for a set [s], given its elements in insertion order. *)
Variable set_order : list string -> list string.
(** [requests.get(url, ...)]. *)
Variable http_get : string -> response.

Fixpoint collect_links (base_url : string) (hrefs : list (option string))
    (links : list string) : outcome (list string) :=
  match hrefs with
  | [] => Ok links
  | None :: rest => collect_links base_url rest links
  | Some href :: rest =>
      if negb (nonempty href) then collect_links base_url rest links
      else
        url <- urljoin base_url href ;;
        if existsb (fun x => contains x (lower url)) link_denylist
        then collect_links base_url rest links
        else
          pu <- urlparse url ;;
          pb <- urlparse base_url ;;
          if (netloc pu =? netloc pb)%string
          then collect_links base_url rest (PySet.add url links)
          else collect_links base_url rest links
  end.

Definition extract_article_links (html base_url : string)
  : outcome (list string) :=
  hrefs <- anchors_href html ;;
  links <- collect_links base_url hrefs [] ;;
  Ok (set_order links).

(** [queue.append(link)] and [article_urls.add(link)]. *)
Definition enqueue (link : string) (st : frontier) : frontier :=
  Frontier (visited st) (queue st ++ [link]) (article_urls st)
           (trace st ++ [Enq link]).

Definition add_article (link : string) (st : frontier) : frontier :=
  Frontier (visited st) (queue st) (PySet.add link (article_urls st))
           (trace st).

(** The log entry for a link the loop body starts on. *)
Definition see (link : string) (st : frontier) : frontier :=
  Frontier (visited st) (queue st) (article_urls st)
           (trace st ++ [Seen link]).

(** The body of [for link in links]. *)
Definition process_link (domain : string) (max_articles : Z)
    (st : frontier) (link : string) : frontier * control :=
  let st := see link st in
  match urlparse link with
  | Raised => (st, Throw)
  | Ok p =>
      if negb (netloc p =? domain)%string then (st, Next)
      else if hard_excluded link then (st, Next)
      else
        let section := is_section_page link in
        let st1 := if PySet.mem link (visited st) then st else enqueue link st in
        if negb section then
          if is_article link && negb (PySet.mem link (article_urls st1)) then
            let st2 := add_article link st1 in
            if (max_articles <=? len (article_urls st2))%Z
            then (st2, Break) else (st2, Next)
          else (st1, Next)
        else (st1, Next)
  end.

Fixpoint for_links (domain : string) (max_articles : Z)
    (links : list string) (st : frontier) : frontier * control :=
  match links with
  | [] => (st, Next)
  | link :: rest =>
      match process_link domain max_articles st link with
      | (st', Next) => for_links domain max_articles rest st'
      | stopped => stopped
      end
  end.

(** One iteration of the [while] loop on a URL that is not in [visited]:
    [visited.add(url)], then the [try] block. *)
Definition visit (domain : string) (max_articles : Z) (url : string)
    (rest : list string) (st : frontier) : frontier :=
  let st1 := Frontier (visited st ++ [url]) rest (article_urls st)
                      (trace st ++ [Visit url]) in
  match http_get url with
  | ConnError => st1
  | Status code html =>
      if negb (code =? 200)%Z then st1
      else
        match extract_article_links html url with
        | Raised => st1
        | Ok links => fst (for_links domain max_articles links st1)
        end
  end.

Definition loop_test (max_pages max_articles : Z) (st : frontier) : bool :=
  match queue st with [] => false | _ => true end
  && (len (visited st) <? max_pages)%Z
  && (len (article_urls st) <? max_articles)%Z.

(** The [while] loop; [None] when [fuel] iterations were not enough. *)
Fixpoint discover_loop (fuel : nat) (domain : string)
    (max_pages max_articles : Z) (st : frontier) : option frontier :=
  if loop_test max_pages max_articles st then
    match fuel with
    | O => None
    | S fuel' =>
        match queue st with
        | [] => Some st
        | url :: rest =>
            if PySet.mem url (visited st) then
              discover_loop fuel' domain max_pages max_articles
                (Frontier (visited st) rest (article_urls st) (trace st))
            else
              discover_loop fuel' domain max_pages max_articles
                (visit domain max_articles url rest st)
        end
    end
  else Some st.

Definition initial (start_url : string) : frontier :=
  Frontier [] [start_url] [] [Enq start_url].

(** The state in which [discover_all_links] leaves its variables. *)
Definition discover_run (fuel : nat) (start_url : string)
    (max_pages max_articles : Z) : option (outcome frontier) :=
  match urlparse start_url with
  | Raised => Some Raised
  | Ok p =>
      match discover_loop fuel (netloc p) max_pages max_articles
              (initial start_url) with
      | None => None
      | Some st => Some (Ok st)
      end
  end.

(** [list(article_urls)[:max_articles]] *)
Definition returned (max_articles : Z) (st : frontier) : list string :=
  slice_to (set_order (article_urls st)) max_articles.

Definition discover_all_links (fuel : nat) (start_url : string)
    (max_pages max_articles : Z) : option (outcome (list string)) :=
  match discover_run fuel start_url max_pages max_articles with
  | None => None
  | Some Raised => Some Raised
  | Some (Ok st) => Some (Ok (returned max_articles st))
  end.

End WithWorld.

End Discovery.

(* ------------------------------------------------------------------ *)
(** ** The parser and the remote model, as the crawler sees them *)

(** [try: m  except: h]; the handler may raise in turn. *)
Definition try_catch {A : Type} (m h : outcome A) : outcome A :=
  match m with
  | Ok a => Ok a
  | Raised => h
  end.

(** The selectolax interface. [decompose] changes the tree in place: here
    it gives the changed tree.  [attribute n key] is [None] when the
    attribute is absent, [Some None] when it has no value. *)
Record dom : Type := Dom {
  tree : Type;
  node : Type;
  HTMLParser : string -> outcome tree;
  css : tree -> string -> outcome (list node);
  css_first : tree -> string -> outcome (option node);
  decompose : tree -> node -> outcome tree;
  text_strip : node -> outcome string;          (* node.text(strip=True) *)
  html_of : node -> outcome string;             (* node.html *)
  attribute : node -> string -> option (option string)
}.

(** The two system prompts. *)
Inductive prompt : Type :=
| CLEANING_PROMPT
| SUMMARY_PROMPT.

(** What [requests.post] to the model gives: an exception, or a status and
    the text found under [choices[0].message.content] of the JSON body
    (reading it raises when the body has another shape). *)
Inductive reply : Type :=
| PostFailed
| Reply (status_code : Z) (content : outcome string).

(** What the content pipeline prints, one constructor per [print] of
    lines 224-473 of the source, with the numbers and the selector its
    message shows; the text of a caught exception is not kept. *)
Inductive notice : Type :=
| Extracted (html_len article_len : nat)   (* [EXTRACT] Reduced HTML ... *)
| CleaningChunk (idx total : nat)          (* [GEMMA CLEAN] Chunk i/n *)
| ChunkFailed                              (* Gemma chunk failed *)
| ChunkEmpty                               (* Gemma returned empty *)
| CleaningFailed                           (* Gemma cleaning FAILED: e *)
| ContainerFound (selector : string)       (* [FOUND] Article container *)
| BodyFallback                             (* [FALLBACK] Using <body> *)
| NoContainer                              (* [ERROR] No article container *)
| ArticleLength (n : nat)                  (* [ARTICLE HTML] Length *)
| ExtractionFailed                   (* extract_article_content failed: e *)
| SummaryFailed                            (* Summary failed - no Gemma *)
| SummaryError                             (* Summary error: e *)
| ManualStarting                           (* [MANUAL CLEAN] Starting... *)
| ManualOutput (n : nat)                   (* [MANUAL CLEAN] Output *)
| ManualFailed.                            (* Manual cleaning FAILED: e *)

(** Whether the message starts with the warning sign, a character outside
    Latin-1 and so outside what many a console encodes. *)
Definition has_warning_sign (n : notice) : bool :=
  match n with
  | ChunkFailed | ChunkEmpty | CleaningFailed | SummaryFailed | SummaryError
  | ManualFailed => true
  | _ => false
  end.

(* ------------------------------------------------------------------ *)
(** ** The content-extraction pipeline *)

Module Pipeline.
Import Text Re.

Definition USE_LLM_CLEANING : bool := true.

Definition JUNK_SELECTORS : list string :=
  [ "head"; "script"; "style"; "nav"; "header"; "footer";
    "iframe"; "noscript"; "svg"; "link"; "meta";
    "img"; "picture"; "figure"; "figcaption";
    "button"; "form"; "input"; "textarea";
    ".header"; ".footer"; ".sidebar"; ".nav"; ".menu";
    ".advertisement"; ".ad"; ".ads"; ".sponsor";
    ".share"; ".social"; ".comments"; ".related";
    "#header"; "#footer"; "#sidebar"; "#nav";
    "[id*='google']"; "[class*='google']";
    "[class*='share']"; "[class*='social']";
    "[class*='comment']"; "[class*='related']";
    "[class*='ad-']"; "[id*='ad-']";
    "[class*='newsletter']"; "[class*='subscribe']" ].

(** The container selectors of [extract_article_content], in order. *)
Definition content_selectors : list string :=
  [ "article";
    "[class*='article-content']";
    "[class*='post-content']";
    "[class*='entry-content']";
    "[class*='story-content']";
    "[id*='article-content']";
    "[id*='post-content']";
    ".article-body";
    ".post-body";
    "main";
    "[role='main']";
    "#main-content";
    ".content" ].

(** The phrases of [manual_clean] that drop a text. *)
Definition skip_patterns : list string :=
  [ "click to share"; "share on"; "tweet"; "share this";
    "subscribe"; "newsletter"; "follow us"; "sign up";
    "read more"; "continue reading"; "related:"; "tags:";
    "posted in"; "filed under"; "advertisement"; "sponsored";
    "comment"; "leave a comment"; "view all posts";
    "copyright"; "all rights reserved";
    "privacy policy"; "terms of use"; "cookie policy" ].

Definition content_tags : list string :=
  [ "p"; "h2"; "h3"; "h4"; "li"; "blockquote" ].

(** <script[\s\S]*?</script>, <style[\s\S]*?</style>, <head[\s\S]*?</head>,
    <img[\s\S]*?> *)
Definition script_re : regex :=
  cats [lit "<script"; star_lazy anychar; lit "</script>"].
Definition style_re : regex :=
  cats [lit "<style"; star_lazy anychar; lit "</style>"].
Definition head_re : regex :=
  cats [lit "<head"; star_lazy anychar; lit "</head>"].
Definition img_re : regex :=
  cats [lit "<img"; star_lazy anychar; lit ">"].
(** <!--.*?--> *)
Definition comment_re : regex :=
  cats [lit "<!--"; star_lazy Dot; lit "-->"].
(** \s+ *)
Definition spaces_re : regex := plus space.
(** \n\s*\n\s*\n+ *)
Definition blank_lines_re : regex :=
  cats [lit nl; star space; lit nl; star space; plus (lit nl)].
(** <[^>]+> *)
Definition tag_re : regex :=
  cats [lit "<"; plus (not_char ">"%char); lit ">"].

Fixpoint chunk_from (fuel max_len : nat) (text : string) : list string :=
  match fuel with
  | O => []
  | S fuel' =>
      match text with
      | EmptyString => []
      | _ => take max_len text :: chunk_from fuel' max_len (drop max_len text)
      end
  end.

(** [chunk_text(text, max_len)] for a positive [max_len]. *)
Definition chunk_text (text : string) (max_len : nat) : list string :=
  chunk_from (String.length text) max_len text.

Definition html_preclean (html : string) : string :=
  let html := sub flag_I script_re " " html in
  let html := sub flag_I style_re " " html in
  let html := sub flag_S comment_re " " html in
  let html := sub no_flags spaces_re " " html in
  strip html.

(** ^.*?WORDS.*?\n, for the preambles that start anywhere on a line. *)
Definition preamble_re (words : regex) : regex :=
  cats [Bol; star_lazy Dot; words; star_lazy Dot; lit nl].

Definition preambles : list regex :=
  [ preamble_re (cats [lit "Here"; opt (lit "'"); opt (lit "s");
                       lit " the cleaned ";
                       alts [lit "text"; lit "article"; lit "content"]]);
    preamble_re (cats [lit "I"; opt (lit "'"); lit "ve ";
                       alts [lit "cleaned"; lit "removed"; lit "extracted"]]);
    preamble_re (cats [lit "adhering to "; opt (lit "your ");
                       lit "specifications"]);
    preamble_re (lit "As requested");
    preamble_re (cats [lit "Following "; opt (lit "your ");
                       lit "instructions"]);
    cats [Bol; lit "Read the "; star_lazy Dot; lit nl] ].

(** \n\s*WORDS.*$ *)
Definition postamble_re (words : regex) : regex :=
  cats [lit nl; star space; words; star Dot; Eol].

(** \n\s*TAGS?:\s*.*$ *)
Definition tags_re : regex :=
  postamble_re (cats [lit "TAG"; opt (lit "S"); lit ":"; star space]).

Definition postambles : list regex :=
  [ postamble_re (lit "I hope this helps");
    postamble_re (lit "Let me know if");
    postamble_re (lit "Please note");
    postamble_re (lit "Note:") ].

Definition clean_llm_artifacts (text : string) : string :=
  let text := fold_left (fun t pattern => sub flag_IM pattern "" t)
                        preambles text in
  let text := sub flag_IS tags_re "" text in
  let text := fold_left (fun t pattern => sub flag_IS pattern "" t)
                        postambles text in
  strip text.

(** [any(pattern in lower for pattern in skip_patterns)] and the two tests
    around it: whether [manual_clean] keeps a text. *)
Definition keep_text (text : string) : bool :=
  if String.length text <? 3 then false
  else if existsb (fun pattern => contains pattern (lower text)) skip_patterns
       then false
  else if startswith text "http" || startswith text "www" then false
  else true.

(** The last step of [manual_clean]. *)
Definition final_cleanup (result : string) : string :=
  let result := sub no_flags spaces_re " " result in
  let result := sub no_flags blank_lines_re (nl ++ nl) result in
  strip result.

Section WithDom.

Variable D : dom.
(** [print]: it raises when the console does not take the message. *)
Variable print : notice -> outcome unit.
Variable post_chat : prompt -> string -> reply.

(** The texts of [nodes] that [strip_html_basic] keeps. *)
Fixpoint basic_parts (nodes : list (node D)) : outcome (list string) :=
  match nodes with
  | [] => Ok []
  | n :: rest =>
      t <- text_strip D n ;;
      parts <- basic_parts rest ;;
      Ok (if 10 <? String.length t then t :: parts else parts)
  end.

Definition strip_html_basic_try (html : string) : outcome string :=
  let html := sub flag_I head_re "" html in
  let html := sub flag_I script_re "" html in
  let html := sub flag_I style_re "" html in
  let html := sub flag_I img_re "" html in
  let html := sub flag_S comment_re "" html in
  tree <- HTMLParser D html ;;
  nodes <- css D tree "p, li, h1, h2, h3, h4" ;;
  parts <- basic_parts nodes ;;
  Ok (join (nl ++ nl) parts).

Definition strip_html_basic (html : string) : outcome string :=
  try_catch (strip_html_basic_try html) (Ok "").

(** [for elem in tree.css(selector): elem.decompose()] *)
Fixpoint decompose_all (t : tree D) (elems : list (node D)) : outcome (tree D) :=
  match elems with
  | [] => Ok t
  | elem :: rest => t' <- decompose D t elem ;; decompose_all t' rest
  end.

Fixpoint remove_junk (t : tree D) (selectors : list string) : outcome (tree D) :=
  match selectors with
  | [] => Ok t
  | selector :: rest =>
      elems <- css D t selector ;;
      t' <- decompose_all t elems ;;
      remove_junk t' rest
  end.

(** The loop over the container selectors, left at the first hit. *)
Fixpoint find_container (t : tree D) (selectors : list string)
  : outcome (option (node D)) :=
  match selectors with
  | [] => Ok None
  | selector :: rest =>
      article <- css_first D t selector ;;
      match article with
      | Some _ => _ <- print (ContainerFound selector) ;; Ok article
      | None => find_container t rest
      end
  end.

Definition extract_article_content_try (html : string) : outcome string :=
  t <- HTMLParser D html ;;
  t <- remove_junk t JUNK_SELECTORS ;;
  article <- find_container t content_selectors ;;
  article <- match article with
             | Some _ => Ok article
             | None =>
                 body <- css_first D t "body" ;;
                 match body with
                 | Some _ => _ <- print BodyFallback ;; Ok body
                 | None => Ok body
                 end
             end ;;
  match article with
  | None => _ <- print NoContainer ;; strip_html_basic html
  | Some a =>
      article_html <- html_of D a ;;
      let article_html := sub flag_I script_re "" article_html in
      let article_html := sub flag_I style_re "" article_html in
      let article_html := sub flag_S comment_re "" article_html in
      _ <- print (ArticleLength (String.length article_html)) ;;
      Ok (strip article_html)
  end.

(** The handler prints before it falls back, outside any [try]. *)
Definition extract_article_content (html : string) : outcome string :=
  try_catch (extract_article_content_try html)
    (_ <- print ExtractionFailed ;; strip_html_basic html).

(** The texts of [elems] that [manual_clean] keeps, after [parts]. *)
Fixpoint kept_texts (elems : list (node D)) (parts : list string)
  : outcome (list string) :=
  match elems with
  | [] => Ok parts
  | elem :: rest =>
      text <- text_strip D elem ;;
      if keep_text text then kept_texts rest (parts ++ [text])
      else kept_texts rest parts
  end.

Fixpoint content_parts (t : tree D) (selectors : list string)
    (parts : list string) : outcome (list string) :=
  match selectors with
  | [] => Ok parts
  | selector :: rest =>
      elems <- css D t selector ;;
      parts <- kept_texts elems parts ;;
      content_parts t rest parts
  end.

(** The title line and the blank line after it. *)
Definition title_parts (t : tree D) : outcome (list string) :=
  h1 <- css_first D t "h1" ;;
  match h1 with
  | None => Ok []
  | Some h =>
      title <- text_strip D h ;;
      Ok (if nonempty title then [title; ""] else [])
  end.

Definition manual_clean_try (html : string) : outcome string :=
  _ <- print ManualStarting ;;
  article_html <- extract_article_content html ;;
  t <- HTMLParser D article_html ;;
  parts <- title_parts t ;;
  parts <- content_parts t content_tags parts ;;
  let result := join (nl ++ nl) parts in
  _ <- print (ManualOutput
                (String.length
                   (sub no_flags blank_lines_re (nl ++ nl)
                      (sub no_flags spaces_re " " result)))) ;;
  Ok (final_cleanup result).

(** The handler prints before it falls back, outside any [try]. *)
Definition manual_clean (html : string) : outcome string :=
  try_catch (manual_clean_try html)
    (_ <- print ManualFailed ;; strip_html_basic html).

(** The loop of [gpt_clean] over the chunks; [idx] counts the chunks done
    and [total] is [len(chunks)]. *)
Fixpoint clean_chunks (total idx : nat) (chunks outputs : list string)
  : outcome (list string) :=
  match chunks with
  | [] => Ok outputs
  | chunk :: rest =>
      _ <- print (CleaningChunk (idx + 1) total) ;;
      match post_chat CLEANING_PROMPT chunk with
      | PostFailed => Raised
      | Reply status_code content =>
          if negb (status_code =? 200)%Z then
            _ <- print ChunkFailed ;;
            fallback <- strip_html_basic chunk ;;
            clean_chunks total (S idx) rest (outputs ++ [fallback])
          else
            content <- content ;;
            let content := strip content in
            if nonempty content
            then clean_chunks total (S idx) rest (outputs ++ [content])
            else
              _ <- print ChunkEmpty ;;
              fallback <- strip_html_basic chunk ;;
              clean_chunks total (S idx) rest (outputs ++ [fallback])
      end
  end.

Definition gpt_clean_try (html : string) : outcome string :=
  article_html <- extract_article_content html ;;
  _ <- print (Extracted (String.length html) (String.length article_html)) ;;
  let clean_input := html_preclean article_html in
  let chunks := chunk_text clean_input (80 * 100) in
  outputs <- clean_chunks (List.length chunks) 0 chunks [] ;;
  let result := join nl outputs in
  let result := clean_llm_artifacts result in
  let result := sub no_flags tag_re "" result in
  let result := sub no_flags spaces_re " " result in
  Ok (strip result).

(** The handler prints before it falls back, outside any [try]. *)
Definition gpt_clean (html : string) : outcome string :=
  try_catch (gpt_clean_try html)
    (_ <- print CleaningFailed ;; strip_html_basic html).

(** Here too the handler prints, outside any [try], before it returns. *)
Definition gpt_summary (text : string) : outcome string :=
  try_catch
    (match post_chat SUMMARY_PROMPT (take (40 * 100) text) with
     | PostFailed => Raised
     | Reply status_code content =>
         if negb (status_code =? 200)%Z
         then _ <- print SummaryFailed ;; Ok ""
         else content <- content ;; Ok (strip content)
     end)
    (_ <- print SummaryError ;; Ok "").

(** The strategy [crawl_site] picks on [USE_LLM_CLEANING]. *)
Definition clean_text (use_llm : bool) (html : string) : outcome string :=
  if use_llm then gpt_clean html else manual_clean html.

End WithDom.

End Pipeline.

(* ------------------------------------------------------------------ *)
(** ** Metadata extraction *)

Module Metadata.
Import Text.

(** A value [json.loads] gives; an object is its list of items, one per
    key. *)
Inductive json : Type :=
| JNull
| JBool (b : bool)
| JNum (z : Z)
| JStr (s : string)
| JArr (items : list json)
| JObj (fields : list (string * json)).

Fixpoint get_field (key : string) (fields : list (string * json)) : option json :=
  match fields with
  | [] => None
  | (k, v) :: rest => if (k =? key)%string then Some v else get_field key rest
  end.

(** [bool(v)] *)
Definition truthy (v : json) : bool :=
  match v with
  | JNull => false
  | JBool b => b
  | JNum z => negb (z =? 0)%Z
  | JStr s => nonempty s
  | JArr items => match items with [] => false | _ => true end
  | JObj fields => match fields with [] => false | _ => true end
  end.

Definition is_str (s : string) (v : json) : bool :=
  match v with
  | JStr s' => (s' =? s)%string
  | _ => false
  end.

(** [key in v]: a key of a dict, an element of a list, a substring of a
    string; a type error on anything else. *)
Definition py_in (key : string) (v : json) : outcome bool :=
  match v with
  | JObj fields =>
      Ok (match get_field key fields with Some _ => true | None => false end)
  | JArr items => Ok (existsb (is_str key) items)
  | JStr s => Ok (contains key s)
  | _ => Raised
  end.

(** [v.get(key, "")]: only a dict has [get]. *)
Definition py_get (key : string) (v : json) : outcome json :=
  match v with
  | JObj fields =>
      Ok (match get_field key fields with Some x => x | None => JStr "" end)
  | _ => Raised
  end.

(** [a.get("name", "") for a in authors if "name" in a], as [str.join]
    consumes it: every item has to be a string. *)
Fixpoint author_names (authors : list json) : outcome (list string) :=
  match authors with
  | [] => Ok []
  | a :: rest =>
      has_name <- py_in "name" a ;;
      if has_name then
        name <- py_get "name" a ;;
        match name with
        | JStr s => names <- author_names rest ;; Ok (s :: names)
        | _ => Raised
        end
      else author_names rest
  end.

(** The body of the [try] in the JSON-LD loop: [None] when [author] is not
    assigned. *)
Definition author_of_data (data : json) : outcome (option json) :=
  match data with
  | JObj fields =>
      match get_field "author" fields with
      | Some (JArr authors) =>
          names <- author_names authors ;;
          Ok (Some (JStr (join ", " names)))
      | Some other => name <- py_get "name" other ;; Ok (Some name)
      | None => Ok None
      end
  | _ => Ok None
  end.

Section WithDom.

Variable D : dom.
Variable json_loads : string -> outcome json.
(** [datetime.fromisoformat] and [datetime.utcnow()]. *)
Variable datetime : Type.
Variable fromisoformat : string -> outcome datetime.
Variable utcnow : datetime.

(** [node.attributes.get("content", "")] *)
Definition content_attr (n : node D) : json :=
  match attribute D n "content" with
  | None => JStr ""
  | Some None => JNull
  | Some (Some s) => JStr s
  end.

(** The TITLE block. *)
Definition resolve_title (t : tree D) : outcome json :=
  og <- css_first D t "meta[property='og:title']" ;;
  let title := match og with
               | Some n => content_attr n
               | None => JStr ""
               end in
  title <- (if truthy title then Ok title
            else
              h1 <- css_first D t "h1" ;;
              match h1 with
              | Some h => s <- text_strip D h ;; Ok (JStr s)
              | None => Ok title
              end) ;;
  Ok (if truthy title then title else JStr "Untitled").

(** The [try] block of the JSON-LD loop on one script: the value it
    assigns to [author], if it assigns one.  An exception anywhere in the
    block leaves [author] as it was. *)
Definition script_author (n : node D) : option json :=
  match try_catch
          (s <- text_strip D n ;;
           data <- json_loads s ;;
           author_of_data data)
          (Ok None) with
  | Ok (Some a) => Some a
  | _ => None
  end.

(** The loop over the JSON-LD scripts. *)
Fixpoint jsonld_author (scripts : list (node D)) (author : json) : json :=
  match scripts with
  | [] => author
  | n :: rest =>
      match script_author n with
      | Some a => jsonld_author rest a
      | None => jsonld_author rest author
      end
  end.

(** The AUTHOR block. *)
Definition resolve_author (t : tree D) : outcome json :=
  scripts <- css D t "script[type='application/ld+json']" ;;
  let author := jsonld_author scripts (JStr "") in
  author <- (if truthy author then Ok author
             else
               meta_author <- css_first D t "meta[name='author']" ;;
               match meta_author with
               | Some n => Ok (content_attr n)
               | None => Ok author
               end) ;;
  if truthy author then Ok author
  else
    byline <- css_first D t ".byline, .author, .post-author" ;;
    match byline with
    | Some n => s <- text_strip D n ;; Ok (JStr (replace "By " "" s))
    | None => Ok author
    end.

(** The DATE block. *)
Definition resolve_published (t : tree D) : outcome datetime :=
  meta_time <- css_first D t "meta[property='article:published_time']" ;;
  let published := match meta_time with
                   | Some n => content_attr n
                   | None => JStr ""
                   end in
  if truthy published then
    match published with
    | JStr s => try_catch (fromisoformat s) (Ok utcnow)
    | _ => Ok utcnow
    end
  else Ok utcnow.

Definition extract_metadata (html : string)
  : outcome (json * json * datetime) :=
  t <- HTMLParser D html ;;
  title <- resolve_title t ;;
  author <- resolve_author t ;;
  published <- resolve_published t ;;
  Ok (title, author, published).

End WithDom.

End Metadata.

(* ------------------------------------------------------------------ *)
(** ** The per-article loop of [crawl_site] *)

Module Orchestrator.
Import Text Discovery Pipeline Metadata.

(** The [CrawlResult] of [crawl_article]. *)
Record crawl_result : Type := CrawlResult {
  html : string;
  markdown : string;
  success : bool
}.

(** The arguments of one call of [upsert_post], the database session and
    the blog apart. *)
Record post (datetime : Type) : Type := Post {
  post_url : string;
  post_title : json;
  post_text : string;
  post_html : string;
  post_author : json;
  post_tags : list string;
  post_published : datetime;
  post_summary : string
}.

(** The variables of the loop; [handed] lists the calls of [upsert_post]. *)
Record tally (datetime : Type) : Type := Tally {
  inserted : Z;
  skipped : Z;
  handed : list (post datetime)
}.

(** The admission threshold of both gates. *)
Definition too_short (text : string) : bool :=
  String.length (strip text) <? 50.

Section WithWorld.

Variable D : dom.
Variable print : notice -> outcome unit.
Variable post_chat : prompt -> string -> reply.
Variable json_loads : string -> outcome json.
Variable datetime : Type.
Variable fromisoformat : string -> outcome datetime.
Variable utcnow : datetime.
(** [requests.get] of [crawl_article]. *)
Variable http_get : string -> response.
(** [upsert_post], given the calls made before: the new row's id, or
    [None] on a conflict. *)
Variable upsert_post : list (post datetime) -> post datetime -> outcome (option Z).

Definition crawl_article (url : string) : option crawl_result :=
  match http_get url with
  | ConnError => None
  | Status status_code text =>
      if negb (status_code =? 200)%Z then None
      else
        match strip_html_basic D text with
        | Ok markdown => Some (CrawlResult text markdown true)
        | Raised => None
        end
  end.

(** [res.markdown or strip_html_basic(html)] *)
Definition raw_text_of (res : crawl_result) : outcome string :=
  if nonempty (markdown res) then Ok (markdown res)
  else strip_html_basic D (html res).

Definition skip (st : tally datetime) : tally datetime :=
  Tally (inserted st) (skipped st + 1) (handed st).

(** The body of [for u in article_urls] up to the call of [upsert_post]:
    [None] for a candidate that is skipped, the record otherwise. *)
Definition candidate (use_llm : bool) (u : string)
  : outcome (option (post datetime)) :=
  match crawl_article u with
  | None => Ok None
  | Some res =>
      if negb (success res) then Ok None
      else
        let html := html res in
        raw_text <- raw_text_of res ;;
        if too_short raw_text then Ok None
        else
          meta <- extract_metadata D json_loads fromisoformat utcnow html ;;
          let '(title, author, published) := meta in
          cleaned_text <- clean_text D print post_chat use_llm html ;;
          if too_short cleaned_text then Ok None
          else
            cleaned_html <- extract_article_content D print html ;;
            summary <- gpt_summary print post_chat cleaned_text ;;
            Ok (Some (Post u title cleaned_text cleaned_html author []
                           published summary))
  end.

(** One pass through the body, after the test on [inserted]; the flag
    tells whether an exception left it. *)
Definition crawl_one (use_llm : bool) (st : tally datetime) (u : string)
  : tally datetime * bool :=
  match candidate use_llm u with
  | Raised => (st, true)
  | Ok None => (skip st, false)
  | Ok (Some p) =>
      let log := (handed st ++ [p])%list in
      match upsert_post (handed st) p with
      | Raised => (Tally (inserted st) (skipped st) log, true)
      | Ok (Some id) =>
          if (id =? 0)%Z
          then (Tally (inserted st) (skipped st + 1) log, false)
          else (Tally (inserted st + 1) (skipped st) log, false)
      | Ok None => (Tally (inserted st) (skipped st + 1) log, false)
      end
  end.

(** The loop; an exception leaves it with the tally reached so far. *)
Fixpoint crawl_loop (use_llm : bool) (article_urls : list string)
    (st : tally datetime) : tally datetime * bool :=
  match article_urls with
  | [] => (st, false)
  | u :: rest =>
      if (10 <=? inserted st)%Z then (st, false)
      else
        match crawl_one use_llm st u with
        | (st', false) => crawl_loop use_llm rest st'
        | stopped => stopped
        end
  end.

End WithWorld.

End Orchestrator.

(* ------------------------------------------------------------------ *)
(** ** What the discovery loop maintains *)

Module DiscoverySpec.
Import Text Discovery.
(** The URLs added to [visited], in the order of the log. *)
Fixpoint visits (t : list event) : list string :=
  match t with
  | [] => []
  | Visit u :: t' => u :: visits t'
  | _ :: t' => visits t'
  end.

(** The URLs appended to the queue, in the order of the log. *)
Fixpoint enqueues (t : list event) : list string :=
  match t with
  | [] => []
  | Enq u :: t' => u :: enqueues t'
  | _ :: t' => enqueues t'
  end.

(** No URL is appended to the queue after it was added to [visited]. *)
Fixpoint no_enq_after_visit (t : list event) : Prop :=
  match t with
  | [] => True
  | Visit u :: t' => ~ In (Enq u) t' /\ no_enq_after_visit t'
  | _ :: t' => no_enq_after_visit t'
  end.

(** Every link the loop body is run on is appended to the queue at once,
    unless it matches a hard-exclusion pattern or is in [visited] by then;
    [vis] lists the URLs visited before [t]. *)
Fixpoint seen_enqueued (vis : list string) (t : list event) : Prop :=
  match t with
  | [] => True
  | Visit u :: t' => seen_enqueued (vis ++ [u]) t'
  | Enq _ :: t' => seen_enqueued vis t'
  | Seen link :: t' =>
      (hard_excluded link = false -> ~ In link vis ->
       exists t'', t' = Enq link :: t'')
      /\ seen_enqueued vis t'
  end.

(** What the loop body appends to the log: the link, and the link again
    when it is appended to the queue. *)
Definition body_log (st : frontier) (link : string) : list event :=
  if hard_excluded link then [Seen link]
  else if PySet.mem link (visited st) then [Seen link]
  else [Seen link; Enq link].

(** [u] parses, and its host is [domain]. *)
Definition has_host (urlparse : string -> outcome url_parts)
    (domain u : string) : Prop :=
  exists p, urlparse u = Ok p /\ netloc p = domain.

(** What holds, besides [invariant] below, when the links of a page have
    the host of the page: everything queued or seen is on the crawl's
    host, and what is seen is enqueued. *)
Record host_invariant (urlparse : string -> outcome url_parts)
    (domain : string) (st : frontier) : Prop := HostInvariant {
  inv_queue_host : forall u, In u (queue st) -> has_host urlparse domain u;
  inv_seen_host :
    forall link, In (Seen link) (trace st) -> has_host urlparse domain link;
  inv_seen_enqueued : seen_enqueued [] (trace st)
}.

(** What holds of the variables of [discover_all_links] at every test of
    its [while] loop. *)
Record invariant (start_url : string) (max_pages max_articles : Z)
    (st : frontier) : Prop := Invariant {
  inv_visited_nodup : NoDup (visited st);
  inv_visited_bound : (len (visited st) <= Z.max 0 max_pages)%Z;
  inv_articles_nodup : NoDup (article_urls st);
  inv_articles_bound : (len (article_urls st) <= Z.max 0 max_articles)%Z;
  inv_articles_class :
    forall u, In u (article_urls st) ->
      hard_excluded u = false /\ is_section_page u = false
      /\ is_article u = true;
  inv_trace_visits : visits (trace st) = visited st;
  inv_queue_logged : forall u, In u (queue st) -> In (Enq u) (trace st);
  inv_visited_logged : forall u, In u (visited st) -> In (Enq u) (trace st);
  inv_enq_class :
    forall u, In (Enq u) (trace st) -> u = start_url \/ hard_excluded u = false;
  inv_trace_order : no_enq_after_visit (trace st)
}.
(** A link [extract_article_links] may keep: the resolution of a non-empty
    [href] of the page that has the host of the page and no denylisted
    substring, in any letter case. *)
Definition kept_link (urljoin : string -> string -> outcome string)
    (urlparse : string -> outcome url_parts)
    (base_url : string) (hrefs : list (option string)) (url : string) : Prop :=
  (exists href, In (Some href) hrefs /\ href <> ""
                /\ urljoin base_url href = Ok url)
  /\ (exists pu pb, urlparse url = Ok pu /\ urlparse base_url = Ok pb
                    /\ netloc pu = netloc pb)
  /\ (forall x, In x link_denylist -> contains x (lower url) = false).

End DiscoverySpec.

(* ------------------------------------------------------------------ *)
(** ** What the per-article loop guarantees *)

Module OrchestratorSpec.
Import Text Discovery Pipeline Orchestrator.

(** A record that comes from a fetched candidate whose raw text and whose
    cleaned text both have at least 50 characters once stripped. *)
Definition passed_gates (D : dom) (print : notice -> outcome unit)
    (post_chat : prompt -> string -> reply)
    (http_get : string -> response) (use_llm : bool)
    (datetime : Type) (p : post datetime) : Prop :=
  exists res raw_text,
    crawl_article D http_get (post_url p) = Some res
    /\ raw_text_of D res = Ok raw_text
    /\ 50 <= String.length (strip raw_text)
    /\ clean_text D print post_chat use_llm (html res) = Ok (post_text p)
    /\ 50 <= String.length (strip (post_text p)).

End OrchestratorSpec.

(* ------------------------------------------------------------------ *)
(** ** The two strategies, side by side *)

Module PipelineSpec.
Import Text Pipeline.

(** What a strategy prints when its [try] block has failed. *)
Definition failure_notice (use_llm : bool) : notice :=
  if use_llm then CleaningFailed else ManualFailed.

(** The [try] block of the strategy [crawl_site] picks. *)
Definition clean_text_try (D : dom) (print : notice -> outcome unit)
    (post_chat : prompt -> string -> reply) (use_llm : bool) (html : string)
  : outcome string :=
  if use_llm then gpt_clean_try D print post_chat html
  else manual_clean_try D print html.

End PipelineSpec.

(* ------------------------------------------------------------------ *)
(** ** A small world to run the crawler in *)

Module Sample.
Import Text Discovery.

(** [s.split(c)] *)
Fixpoint split_on (c : ascii) (cur s : string) : list string :=
  match s with
  | EmptyString => [cur]
  | String a s' =>
      if Ascii.eqb a c then cur :: split_on c "" s'
      else split_on c (cur ++ String a "") s'
  end.

Fixpoint until_any (stops s : string) : string :=
  match s with
  | EmptyString => EmptyString
  | String a s' =>
      if contains (String a "") stops then "" else String a (until_any stops s')
  end.

Fixpoint split_scheme (s : string) : option (string * string) :=
  match s with
  | EmptyString => None
  | String a s' =>
      if prefix "://" s then Some ("", drop 3 s)
      else match split_scheme s' with
           | Some (sc, r) => Some (String a sc, r)
           | None => None
           end
  end.

(** [urlparse] on URLs of the shape [scheme://host/path]. *)
Definition urlparse (u : string) : outcome url_parts :=
  match split_scheme u with
  | Some (sc, r) => Ok (UrlParts sc (until_any "/?#" r))
  | None => Ok (UrlParts "" "")
  end.

(** [urljoin]: a reference with a scheme is kept, any other one is put
    under the root of the base. *)
Definition urljoin (base href : string) : outcome string :=
  match split_scheme href with
  | Some (String _ _, _) => Ok href
  | _ =>
      p <- urlparse base ;;
      if prefix "/" href then Ok (scheme p ++ "://" ++ netloc p ++ href)
      else Ok (scheme p ++ "://" ++ netloc p ++ "/" ++ href)
  end.

(** A page body is written as the hrefs of its anchors, separated by
    spaces. *)
Definition anchors_href (html : string) : outcome (list (option string)) :=
  match html with
  | EmptyString => Ok []
  | _ => Ok (map Some (split_on " " "" html))
  end.

(** A site: the pages that answer with status 200, everything else is 404. *)
Fixpoint serve (pages : list (string * string)) (url : string) : response :=
  match pages with
  | [] => Status 404 ""
  | (u, body) :: rest =>
      if (u =? url)%string then Status 200 body else serve rest url
  end.

(** Two iteration orders for a set: as inserted, and the reverse. *)
Definition as_inserted (l : list string) : list string := l.
Definition reversed (l : list string) : list string := List.rev l.

(** The front page links to a section page, to an article and to its second
    page; the section page links to the same article and to another one. *)
Definition blog : list (string * string) :=
  [ ("http://s.com/",
     "http://s.com/news http://s.com/2024/01/02/first-post http://s.com/page/2");
    ("http://s.com/news",
     "http://s.com/2024/01/02/first-post http://s.com/2024/01/03/second-post");
    ("http://s.com/2024/01/02/first-post", "");
    ("http://s.com/2024/01/03/second-post", "") ].

(** A site whose start page is an author page that links to itself. *)
Definition author_site : list (string * string) :=
  [ ("http://s.com/author/bob",
     "http://s.com/author/bob http://s.com/2024/01/02/first-post") ].

Definition crawl (order : list string -> list string)
    (pages : list (string * string)) (fuel : nat) (start_url : string)
    (max_pages max_articles : Z) : option (outcome frontier) :=
  discover_run anchors_href urljoin urlparse order (serve pages)
    fuel start_url max_pages max_articles.

Definition crawl_result (order : list string -> list string)
    (pages : list (string * string)) (fuel : nat) (start_url : string)
    (max_pages max_articles : Z) : option (outcome (list string)) :=
  discover_all_links anchors_href urljoin urlparse order (serve pages)
    fuel start_url max_pages max_articles.

(** The state in which discovery leaves its variables on [blog], with the
    set order [as_inserted]. *)
Definition sample_final : frontier :=
  Frontier
    ["http://s.com/"; "http://s.com/news";
     "http://s.com/2024/01/02/first-post";
     "http://s.com/2024/01/03/second-post"]
    []
    ["http://s.com/2024/01/02/first-post";
     "http://s.com/2024/01/03/second-post"]
    [Enq "http://s.com/"; Visit "http://s.com/";
     Seen "http://s.com/news"; Enq "http://s.com/news";
     Seen "http://s.com/2024/01/02/first-post";
     Enq "http://s.com/2024/01/02/first-post";
     Seen "http://s.com/page/2";
     Visit "http://s.com/news";
     Seen "http://s.com/2024/01/02/first-post";
     Enq "http://s.com/2024/01/02/first-post";
     Seen "http://s.com/2024/01/03/second-post";
     Enq "http://s.com/2024/01/03/second-post";
     Visit "http://s.com/2024/01/02/first-post";
     Visit "http://s.com/2024/01/03/second-post"].

(** Projections of a finished run. *)
Definition on_final {A : Type} (f : frontier -> A)
    (run : option (outcome frontier)) : option A :=
  match run with
  | Some (Ok st) => Some (f st)
  | _ => None
  end.

(** *** Documents *)

(** An element of a parsed document: the simple selectors it matches, its
    text, its markup and its attributes. *)
Record element : Type := Element {
  matches : list string;
  inner_text : string;
  outer_html : string;
  attributes : list (string * option string)
}.

(** A parsed document: its elements in document order. *)
Definition document : Type := list element.

Fixpoint lookup {A : Type} (key : string) (table : list (string * A)) : option A :=
  match table with
  | [] => None
  | (k, v) :: rest => if (k =? key)%string then Some v else lookup key rest
  end.

Definition matches_any (selector : string) (e : element) : bool :=
  existsb (fun simple => PySet.mem (lstrip simple) (matches e))
          (split_on "," "" selector).

Definition same_element (e1 e2 : element) : bool :=
  (outer_html e1 =? outer_html e2)%string.

(** A parser that knows the documents of [table] and raises on any other
    text. *)
Definition table_dom (table : list (string * document)) : dom :=
  {| tree := document;
     node := element;
     HTMLParser := fun s => match lookup s table with
                            | Some d => Ok d
                            | None => Raised
                            end;
     css := fun d selector => Ok (filter (matches_any selector) d);
     css_first := fun d selector =>
                    Ok (List.hd_error (filter (matches_any selector) d));
     decompose := fun d e => Ok (filter (fun x => negb (same_element x e)) d);
     text_strip := fun e => Ok (inner_text e);
     html_of := fun e => Ok (outer_html e);
     attribute := fun e key => lookup key (attributes e) |}.

Definition tagged (tag text : string) : element :=
  Element [tag] text ("<" ++ tag ++ ">" ++ text ++ "</" ++ tag ++ ">") [].

(** A page with one heading and three paragraphs in an [article]. *)
Definition storm_article : string :=
  "<article><h1>Storm hits coast</h1><p>Rain fell all night.</p><p>Rivers rose by morning.</p><p>Roads reopened at noon.</p></article>".

Definition storm_page : string :=
  "<html><body>" ++ storm_article ++ "</body></html>".

Definition storm_elements : document :=
  [ Element ["article"] "" storm_article [];
    tagged "h1" "Storm hits coast";
    tagged "p" "Rain fell all night.";
    tagged "p" "Rivers rose by morning.";
    tagged "p" "Roads reopened at noon." ].

Definition storm_dom : dom :=
  table_dom
    [ (storm_page,
       Element ["body"] "" ("<body>" ++ storm_article ++ "</body>") []
       :: storm_elements);
      (storm_article, storm_elements) ].

(** A document in which headings and paragraphs alternate. *)
Definition mixed_elements : document :=
  [ tagged "h2" "Forecast for the week";
    tagged "p" "Rain fell all night.";
    tagged "h2" "What comes next";
    tagged "p" "Roads reopened at noon." ].

(** A parser for the empty page: no elements. *)
Definition blank_dom : dom := table_dom [("", [])].

(** A console that takes every message, and one that takes none with
    the warning sign. *)
Definition quiet (_ : notice) : outcome unit := Ok tt.

Definition plain_console (n : notice) : outcome unit :=
  if has_warning_sign n then Raised else Ok tt.

(** A model that answers every request with [content]. *)
Definition canned (content : string) (_ : prompt) (_ : string) : reply :=
  Reply 200 (Ok content).

(** A model that is down. *)
Definition offline (_ : prompt) (_ : string) : reply := PostFailed.

(** *** Structured data *)

Import Metadata.

Definition quote : string := String (ascii_of_nat 34) "".
Definition quoted (s : string) : string := quote ++ s ++ quote.

(** The JSON-LD texts of the two sample bylines: one author object, a list
    of two author objects. *)
Definition one_author_text : string :=
  "{" ++ quoted "author" ++ ":{" ++ quoted "name" ++ ":" ++ quoted "Jane Doe"
  ++ "}}".

Definition two_authors_text : string :=
  "{" ++ quoted "author" ++ ":[{" ++ quoted "name" ++ ":" ++ quoted "Jane Doe"
  ++ "},{" ++ quoted "name" ++ ":" ++ quoted "John Roe" ++ "}]}".

Definition one_author : json :=
  JObj [("author", JObj [("name", JStr "Jane Doe")])].

Definition two_authors : json :=
  JObj [("author", JArr [JObj [("name", JStr "Jane Doe")];
                         JObj [("name", JStr "John Roe")]])].

Definition json_loads (s : string) : outcome json :=
  match lookup s [(one_author_text, one_author);
                  (two_authors_text, two_authors)] with
  | Some v => Ok v
  | None => Raised
  end.

(** A page with a JSON-LD script, an author meta tag and a byline. *)
Definition byline_elements (jsonld : string) : document :=
  [ Element ["script[type='application/ld+json']"; "script"] jsonld
      ("<script type='application/ld+json'>" ++ jsonld ++ "</script>")
      [("type", Some "application/ld+json")];
    Element ["meta[name='author']"; "meta"] ""
      "<meta name='author' content='Site Staff'>"
      [("name", Some "author"); ("content", Some "Site Staff")];
    Element [".byline"; "span"] "By The Desk"
      "<span class='byline'>By The Desk</span>" [("class", Some "byline")] ].

Definition byline_page (jsonld : string) : string :=
  "<html><head><script type='application/ld+json'>" ++ jsonld
  ++ "</script><meta name='author' content='Site Staff'></head>"
  ++ "<body><span class='byline'>By The Desk</span></body></html>".

Definition byline_dom : dom :=
  table_dom
    [ (byline_page one_author_text, byline_elements one_author_text);
      (byline_page two_authors_text, byline_elements two_authors_text) ].

(** A page whose structured data gives the author as a plain text. *)
Definition string_author_text : string :=
  "{" ++ quoted "author" ++ ":" ++ quoted "Jane Doe" ++ "}".

Definition string_author : json := JObj [("author", JStr "Jane Doe")].

Definition json_loads_text (s : string) : outcome json :=
  match lookup s [(string_author_text, string_author)] with
  | Some v => Ok v
  | None => Raised
  end.

Definition string_author_dom : dom :=
  table_dom
    [ (byline_page string_author_text, byline_elements string_author_text) ].

(** Time stamps, written as text. *)
Definition fromisoformat (s : string) : outcome string := Ok s.
Definition utcnow : string := "now".

(** *** The orchestrator *)

Import Orchestrator.

(** A site that serves the storm page, and a database that takes every
    post. *)
Definition storm_site : list (string * string) :=
  [ ("http://s.com/2024/01/02/storm-hits-coast", storm_page) ].

Definition accept_all (log : list (post string)) (_ : post string)
  : outcome (option Z) :=
  Ok (Some (len log + 1)%Z).

(** Two answers of the model, of 49 and of 50 characters. *)
Definition text49 : string :=
  "Storm hits coast. Rain fell all night, then left.".
Definition text50 : string :=
  "Storm hits coast. Rain fell all night, then eased.".

Definition storm_crawl (content : string) : tally string * bool :=
  crawl_one storm_dom quiet (canned content) json_loads fromisoformat utcnow
    (serve storm_site) accept_all true (Tally 0 0 [])
    "http://s.com/2024/01/02/storm-hits-coast".

(** A site whose front page links to the storm article. *)
Definition front_page : string :=
  "<html><body><a href='/2024/01/02/storm-hits-coast'>Storm</a></body></html>".

Definition front_elements : document :=
  [ Element ["body"] "Storm"
      "<body><a href='/2024/01/02/storm-hits-coast'>Storm</a></body>" [];
    Element ["a"] "Storm" "<a href='/2024/01/02/storm-hits-coast'>Storm</a>"
      [("href", Some "/2024/01/02/storm-hits-coast")] ].

Definition news_dom : dom :=
  table_dom
    [ (front_page, front_elements);
      (storm_page,
       Element ["body"] "" ("<body>" ++ storm_article ++ "</body>") []
       :: storm_elements);
      (storm_article, storm_elements) ].

Definition news_site : list (string * string) :=
  [ ("http://s.com/", front_page);
    ("http://s.com/2024/01/02/storm-hits-coast", storm_page) ].

(** The loop over three article URLs, the second of which is not served. *)
Definition storm_visits (content : string) : tally string * bool :=
  crawl_loop storm_dom quiet (canned content) json_loads fromisoformat utcnow
    (serve storm_site) accept_all true
    ["http://s.com/2024/01/02/storm-hits-coast";
     "http://s.com/2024/01/03/not-there";
     "http://s.com/2024/01/02/storm-hits-coast"]
    (Tally 0 0 []).

End Sample.

(* ------------------------------------------------------------------ *)
(** ** The crawl of one site *)

Module Site.
Import Text Discovery Pipeline Metadata Orchestrator.

Section WithWorld.

Variable D : dom.
Variable urljoin : string -> string -> outcome string.
Variable urlparse : string -> outcome url_parts.
Variable set_order : list string -> list string.
(** [requests.get] of [discover_all_links] and of [crawl_article]. *)
Variable discovery_get : string -> response.
Variable article_get : string -> response.
Variable print : notice -> outcome unit.
Variable post_chat : prompt -> string -> reply.
Variable json_loads : string -> outcome json.
Variable datetime : Type.
Variable fromisoformat : string -> outcome datetime.
Variable utcnow : datetime.
Variable upsert_post : list (post datetime) -> post datetime -> outcome (option Z).

(** [a.attributes.get("href")] *)
Definition href_of (a : node D) : option string :=
  match attribute D a "href" with
  | Some (Some href) => Some href
  | _ => None
  end.

(** The anchors that [extract_article_links] reads off the parser. *)
Definition anchors_href (html : string) : outcome (list (option string)) :=
  t <- HTMLParser D html ;;
  anchors <- css D t "a" ;;
  Ok (map href_of anchors).

(** [crawl_site]: discovery with the budgets 500 and 10, then the loop over
    the article URLs.  The flag tells whether an exception left the
    function; [None] when [fuel] was not enough for discovery. *)
Definition crawl_site (fuel : nat) (site_url : string)
  : option (tally datetime * bool) :=
  match discover_all_links anchors_href urljoin urlparse set_order
          discovery_get fuel site_url 500 10 with
  | None => None
  | Some Raised => Some (Tally 0 0 [], true)
  | Some (Ok article_urls) =>
      Some (crawl_loop D print post_chat json_loads fromisoformat utcnow article_get
              upsert_post USE_LLM_CLEANING article_urls (Tally 0 0 []))
  end.

End WithWorld.

End Site.

(* ------------------------------------------------------------------ *)
(** ** Whitespace, said without patterns *)

Module TextSpec.
Import Text Re.

(** [s] with every run of whitespace replaced by one space; [in_run] tells
    whether the character before [s] was whitespace. *)
Fixpoint collapse_from (in_run : bool) (s : string) : string :=
  match s with
  | EmptyString => EmptyString
  | String a s' =>
      if isspace a then
        if in_run then collapse_from true s'
        else String " " (collapse_from true s')
      else String a (collapse_from false s')
  end.

Definition collapse (s : string) : string := collapse_from false s.

(** The number of whitespace characters [s] starts with. *)
Fixpoint leading_ws (s : string) : nat :=
  match s with
  | EmptyString => 0
  | String a s' => if isspace a then S (leading_ws s') else 0
  end.

(** Whether the only whitespace of [s] is single spaces; [after_ws] tells
    whether the character before [s] was whitespace. *)
Fixpoint single_spaced_from (after_ws : bool) (s : string) : bool :=
  match s with
  | EmptyString => true
  | String a s' =>
      if isspace a
      then Ascii.eqb a " "%char && negb after_ws && single_spaced_from true s'
      else single_spaced_from false s'
  end.

Definition single_spaced (s : string) : bool := single_spaced_from false s.

(** Whether [s] neither starts nor ends with whitespace. *)
Definition trimmed (s : string) : bool :=
  match s with
  | EmptyString => true
  | String a _ =>
      negb (isspace a)
      && match rev s with
         | EmptyString => true
         | String z _ => negb (isspace z)
         end
  end.

(** Whether every match of [r] has a newline in it. *)
Fixpoint needs_newline (r : regex) : bool :=
  match r with
  | Chr c => Ascii.eqb c newline
  | Cat r1 r2 => needs_newline r1 || needs_newline r2
  | Alt r1 r2 => needs_newline r1 && needs_newline r2
  | _ => false
  end.

(** What a match hands to its continuation [k] when it ends in [x]: the
    rest of the subject, after a consumed prefix that has a newline in it
    when [needs] is set. *)
Definition hands_over (needs : bool) (s : string) (k : cont) (x : string) : Prop :=
  exists consumed p' s',
    s = consumed ++ s' /\ k p' s' = Some x
    /\ (needs = true -> no_newline consumed = false).

End TextSpec.

(* ------------------------------------------------------------------ *)
(** ** Shapes of structured data *)

Module MetadataSpec.
Import Text Metadata.

(** A value that is neither an object nor a list. *)
Definition scalar (v : json) : bool :=
  match v with
  | JObj _ | JArr _ => false
  | _ => true
  end.

(** The name of an author object, when it has one that is a string. *)
Definition name_of (fields : list (string * json)) : list string :=
  match get_field "name" fields with
  | Some (JStr s) => [s]
  | _ => []
  end.

(** Whether the name of an author object, if it has one, is a string. *)
Definition name_is_text (fields : list (string * json)) : bool :=
  match get_field "name" fields with
  | Some (JStr _) | None => true
  | Some _ => false
  end.

End MetadataSpec.

(* ------------------------------------------------------------------ *)
(** ** What the frontier of discovery holds *)

Module FrontierSpec.
Import Text Discovery DiscoverySpec.

(** Everything queued, visited or collected is on the host [domain]. *)
Definition confined (urlparse : string -> outcome url_parts)
    (domain : string) (st : frontier) : Prop :=
  forall u,
    In u (queue st) \/ In u (visited st) \/ In u (article_urls st) ->
    has_host urlparse domain u.

(** The distinct elements of a list, in the order of their first
    occurrences. *)
Definition first_occurrences (l : list string) : list string :=
  fold_left (fun seen u => PySet.add u seen) l [].

(** The queue is what is left of the URLs appended to it once [popped] has
    been taken from its front, and the visited URLs are the popped ones. *)
Definition fifo (st : frontier) (popped : list string) : Prop :=
  enqueues (trace st) = (popped ++ queue st)%list
  /\ visited st = first_occurrences popped.

(** Whether [link] parses and is on the host [domain]. *)
Definition on_host (urlparse : string -> outcome url_parts)
    (domain link : string) : bool :=
  match urlparse link with
  | Ok p => (netloc p =? domain)%string
  | Raised => false
  end.

(** Whether the loop body appends [link] to the queue when [vis] is the
    visited set. *)
Definition appended (urlparse : string -> outcome url_parts)
    (domain : string) (vis : list string) (link : string) : bool :=
  on_host urlparse domain link && negb (hard_excluded link)
  && negb (PySet.mem link vis).

(** The number of times the log shows the loop body run on [link] while
    [link] is not visited; [vis] lists the URLs visited before [t]. *)
Fixpoint sightings (link : string) (vis : list string) (t : list event)
  : nat :=
  match t with
  | [] => 0
  | Visit u :: t' => sightings link (vis ++ [u]) t'
  | Enq _ :: t' => sightings link vis t'
  | Seen l :: t' =>
      (if (l =? link)%string && negb (PySet.mem link vis) then 1 else 0)
      + sightings link vis t'
  end.

End FrontierSpec.

(* ------------------------------------------------------------------ *)
(** ** URL patterns, said without patterns *)

Module PatternSpec.
Import Text.

(** The substrings that the literal hard-exclusion patterns look for. *)
Definition excluded_substrings : list string :=
  [ "?share="; "#respond"; "#comment"; "/author/" ].

(** The section names of the soft-exclusion patterns of the shape
    [name/?$]. *)
Definition section_names : list string :=
  [ "/category"; "/categories"; "/tag"; "/tags"; "/archive"; "/archives";
    "/hub"; "/all-articles"; "/news"; "/world-news"; "/politics";
    "/opinion"; "/sports"; "/tech"; "/business"; "/story" ].

End PatternSpec.

(* ------------------------------------------------------------------ *)
(** ** Facts about strings and patterns *)

Module TextFacts.
Import Text Re.

Lemma all_chars_app f s1 s2 :
  all_chars f (s1 ++ s2) = all_chars f s1 && all_chars f s2.
Proof.
  induction s1 as [| c s1 IH]; simpl; [reflexivity |].
  now rewrite IH, andb_assoc.
Qed.

Lemma all_chars_rev f s : all_chars f (rev s) = all_chars f s.
Proof.
  induction s as [| c s IH]; simpl; [reflexivity |].
  rewrite all_chars_app, IH. simpl. rewrite andb_true_r. apply andb_comm.
Qed.

Lemma all_chars_lstrip f s : all_chars f s = true -> all_chars f (lstrip s) = true.
Proof.
  induction s as [| c s IH]; simpl; [reflexivity |].
  intros [Hc Hs]%andb_prop. destruct (isspace c); [auto |].
  simpl. now rewrite Hc, Hs.
Qed.

Lemma all_chars_strip f s : all_chars f s = true -> all_chars f (strip s) = true.
Proof.
  intros H. unfold strip, rstrip.
  rewrite all_chars_rev. apply all_chars_lstrip.
  rewrite all_chars_rev. now apply all_chars_lstrip.
Qed.

Lemma all_chars_weaken (f g : ascii -> bool) s :
  (forall c, f c = true -> g c = true) ->
  all_chars f s = true -> all_chars g s = true.
Proof.
  intros Hfg. induction s as [| c s IH]; simpl; [reflexivity |].
  intros [Hc Hs]%andb_prop. now rewrite (Hfg c Hc), IH.
Qed.

(** A single line has no blank line in it. *)
Lemma no_newline_no_break s x y : no_newline s = true -> s <> x ++ nl ++ y.
Proof.
  intros H ->. unfold no_newline in H.
  rewrite all_chars_app in H. apply andb_prop in H as [_ H].
  change (false = true) in H. discriminate.
Qed.

Lemma exec_cls fl f prev s k :
  exec fl (Cls f) prev s k
  = match s with
    | String a s' => if f a then k (Some a) s' else None
    | EmptyString => None
    end.
Proof. reflexivity. Qed.

(** A greedy run of a character class always matches, and never gives
    back more than it was given. *)
Lemma rep_class_accept fl f n prev s :
  exists rest,
    rep_loop true (exec fl (Cls f)) accept n prev s = Some rest
    /\ String.length rest <= String.length s.
Proof.
  revert prev s. induction n as [| n IH]; intros prev s.
  - exists s. split; [reflexivity | lia].
  - cbn [rep_loop]. rewrite exec_cls. destruct s as [| b s2].
    + exists "". split; [reflexivity | lia].
    + destruct (f b).
      * replace (String.length s2 <? String.length (String b s2)) with true
          by (symmetry; apply Nat.ltb_lt; simpl; lia).
        destruct (IH (Some b) s2) as (rest & Hrest & Hlen).
        rewrite Hrest. exists rest. split; [reflexivity | simpl; lia].
      * exists (String b s2). split; [reflexivity | lia].
Qed.

(** What [\s+] does at one position. *)
Lemma match_spaces prev a s :
  if isspace a
  then exists rest, match_at no_flags (plus space) prev (String a s) = Some rest
                    /\ String.length rest <= String.length s
  else match_at no_flags (plus space) prev (String a s) = None.
Proof.
  unfold match_at, plus, space.
  change (exec no_flags (Cat (Cls isspace) (Rep true (Cls isspace))) prev
            (String a s) accept)
    with (if isspace a
          then rep_loop true (exec no_flags (Cls isspace)) accept
                 (String.length s) (Some a) s
          else None).
  destruct (isspace a); [| reflexivity].
  apply rep_class_accept.
Qed.

(** Replacing [\s+] by a space leaves no whitespace but spaces. *)
Lemma sub_spaces_chars skip prev s :
  all_chars (fun c => negb (isspace c) || Ascii.eqb c " "%char)
            (sub_from no_flags (plus space) " " skip prev s) = true.
Proof.
  revert skip prev. induction s as [| a s IH]; intros skip prev.
  - destruct skip; reflexivity.
  - destruct skip as [| n]; [| apply IH].
    cbn [sub_from]. pose proof (match_spaces prev a s) as Hm.
    destruct (isspace a) eqn:Ha.
    + destruct Hm as (rest & -> & Hlen).
      change (String.length (String a s)) with (S (String.length s)).
      rewrite Nat.sub_succ_l by exact Hlen.
      simpl. apply IH.
    + rewrite Hm. simpl. rewrite Ha. simpl. apply IH.
Qed.

(** A pattern that starts with a newline matches nowhere in a single
    line. *)
Lemma sub_single_line fl r repl prev s :
  no_newline s = true ->
  sub_from fl (Cat (Chr newline) r) repl 0 prev s = s.
Proof.
  unfold no_newline. revert prev. induction s as [| a s IH]; intros prev H.
  - reflexivity.
  - simpl in H. apply andb_prop in H as [Ha Hs].
    cbn [sub_from]. unfold match_at. cbn [exec].
    assert (Hc : chr_match fl newline a = false).
    { unfold chr_match. apply negb_true_iff in Ha.
      destruct (IGNORECASE fl).
      - destruct (Ascii.eqb_spec a newline) as [-> | Hne]; [discriminate |].
        apply Ascii.eqb_neq. clear -Hne. intros H. apply Hne.
        destruct a as [[] [] [] [] [] [] [] []]; vm_compute in H;
          try discriminate; reflexivity.
      - rewrite Ascii.eqb_sym. exact Ha. }
    rewrite Hc. f_equal. now apply IH.
Qed.

End TextFacts.

(* ------------------------------------------------------------------ *)
(** ** Facts about discovery *)

Module DiscoveryFacts.
Import Text Re Discovery DiscoverySpec.

Lemma mem_In x l : PySet.mem x l = true <-> In x l.
Proof.
  unfold PySet.mem. rewrite existsb_exists. split.
  - intros [y [Hy Heq]]. apply String.eqb_eq in Heq. now subst.
  - intros H. exists x. split; [assumption | apply String.eqb_refl].
Qed.

Lemma mem_false x l : PySet.mem x l = false <-> ~ In x l.
Proof.
  rewrite <- mem_In. destruct (PySet.mem x l); split; congruence.
Qed.

Lemma add_In x y l : In y (PySet.add x l) <-> y = x \/ In y l.
Proof.
  unfold PySet.add. destruct (PySet.mem x l) eqn:E.
  - apply mem_In in E. split; [tauto | intros [-> | H]; assumption].
  - rewrite in_app_iff. simpl. split; intros H; intuition congruence.
Qed.

Lemma NoDup_snoc (A : Type) (x : A) l : NoDup l -> ~ In x l -> NoDup (l ++ [x]).
Proof.
  intros Hl Hx. apply NoDup_app; try assumption.
  - constructor; [simpl; tauto | constructor].
  - intros a Ha [<- | []]. contradiction.
Qed.

Lemma add_NoDup x l : NoDup l -> NoDup (PySet.add x l).
Proof.
  intros H. unfold PySet.add. destruct (PySet.mem x l) eqn:E; [assumption |].
  apply NoDup_snoc; [assumption | now apply mem_false].
Qed.

Create HintDb pyset.
#[local] Hint Resolve add_NoDup NoDup_snoc : pyset.
#[local] Hint Constructors NoDup : pyset.

Lemma visits_app t1 t2 : visits (t1 ++ t2) = (visits t1 ++ visits t2)%list.
Proof.
  induction t1 as [| [u | u | l] t1 IH]; simpl; try assumption; [reflexivity |].
  now rewrite IH.
Qed.

Lemma visits_In u t : In u (visits t) <-> In (Visit u) t.
Proof.
  induction t as [| [v | v | l] t IH]; simpl.
  - tauto.
  - rewrite IH. split; [tauto | intros [H | H]; [discriminate | assumption]].
  - rewrite IH. split; intros [H | H]; try tauto; left; congruence.
  - rewrite IH. split; [tauto | intros [H | H]; [discriminate | assumption]].
Qed.

Lemma enqueues_In u t : In u (enqueues t) <-> In (Enq u) t.
Proof.
  induction t as [| [v | v | l] t IH]; simpl.
  - tauto.
  - rewrite IH. split; intros [H | H]; try tauto; left; congruence.
  - rewrite IH. split; [tauto | intros [H | H]; [discriminate | assumption]].
  - rewrite IH. split; [tauto | intros [H | H]; [discriminate | assumption]].
Qed.

Lemma order_app t1 t2 :
  no_enq_after_visit t1 -> no_enq_after_visit t2 ->
  (forall u, In (Visit u) t1 -> ~ In (Enq u) t2) ->
  no_enq_after_visit (t1 ++ t2).
Proof.
  induction t1 as [| [v | v | l] t1 IH]; simpl; intros H1 H2 H12.
  - assumption.
  - apply IH; auto.
  - destruct H1 as [Hv H1]. split.
    + rewrite in_app_iff. intros [H | H]; [contradiction |].
      apply (H12 v); auto.
    + apply IH; auto.
  - apply IH; auto.
Qed.

Lemma seen_enqueued_app vis t1 t2 :
  seen_enqueued vis t1 -> seen_enqueued (vis ++ visits t1) t2 ->
  seen_enqueued vis (t1 ++ t2).
Proof.
  revert vis. induction t1 as [| [v | v | l] t1 IH]; simpl; intros vis H1 H2.
  - now rewrite app_nil_r in H2.
  - auto.
  - apply IH; [assumption |]. now rewrite <- app_assoc.
  - destruct H1 as [Hnext H1]. split; [| auto].
    intros Hh Hv. destruct (Hnext Hh Hv) as [t'' ->]. simpl. eauto.
Qed.

Lemma seen_enqueued_body st link :
  seen_enqueued (visited st) (body_log st link).
Proof.
  unfold body_log. destruct (hard_excluded link) eqn:Hh.
  - simpl. split; [congruence | exact I].
  - destruct (PySet.mem link (visited st)) eqn:Hm; simpl.
    + apply mem_In in Hm. split; [tauto | exact I].
    + split; [eauto | exact I].
Qed.

Section WithWorld.

Variable anchors_href : string -> outcome (list (option string)).
Variable urljoin : string -> string -> outcome string.
Variable urlparse : string -> outcome url_parts.
Variable set_order : list string -> list string.
Variable http_get : string -> response.

Variable start_url domain : string.
Variable max_pages max_articles : Z.

Local Abbreviation process_link := (process_link urlparse domain max_articles).
Local Abbreviation for_links := (for_links urlparse domain max_articles).
Local Abbreviation visit :=
  (visit anchors_href urljoin urlparse set_order http_get domain max_articles).
Local Abbreviation discover_loop :=
  (fun fuel => discover_loop anchors_href urljoin urlparse set_order http_get
                 fuel domain max_pages max_articles).
Local Abbreviation invariant := (invariant start_url max_pages max_articles).

(** What one pass through the body of [for link in links] can do. *)
Lemma process_link_cases st link st' c :
  process_link st link = (st', c) ->
  visited st' = visited st
  /\ ((queue st' = queue st /\ trace st' = (trace st ++ [Seen link])%list)
      \/ (~ In link (visited st) /\ hard_excluded link = false
          /\ has_host urlparse domain link
          /\ queue st' = (queue st ++ [link])%list
          /\ trace st' = (trace st ++ [Seen link; Enq link])%list))
  /\ ((article_urls st' = article_urls st /\ c <> Break)
      \/ (hard_excluded link = false /\ is_section_page link = false
          /\ is_article link = true /\ ~ In link (article_urls st)
          /\ article_urls st' = (article_urls st ++ [link])%list
          /\ (c = Break <-> (max_articles <= len (article_urls st'))%Z)
          /\ c <> Throw)).
Proof.
  unfold Discovery.process_link. cbv zeta.
  destruct (urlparse link) as [p |] eqn:Hp.
  2:{ intros [= <- <-]. repeat split; auto; left; split; auto; discriminate. }
  destruct (netloc p =? domain)%string eqn:Hd; cbn [negb].
  2:{ intros [= <- <-]. repeat split; auto; left; split; auto; discriminate. }
  apply String.eqb_eq in Hd.
  destruct (hard_excluded link) eqn:Hh.
  { intros [= <- <-]. repeat split; auto; left; split; auto; discriminate. }
  set (st1 := if PySet.mem link (visited (see link st)) then see link st
              else enqueue link (see link st)).
  assert (H1 : visited st1 = visited st /\ article_urls st1 = article_urls st
               /\ ((queue st1 = queue st
                    /\ trace st1 = (trace st ++ [Seen link])%list)
                   \/ (~ In link (visited st) /\ false = false
                       /\ has_host urlparse domain link
                       /\ queue st1 = (queue st ++ [link])%list
                       /\ trace st1 = (trace st ++ [Seen link; Enq link])%list))).
  { subst st1. cbn [see visited]. destruct (PySet.mem link (visited st)) eqn:Hm.
    - auto.
    - apply mem_false in Hm. cbn [enqueue see visited queue trace article_urls].
      rewrite <- app_assoc. repeat split; auto. right. repeat split; auto.
      exists p. auto. }
  destruct H1 as (Hv & Ha & Hqueue).
  clearbody st1.
  intros Hstep.
  destruct (is_section_page link) eqn:Hs; cbn [negb] in Hstep.
  { injection Hstep as <- <-. repeat split; auto.
    left; split; auto; discriminate. }
  destruct (is_article link) eqn:Hart; cbn [andb] in Hstep.
  2:{ injection Hstep as <- <-. repeat split; auto.
      left; split; auto; discriminate. }
  destruct (PySet.mem link (article_urls st1)) eqn:Hm; cbn [negb] in Hstep.
  { injection Hstep as <- <-. repeat split; auto.
    left; split; auto; discriminate. }
  assert (Hadd : PySet.add link (article_urls st1)
                 = (article_urls st ++ [link])%list).
  { unfold PySet.add. rewrite Hm. now rewrite Ha. }
  apply mem_false in Hm. rewrite Ha in Hm.
  cbn [add_article article_urls] in Hstep. rewrite Hadd in Hstep.
  destruct (max_articles <=? len (article_urls st ++ [link]))%Z eqn:Hle;
    injection Hstep as <- <-; cbn [visited queue trace article_urls];
    (split; [assumption |]); (split; [assumption |]); right;
    repeat split; auto; try discriminate.
  - intros _. cbn [add_article article_urls]. rewrite Hadd. now apply Z.leb_le.
  - cbn [add_article article_urls]. rewrite Hadd. intros H.
    apply Z.leb_le in H. congruence.
Qed.

(** On a link of the crawl's host the body appends [body_log] to the
    log. *)
Lemma process_link_log st link :
  has_host urlparse domain link ->
  trace (fst (process_link st link)) = (trace st ++ body_log st link)%list.
Proof.
  intros (p & Hp & Hd). unfold Discovery.process_link, body_log. cbv zeta.
  rewrite Hp. apply String.eqb_eq in Hd. rewrite Hd. cbn [negb].
  destruct (hard_excluded link); [reflexivity |].
  cbn [see visited].
  destruct (PySet.mem link (visited st)) eqn:Hm.
  - destruct (negb (is_section_page link)); [| reflexivity].
    destruct (is_article link && negb (PySet.mem link (article_urls (see link st))));
      [| reflexivity].
    destruct (max_articles <=? _)%Z; reflexivity.
  - assert (Ht : trace (enqueue link (see link st))
                 = (trace st ++ [Seen link; Enq link])%list).
    { cbn [enqueue see trace]. now rewrite <- app_assoc. }
    destruct (negb (is_section_page link)); [| exact Ht].
    destruct (is_article link
              && negb (PySet.mem link (article_urls (enqueue link (see link st)))));
      [| exact Ht].
    destruct (max_articles <=? _)%Z; exact Ht.
Qed.

Lemma len_snoc (A : Type) (l : list A) (x : A) : len (l ++ [x]) = (len l + 1)%Z.
Proof. unfold len. rewrite length_app. simpl. lia. Qed.

(** The same, as the log sees it. *)
Lemma process_link_appends st link st' c :
  process_link st link = (st', c) ->
  exists extra,
    trace st' = (trace st ++ extra)%list
    /\ visits extra = []
    /\ no_enq_after_visit extra
    /\ (forall u, In (Enq u) extra ->
          ~ In u (visited st) /\ hard_excluded u = false)
    /\ (forall u, In u (queue st') <-> In u (queue st) \/ In (Enq u) extra).
Proof.
  intros Hstep. apply process_link_cases in Hstep.
  destruct Hstep as (_ & [[Hq Ht] | (Hnv & Hh & _ & Hq & Ht)] & _).
  - exists [Seen link]. rewrite Hq.
    split; [exact Ht |]. split; [reflexivity |]. split; [exact I |]. split.
    + intros u [[=] | []].
    + intros u. simpl. split; [auto |]. intros [H | [[=] | []]]. exact H.
  - exists [Seen link; Enq link]. rewrite Hq.
    split; [exact Ht |]. split; [reflexivity |]. split; [exact I |]. split.
    + intros u [[=] | [[= <-] | []]]. auto.
    + intros u. rewrite in_app_iff. simpl. split.
      * intros [H | [<- | []]]; auto.
      * intros [H | [[=] | [[= <-] | []]]]; auto.
Qed.

Lemma process_link_invariant st link st' c :
  invariant st -> (len (article_urls st) < max_articles)%Z ->
  process_link st link = (st', c) ->
  invariant st' /\ (c = Next -> (len (article_urls st') < max_articles)%Z).
Proof.
  intros [] Hlt Hstep.
  pose proof Hstep as Hcases. apply process_link_cases in Hcases.
  destruct Hcases as (Hv & _ & Ha).
  apply process_link_appends in Hstep.
  destruct Hstep as (extra & Ht & Hvis & Hord & Henq & Hq).
  assert (Hart : NoDup (article_urls st')
                 /\ (len (article_urls st') <= Z.max 0 max_articles)%Z
                 /\ (forall u, In u (article_urls st') ->
                       hard_excluded u = false /\ is_section_page u = false
                       /\ is_article u = true)
                 /\ (c = Next -> (len (article_urls st') < max_articles)%Z)).
  { destruct Ha as [[-> _] | (Hh & Hs & Hi & Hn & -> & Hb & Hthrow)].
    - auto.
    - split; [now apply NoDup_snoc |]. rewrite len_snoc in *.
      split; [lia |]. split.
      + intros u [Hu | [<- | []]]%in_app_iff; auto.
      + intros ->. destruct (Z.le_gt_cases max_articles (len (article_urls st) + 1)) as [Hle | Hgt];
          [| lia]. apply Hb in Hle. discriminate. }
  destruct Hart as (Ha1 & Ha2 & Ha3 & Ha4).
  split; [| assumption].
  constructor; rewrite ?Hv, ?Ht; auto.
  - now rewrite visits_app, Hvis, app_nil_r.
  - intros u [Hu | Hu]%Hq; apply in_app_iff; auto.
  - intros u Hu. apply in_app_iff. auto.
  - intros u [Hu | Hu]%in_app_iff; auto. right. now apply Henq.
  - apply order_app; auto. intros u Hu Hin.
    apply visits_In in Hu. rewrite inv_trace_visits0 in Hu.
    now apply Henq in Hin.
Qed.

Lemma process_link_visited st link :
  visited (fst (process_link st link)) = visited st.
Proof.
  destruct (process_link st link) as [st' c] eqn:E.
  apply process_link_cases in E. now destruct E as (Hv & _).
Qed.

Lemma for_links_visited links st :
  visited (fst (for_links links st)) = visited st.
Proof.
  revert st. induction links as [| link rest IH]; intros st; simpl.
  - reflexivity.
  - pose proof (process_link_visited st link) as Hv.
    destruct (process_link st link) as [st' []]; simpl in *; try assumption.
    now rewrite IH.
Qed.

Lemma for_links_invariant links st :
  invariant st -> (len (article_urls st) < max_articles)%Z ->
  invariant (fst (for_links links st)).
Proof.
  revert st. induction links as [| link rest IH]; intros st Hinv Hlt; simpl.
  - assumption.
  - destruct (process_link st link) as [st' c] eqn:E.
    destruct (@process_link_invariant st link st' c Hinv Hlt E) as [Hinv' Hnext].
    destruct c; simpl; auto.
Qed.

Lemma visit_visited url rest st :
  visited (visit url rest st) = (visited st ++ [url])%list.
Proof.
  unfold Discovery.visit. destruct (http_get url) as [| code html]; [reflexivity |].
  destruct (negb (code =? 200)%Z); [reflexivity |].
  destruct (extract_article_links _ _ _ _ html url); [| reflexivity].
  now rewrite for_links_visited.
Qed.

Lemma loop_test_true st :
  loop_test max_pages max_articles st = true ->
  queue st <> [] /\ (len (visited st) < max_pages)%Z
  /\ (len (article_urls st) < max_articles)%Z.
Proof.
  unfold loop_test. intros H.
  apply andb_prop in H as [H H3]. apply andb_prop in H as [H1 H2].
  apply Z.ltb_lt in H2, H3. split; [| auto].
  destruct (queue st); [discriminate | discriminate].
Qed.

Lemma mark_visited_invariant url rest st :
  invariant st -> loop_test max_pages max_articles st = true ->
  queue st = url :: rest -> ~ In url (visited st) ->
  invariant (Frontier (visited st ++ [url]) rest (article_urls st)
                      (trace st ++ [Visit url])).
Proof.
  intros Hinv Htest Hq Hnv.
  pose proof Htest as Htrue. apply loop_test_true in Htrue.
  destruct Htrue as (_ & Hp & Ha).
  destruct Hinv. constructor; simpl; auto.
  - now apply NoDup_snoc.
  - rewrite len_snoc. lia.
  - rewrite visits_app, inv_trace_visits0. reflexivity.
  - intros u Hu. apply in_app_iff. left. apply inv_queue_logged0.
    rewrite Hq. now right.
  - intros u [Hu | [<- | []]]%in_app_iff; apply in_app_iff; left; auto.
    apply inv_queue_logged0. rewrite Hq. now left.
  - intros u [Hu | [[=] | []]]%in_app_iff. auto.
  - apply order_app; simpl; auto. intros u _ [[=] | []].
Qed.

Lemma visit_invariant url rest st :
  invariant st -> loop_test max_pages max_articles st = true ->
  queue st = url :: rest -> ~ In url (visited st) ->
  invariant (visit url rest st).
Proof.
  intros Hinv Htest Hq Hnv.
  pose proof (mark_visited_invariant Hinv Htest Hq Hnv) as H1.
  pose proof Htest as Htrue. apply loop_test_true in Htrue.
  destruct Htrue as (_ & _ & Ha).
  unfold Discovery.visit. destruct (http_get url) as [| code html]; [assumption |].
  destruct (negb (code =? 200)%Z); [assumption |].
  destruct (extract_article_links _ _ _ _ html url); [| assumption].
  apply for_links_invariant; assumption.
Qed.

Lemma skip_invariant url rest st :
  invariant st -> queue st = url :: rest ->
  invariant (Frontier (visited st) rest (article_urls st) (trace st)).
Proof.
  intros [] Hq. constructor; simpl; auto.
  intros u Hu. apply inv_queue_logged0. rewrite Hq. now right.
Qed.

Lemma discover_loop_invariant fuel st st' :
  invariant st -> discover_loop fuel st = Some st' -> invariant st'.
Proof.
  revert st. induction fuel as [| fuel IH]; intros st Hinv; simpl;
    destruct (loop_test max_pages max_articles st) eqn:Htest;
    try discriminate; try (intros [= <-]; assumption).
  destruct (queue st) as [| url rest] eqn:Hq; [intros [= <-]; assumption |].
  destruct (PySet.mem url (visited st)) eqn:Hm.
  - apply IH. eapply skip_invariant; eauto.
  - apply IH. apply visit_invariant; auto. now apply mem_false.
Qed.

Lemma discover_loop_exit fuel st st' :
  discover_loop fuel st = Some st' ->
  loop_test max_pages max_articles st' = false.
Proof.
  revert st. induction fuel as [| fuel IH]; intros st; simpl;
    destruct (loop_test max_pages max_articles st) eqn:Htest;
    try discriminate; try (intros [= <-]; assumption).
  destruct (queue st) as [| url rest] eqn:Hq.
  - apply loop_test_true in Htest. tauto.
  - destruct (PySet.mem url (visited st)); apply IH.
Qed.

Lemma discover_loop_more_fuel fuel st st' :
  discover_loop fuel st = Some st' ->
  forall fuel', fuel <= fuel' -> discover_loop fuel' st = Some st'.
Proof.
  revert st. induction fuel as [| fuel IH]; intros st Hrun fuel' Hle.
  - simpl in Hrun. destruct fuel'; simpl;
      destruct (loop_test max_pages max_articles st); congruence.
  - destruct fuel' as [| fuel']; [lia |]. simpl in *.
    destruct (loop_test max_pages max_articles st); [| assumption].
    destruct (queue st) as [| url rest]; [assumption |].
    destruct (PySet.mem url (visited st)); apply IH; auto; lia.
Qed.

(** The loop ends: a visit uses up page budget, a skip shortens the queue. *)
Lemma discover_loop_terminates st :
  exists fuel st', discover_loop fuel st = Some st'.
Proof.
  remember (Z.to_nat (max_pages - len (visited st))) as n eqn:Hn.
  assert (Hle : Z.to_nat (max_pages - len (visited st)) <= n) by lia.
  clear Hn. revert st Hle.
  induction n as [| n IHn]; intros st;
    (remember (queue st) as q eqn:Hq; revert st Hq;
     induction q as [| url rest IHq]; intros st Hq Hle;
     [ exists 0, st; simpl; unfold loop_test; rewrite <- Hq; reflexivity |]).
  - destruct (loop_test max_pages max_articles st) eqn:Htest.
    + pose proof Htest as Htrue. apply loop_test_true in Htrue.
      destruct Htrue as (_ & Hp & _).
      destruct (PySet.mem url (visited st)) eqn:Hm; [| lia].
      destruct (IHq (Frontier (visited st) rest (article_urls st) (trace st))
                  eq_refl Hle) as (fuel & st' & Hrun).
      exists (S fuel), st'. simpl. now rewrite Htest, <- Hq, Hm.
    + exists 0, st. simpl. now rewrite Htest.
  - destruct (loop_test max_pages max_articles st) eqn:Htest.
    + pose proof Htest as Htrue. apply loop_test_true in Htrue.
      destruct Htrue as (_ & Hp & _).
      destruct (PySet.mem url (visited st)) eqn:Hm.
      * destruct (IHq (Frontier (visited st) rest (article_urls st) (trace st))
                    eq_refl Hle) as (fuel & st' & Hrun).
        exists (S fuel), st'. simpl. now rewrite Htest, <- Hq, Hm.
      * destruct (IHn (visit url rest st)) as (fuel & st' & Hrun).
        { rewrite visit_visited, len_snoc. lia. }
        exists (S fuel), st'. simpl. now rewrite Htest, <- Hq, Hm.
    + exists 0, st. simpl. now rewrite Htest.
Qed.

Lemma initial_invariant : invariant (initial start_url).
Proof.
  constructor; simpl.
  - constructor.
  - unfold len. simpl. lia.
  - constructor.
  - unfold len. simpl. lia.
  - intros u [].
  - reflexivity.
  - intros u [<- | []]. now left.
  - intros u [].
  - intros u [[= <-] | []]. now left.
  - exact I.
Qed.

End WithWorld.


(** *** Link extraction *)

Lemma prefix_lower x s : prefix x s = true -> prefix (lower x) (lower s) = true.
Proof.
  revert s. induction x as [| c x IH]; intros s; simpl.
  - destruct s; reflexivity.
  - destruct s as [| a s]; simpl; [discriminate |].
    destruct (ascii_dec c a) as [-> | Hne]; [| intros H; discriminate].
    destruct (ascii_dec (lower_char a) (lower_char a)); [apply IH | congruence].
Qed.

Lemma contains_unfold x s :
  contains x s
  = if prefix x s then true
    else match s with
         | EmptyString => false
         | String _ s' => contains x s'
         end.
Proof. destruct s; reflexivity. Qed.

Lemma contains_lower x s :
  contains x s = true -> contains (lower x) (lower s) = true.
Proof.
  induction s as [| a s IH]; rewrite (contains_unfold x), (contains_unfold (lower x));
    destruct (prefix x _) eqn:E.
  - intros _. apply prefix_lower in E. now rewrite E.
  - discriminate.
  - intros _. apply prefix_lower in E. now rewrite E.
  - intros H. simpl lower. destruct (prefix (lower x) _); [reflexivity | auto].
Qed.

Lemma denylist_lowercase x : In x link_denylist -> lower x = x.
Proof.
  unfold link_denylist. simpl. intros H.
  repeat (destruct H as [<- | H]; [reflexivity |]). destruct H.
Qed.

Section Links.

Variable anchors_href : string -> outcome (list (option string)).
Variable urljoin : string -> string -> outcome string.
Variable urlparse : string -> outcome url_parts.
Variable set_order : list string -> list string.

Local Abbreviation kept_link := (kept_link urljoin urlparse).

Lemma kept_link_more base_url h hrefs url :
  kept_link base_url hrefs url -> kept_link base_url (h :: hrefs) url.
Proof.
  intros ((href & Hin & Hne & Hj) & Hhost & Hdeny).
  split; [| auto]. exists href. simpl. auto.
Qed.

Lemma collect_links_spec base_url hrefs links res :
  collect_links urljoin urlparse base_url hrefs links = Ok res ->
  (NoDup links -> NoDup res)
  /\ forall u, In u res -> In u links \/ kept_link base_url hrefs u.
Proof.
  revert links. induction hrefs as [| h rest IH]; intros links; cbn [collect_links].
  - intros [= <-]. auto.
  - assert (Hskip : collect_links urljoin urlparse base_url rest links = Ok res ->
              (NoDup links -> NoDup res)
              /\ forall u, In u res ->
                   In u links \/ kept_link base_url (h :: rest) u).
    { intros H. destruct (IH _ H) as [Hnd Hin]. split; [assumption |].
      intros u Hu. destruct (Hin u Hu); [now left | right].
      now apply kept_link_more. }
    destruct h as [href |]; [| exact Hskip].
    destruct (nonempty href) eqn:Hne; cbn [negb]; [| exact Hskip].
    destruct (urljoin base_url href) as [url |] eqn:Hj; cbn [bind]; [| discriminate].
    destruct (existsb (fun x => contains x (lower url)) link_denylist) eqn:Hdeny;
      [exact Hskip |].
    destruct (urlparse url) as [pu |] eqn:Hpu; cbn [bind]; [| discriminate].
    destruct (urlparse base_url) as [pb |] eqn:Hpb; cbn [bind]; [| discriminate].
    destruct (netloc pu =? netloc pb)%string eqn:Hhost; [| exact Hskip].
    intros H. destruct (IH _ H) as [Hnd Hin]. split.
    + auto with pyset.
    + intros u Hu. destruct (Hin u Hu) as [Hu' | Hu'].
      * apply add_In in Hu' as [-> | Hu']; [right | now left].
        split; [| split].
        -- exists href. simpl. repeat split; auto.
           intros ->. discriminate.
        -- exists pu, pb. apply String.eqb_eq in Hhost. auto.
        -- intros x Hx. destruct (contains x (lower url)) eqn:Hc; [| reflexivity].
           assert (existsb (fun x => contains x (lower url)) link_denylist = true)
             by (apply existsb_exists; eauto).
           congruence.
      * right. now apply kept_link_more.
Qed.

End Links.

(** *** Hosts *)

Section Hosts.

Variable anchors_href : string -> outcome (list (option string)).
Variable urljoin : string -> string -> outcome string.
Variable urlparse : string -> outcome url_parts.
Variable set_order : list string -> list string.
Variable http_get : string -> response.

(** [list(s)] lists elements of [s] only. *)
Hypothesis set_order_keeps : forall l x, In x (set_order l) -> In x l.

Variable start_url domain : string.
Variable max_pages max_articles : Z.

Local Abbreviation process_link := (process_link urlparse domain max_articles).
Local Abbreviation for_links := (for_links urlparse domain max_articles).
Local Abbreviation visit :=
  (visit anchors_href urljoin urlparse set_order http_get domain max_articles).
Local Abbreviation discover_loop :=
  (fun fuel => discover_loop anchors_href urljoin urlparse set_order http_get
                 fuel domain max_pages max_articles).
Local Abbreviation invariant := (invariant start_url max_pages max_articles).
Local Abbreviation host_invariant := (host_invariant urlparse domain).
Local Abbreviation has_host := (has_host urlparse domain).

(** The links of a page have the host of the page. *)
Lemma extracted_links_host html url links :
  has_host url ->
  extract_article_links anchors_href urljoin urlparse set_order html url
  = Ok links ->
  forall link, In link links -> has_host link.
Proof.
  intros (p & Hp & Hd). unfold extract_article_links.
  destruct (anchors_href html) as [hrefs |]; cbn [bind]; [| discriminate].
  destruct (collect_links urljoin urlparse url hrefs []) as [found |] eqn:Hc;
    cbn [bind]; [| discriminate].
  intros [= <-] link Hin. apply set_order_keeps in Hin.
  apply collect_links_spec in Hc as [_ Hkept].
  destruct (Hkept link Hin) as [[] | (_ & (pu & pb & Hpu & Hpb & Heq) & _)].
  exists pu. split; [assumption | congruence].
Qed.

Lemma process_link_host st link :
  has_host link -> invariant st -> host_invariant st ->
  host_invariant (fst (process_link st link)).
Proof.
  intros Hhost Hinv [Hq Hs He].
  destruct (process_link st link) as [st' c] eqn:Hstep.
  pose proof (@process_link_log urlparse domain max_articles st link Hhost)
    as Hlog.
  rewrite Hstep in Hlog. cbn [fst] in *.
  apply process_link_cases in Hstep.
  destruct Hstep as (_ & Hqueue & _).
  constructor.
  - destruct Hqueue as [[-> _] | (_ & _ & _ & -> & _)]; [assumption |].
    intros u [Hu | [<- | []]]%in_app_iff; auto.
  - rewrite Hlog. intros l [Hl | Hl]%in_app_iff; [auto |].
    unfold body_log in Hl.
    destruct (hard_excluded link); [| destruct (PySet.mem link (visited st))];
      simpl in Hl; intuition congruence.
  - rewrite Hlog. apply seen_enqueued_app; [assumption |].
    cbn [app]. rewrite (inv_trace_visits Hinv). apply seen_enqueued_body.
Qed.

Lemma for_links_host links st :
  (forall link, In link links -> has_host link) ->
  invariant st -> (len (article_urls st) < max_articles)%Z ->
  host_invariant st -> host_invariant (fst (for_links links st)).
Proof.
  revert st. induction links as [| link rest IH]; intros st Hall Hinv Hlt Hhost;
    cbn [Discovery.for_links].
  - assumption.
  - pose proof (@process_link_host st link (Hall link (or_introl eq_refl))
                  Hinv Hhost) as Hhost'.
    destruct (process_link st link) as [st' c] eqn:E.
    destruct (@process_link_invariant urlparse start_url domain max_pages
                max_articles st link st' c Hinv Hlt E) as [Hinv' Hnext].
    cbn [fst] in Hhost'.
    destruct c; cbn [fst]; auto.
    apply IH; auto. intros l Hl. apply Hall. now right.
Qed.

Lemma visit_host url rest st :
  invariant st -> loop_test max_pages max_articles st = true ->
  queue st = url :: rest -> ~ In url (visited st) ->
  host_invariant st -> host_invariant (visit url rest st).
Proof.
  intros Hinv Htest Hq Hnv [Hqh Hsh Hse].
  pose proof Htest as Htrue. apply loop_test_true in Htrue.
  destruct Htrue as (_ & _ & Ha).
  assert (Hurl : has_host url) by (apply Hqh; rewrite Hq; now left).
  set (st1 := Frontier (visited st ++ [url]) rest (article_urls st)
                       (trace st ++ [Visit url])).
  assert (Hinv1 : invariant st1)
    by (apply mark_visited_invariant; assumption).
  assert (H1 : host_invariant st1).
  { constructor; cbn [queue trace st1].
    - intros u Hu. apply Hqh. rewrite Hq. now right.
    - intros l [Hl | [[=] | []]]%in_app_iff. auto.
    - apply seen_enqueued_app; [assumption | exact I]. }
  unfold Discovery.visit. fold st1.
  destruct (http_get url) as [| code html]; [assumption |].
  destruct (negb (code =? 200)%Z); [assumption |].
  destruct (extract_article_links _ _ _ _ html url) as [links |] eqn:Hx;
    [| assumption].
  apply for_links_host; auto.
  eapply extracted_links_host; eassumption.
Qed.

Lemma discover_loop_host fuel st st' :
  invariant st -> host_invariant st ->
  discover_loop fuel st = Some st' -> host_invariant st'.
Proof.
  revert st. induction fuel as [| fuel IH]; intros st Hinv Hhost;
    cbn [Discovery.discover_loop];
    destruct (loop_test max_pages max_articles st) eqn:Htest;
    try discriminate; try (intros [= <-]; assumption).
  destruct (queue st) as [| url rest] eqn:Hq; [intros [= <-]; assumption |].
  destruct (PySet.mem url (visited st)) eqn:Hm.
  - apply IH.
    + eapply skip_invariant; eauto.
    + destruct Hhost as [Hqh Hsh Hse]. constructor; cbn [queue trace]; auto.
      intros u Hu. apply Hqh. rewrite Hq. now right.
  - apply mem_false in Hm. apply IH.
    + apply visit_invariant; auto.
    + apply visit_host; auto.
Qed.

(** After a link that matches no hard-exclusion pattern and was not
    visited before, the log goes on with its append to the queue. *)
Lemma seen_enqueued_next vis pre link post :
  seen_enqueued vis (pre ++ Seen link :: post) ->
  hard_excluded link = false -> ~ In link (vis ++ visits pre) ->
  exists post', post = Enq link :: post'.
Proof.
  revert vis. induction pre as [| [u | u | l] pre IH]; simpl; intros vis H Hh Hv.
  - rewrite app_nil_r in Hv. destruct H as [H _]. auto.
  - eauto.
  - apply (IH (vis ++ [u])%list); auto. now rewrite <- app_assoc.
  - destruct H as [_ H]. eauto.
Qed.

End Hosts.


(** *** The run as a whole *)

Section Runs.

Variable anchors_href : string -> outcome (list (option string)).
Variable urljoin : string -> string -> outcome string.
Variable urlparse : string -> outcome url_parts.
Variable set_order : list string -> list string.
Variable http_get : string -> response.

Local Abbreviation discover_run :=
  (discover_run anchors_href urljoin urlparse set_order http_get).
Local Abbreviation discover_all_links :=
  (discover_all_links anchors_href urljoin urlparse set_order http_get).

(** Every run ends, with the loop invariant and a failed loop test; the only
    exception that leaves [discover_all_links] is the one of
    [urlparse(start_url)]. *)
Lemma discover_run_total start_url max_pages max_articles :
  exists fuel, forall fuel', fuel <= fuel' ->
    match discover_run fuel' start_url max_pages max_articles with
    | Some (Ok st) =>
        invariant start_url max_pages max_articles st
        /\ loop_test max_pages max_articles st = false
    | Some Raised => urlparse start_url = Raised
    | None => False
    end.
Proof.
  unfold Discovery.discover_run.
  destruct (urlparse start_url) as [p |]; [| exists 0; reflexivity].
  destruct (discover_loop_terminates anchors_href urljoin urlparse set_order
              http_get (netloc p) max_pages max_articles (initial start_url))
    as (fuel & st & Hrun).
  exists fuel. intros fuel' Hle.
  rewrite (discover_loop_more_fuel _ _ _ _ _ _ _ _ _ Hrun Hle).
  split.
  - eapply discover_loop_invariant; [apply initial_invariant | exact Hrun].
  - eapply discover_loop_exit. exact Hrun.
Qed.

(** When [list(s)] lists elements of [s] only, a finished run has kept to
    the host of the start URL. *)
Lemma discover_run_hosts fuel start_url max_pages max_articles st :
  (forall l x, In x (set_order l) -> In x l) ->
  discover_run fuel start_url max_pages max_articles = Some (Ok st) ->
  exists p, urlparse start_url = Ok p
            /\ host_invariant urlparse (netloc p) st.
Proof.
  intros Hkeeps. unfold Discovery.discover_run.
  destruct (urlparse start_url) as [p |] eqn:Hp; [| discriminate].
  destruct (Discovery.discover_loop _ _ _ _ _ fuel (netloc p) max_pages
              max_articles (initial start_url)) as [st0 |] eqn:Hrun;
    [| discriminate].
  intros [= <-]. exists p. split; [reflexivity |].
  eapply discover_loop_host; [exact Hkeeps | | | exact Hrun].
  - apply initial_invariant.
  - constructor; cbn [initial queue trace].
    + intros u [<- | []]. exists p. auto.
    + intros l [[=] | []].
    + exact I.
Qed.

Lemma slice_to_length (A : Type) (l : list A) (stop : Z) :
  (0 <= stop)%Z -> (len (slice_to l stop) <= stop)%Z.
Proof.
  intros H. unfold slice_to, len.
  destruct (0 <=? stop)%Z eqn:E; [| apply Z.leb_gt in E; lia].
  rewrite length_firstn. lia.
Qed.

Lemma slice_to_all (A : Type) (l : list A) (stop : Z) :
  (len l <= Z.max 0 stop)%Z -> slice_to l stop = l.
Proof.
  unfold slice_to, len. intros H.
  destruct (0 <=? stop)%Z eqn:E.
  - apply firstn_all2. lia.
  - apply Z.leb_gt in E. destruct l; [reflexivity | simpl in H; lia].
Qed.


(** Every claim about a whole run starts from the end of the run: the final
    state [st] with what [discover_run_total] says of it as [H]. *)
Ltac finished_run start_url max_pages max_articles st H :=
  let fuel := fresh "fuel" in
  let fuel' := fresh "fuel'" in
  let Hle := fresh "Hle" in
  destruct (discover_run_total start_url max_pages max_articles) as [fuel H];
  exists fuel; intros fuel' Hle; specialize (H fuel' Hle);
  unfold Discovery.discover_all_links;
  destruct (discover_run fuel' start_url max_pages max_articles)
    as [[st |] |]; [| auto | assumption].

(** C1: for every start URL and all non-negative budgets, discovery ends,
    the URLs it added to [visited] are distinct and at most [max_pages],
    and the list it returns has at most [max_articles] elements.  No list
    is returned only when [urlparse(start_url)] raises, before anything is
    visited. *)
Theorem discovery_respects_budgets start_url max_pages max_articles :
  (0 <= max_pages)%Z -> (0 <= max_articles)%Z ->
  exists fuel, forall fuel', fuel <= fuel' ->
    match discover_run fuel' start_url max_pages max_articles with
    | Some (Ok st) =>
        NoDup (visited st) /\ (len (visited st) <= max_pages)%Z
        /\ discover_all_links fuel' start_url max_pages max_articles
           = Some (Ok (returned set_order max_articles st))
        /\ (len (returned set_order max_articles st) <= max_articles)%Z
    | Some Raised =>
        urlparse start_url = Raised
        /\ discover_all_links fuel' start_url max_pages max_articles
           = Some Raised
    | None => False
    end.
Proof.
  intros Hp Ha.
  finished_run start_url max_pages max_articles st H.
  destruct H as [[] _]. repeat split; auto.
  - lia.
  - now apply slice_to_length.
Qed.

(** C3, as amended: discovery returns the whole accumulator, every collected
    URL once (the truncation to the budget removes nothing), in the
    iteration order of the set. *)
Theorem discovery_returns_accumulator start_url max_pages max_articles :
  (forall l, NoDup l -> Permutation (set_order l) l) ->
  exists fuel, forall fuel', fuel <= fuel' ->
    match discover_run fuel' start_url max_pages max_articles with
    | Some (Ok st) =>
        discover_all_links fuel' start_url max_pages max_articles
        = Some (Ok (set_order (article_urls st)))
        /\ NoDup (set_order (article_urls st))
        /\ Permutation (set_order (article_urls st)) (article_urls st)
    | Some Raised =>
        urlparse start_url = Raised
        /\ discover_all_links fuel' start_url max_pages max_articles
           = Some Raised
    | None => False
    end.
Proof.
  intros Hperm.
  finished_run start_url max_pages max_articles st H.
  destruct H as [[] _].
  pose proof (Hperm _ inv_articles_nodup0) as Hp.
  split; [| split; [| assumption]].
  - unfold returned. rewrite slice_to_all; [reflexivity |].
    unfold len in *. rewrite (Permutation_length Hp). assumption.
  - eapply Permutation_NoDup; [apply Permutation_sym; exact Hp | assumption].
Qed.


(** C10: the links extracted from a fetched page are distinct; each has a
    scheme and the host of the page, and none contains a denylisted
    substring. *)
Theorem extracted_links_same_host_filtered_distinct html base_url pb res :
  (forall l, NoDup l -> Permutation (set_order l) l) ->
  urlparse base_url = Ok pb -> netloc pb <> "" ->
  (forall href u pu,
     urljoin base_url href = Ok u -> urlparse u = Ok pu -> scheme pu <> "") ->
  extract_article_links anchors_href urljoin urlparse set_order html base_url
  = Ok res ->
  NoDup res
  /\ forall u, In u res ->
       (exists pu, urlparse u = Ok pu /\ scheme pu <> "" /\ netloc pu <> ""
                   /\ netloc pu = netloc pb)
       /\ (forall x, In x link_denylist ->
             contains x u = false /\ contains x (lower u) = false).
Proof.
  intros Hperm Hpb Hhost Hjoin. unfold extract_article_links.
  destruct (anchors_href html) as [hrefs |]; cbn [bind]; [| discriminate].
  destruct (collect_links urljoin urlparse base_url hrefs []) as [links |] eqn:Hc;
    cbn [bind]; [| discriminate].
  intros [= <-]. apply collect_links_spec in Hc as [Hnd Hin].
  specialize (Hnd (NoDup_nil _)). pose proof (Hperm _ Hnd) as Hp. split.
  - eapply Permutation_NoDup; [apply Permutation_sym; exact Hp | assumption].
  - intros u Hu. apply (Permutation_in _ Hp) in Hu.
    destruct (Hin u Hu) as [[] | ((href & _ & _ & Hj) & (pu & pb' & Hpu & Hpb' & Heq) & Hdeny)].
    assert (pb' = pb) by congruence. subst pb'. split.
    + exists pu. repeat split; eauto. congruence.
    + intros x Hx. split; [| auto].
      destruct (contains x u) eqn:E; [| reflexivity].
      apply contains_lower in E. rewrite (denylist_lowercase Hx) in E.
      rewrite (Hdeny x Hx) in E. discriminate.
Qed.

End Runs.

(** *** The sample site *)

Import Sample.

Lemma discovery_respects_budgets_witness :
  (0 <= 500)%Z /\ (0 <= 10)%Z
  /\ exists fuel, forall fuel', fuel <= fuel' ->
       match crawl reversed blog fuel' "http://s.com/" 500 10 with
       | Some (Ok st) =>
           NoDup (visited st) /\ (len (visited st) <= 500)%Z
           /\ crawl_result reversed blog fuel' "http://s.com/" 500 10
              = Some (Ok (returned reversed 10 st))
           /\ (len (returned reversed 10 st) <= 10)%Z
       | Some Raised =>
           Sample.urlparse "http://s.com/" = Raised
           /\ crawl_result reversed blog fuel' "http://s.com/" 500 10
              = Some Raised
       | None => False
       end.
Proof.
  split; [lia | split; [lia |]].
  apply (discovery_respects_budgets Sample.anchors_href Sample.urljoin
           Sample.urlparse reversed (serve blog) "http://s.com/");
    lia.
Defined.

(** C3 fails as stated: with a set that iterates in the reverse of the
    insertion order, the sample site's articles are discovered first-post,
    second-post and returned second-post, first-post. *)
Lemma discovery_order_lost :
  on_final article_urls (crawl reversed blog 20 "http://s.com/" 500 10)
  = Some ["http://s.com/2024/01/02/first-post";
          "http://s.com/2024/01/03/second-post"]
  /\ crawl_result reversed blog 20 "http://s.com/" 500 10
     = Some (Ok ["http://s.com/2024/01/03/second-post";
                 "http://s.com/2024/01/02/first-post"])
  /\ crawl_result reversed blog 20 "http://s.com/" 500 10
     <> Some (Ok (slice_to ["http://s.com/2024/01/02/first-post";
                            "http://s.com/2024/01/03/second-post"] 10)).
Proof.
  split; [| split]; try (vm_compute; reflexivity).
  vm_compute. discriminate.
Qed.

Lemma discovery_returns_accumulator_witness :
  (forall l, NoDup l -> Permutation (reversed l) l)
  /\ exists fuel, forall fuel', fuel <= fuel' ->
       match crawl reversed blog fuel' "http://s.com/" 500 10 with
       | Some (Ok st) =>
           crawl_result reversed blog fuel' "http://s.com/" 500 10
           = Some (Ok (reversed (article_urls st)))
           /\ NoDup (reversed (article_urls st))
           /\ Permutation (reversed (article_urls st)) (article_urls st)
       | Some Raised =>
           Sample.urlparse "http://s.com/" = Raised
           /\ crawl_result reversed blog fuel' "http://s.com/" 500 10
              = Some Raised
       | None => False
       end.
Proof.
  assert (H : forall l, NoDup l -> Permutation (reversed l) l)
    by (intros l _; apply Permutation_sym, Permutation_rev).
  split; [exact H |].
  apply (discovery_returns_accumulator Sample.anchors_href Sample.urljoin
           Sample.urlparse reversed (serve blog) "http://s.com/" 500 10 H).
Defined.

(** C4 fails as stated: the article that the front page and the section page
    both link to is appended to the queue twice. *)
Lemma url_enqueued_twice :
  on_final (fun st => enqueues (trace st))
    (crawl as_inserted blog 20 "http://s.com/" 500 10)
  = Some ["http://s.com/"; "http://s.com/news";
          "http://s.com/2024/01/02/first-post";
          "http://s.com/2024/01/02/first-post";
          "http://s.com/2024/01/03/second-post"]
  /\ count_occ string_dec
       ["http://s.com/"; "http://s.com/news";
        "http://s.com/2024/01/02/first-post";
        "http://s.com/2024/01/02/first-post";
        "http://s.com/2024/01/03/second-post"]
       "http://s.com/2024/01/02/first-post" = 2.
Proof. split; vm_compute; reflexivity. Qed.

(** C5 fails as stated: an author page given as the start URL links to
    itself; the link matches a hard-exclusion pattern and the loop body is
    run on it, and the URL was enqueued, added to [visited] and
    requested. *)
Lemma hard_excluded_start_url_visited :
  extract_article_links Sample.anchors_href Sample.urljoin Sample.urlparse
    as_inserted
    "http://s.com/author/bob http://s.com/2024/01/02/first-post"
    "http://s.com/author/bob"
  = Ok ["http://s.com/author/bob"; "http://s.com/2024/01/02/first-post"]
  /\ hard_excluded "http://s.com/author/bob" = true
  /\ on_final visited
       (crawl as_inserted author_site 20 "http://s.com/author/bob" 500 10)
     = Some ["http://s.com/author/bob"; "http://s.com/2024/01/02/first-post"]
  /\ on_final trace
       (crawl as_inserted author_site 20 "http://s.com/author/bob" 500 10)
     = Some [Enq "http://s.com/author/bob"; Visit "http://s.com/author/bob";
             Seen "http://s.com/author/bob";
             Seen "http://s.com/2024/01/02/first-post";
             Enq "http://s.com/2024/01/02/first-post";
             Visit "http://s.com/2024/01/02/first-post"].
Proof. repeat split; vm_compute; reflexivity. Qed.


Lemma sample_urljoin_has_scheme href u pu :
  Sample.urljoin "http://s.com/" href = Ok u -> Sample.urlparse u = Ok pu ->
  scheme pu <> "".
Proof.
  unfold Sample.urljoin.
  assert (Hrel : forall tail, Sample.urlparse ("http://s.com" ++ tail) = Ok pu ->
                 scheme pu <> "").
  { intros tail. unfold Sample.urlparse. cbn. intros [= <-]. discriminate. }
  destruct (split_scheme href) as [[[| c sc] r] |] eqn:Hs.
  - cbn. destruct (prefix "/" href); intros [= <-]; apply Hrel.
  - intros [= <-]. unfold Sample.urlparse. rewrite Hs. intros [= <-]. discriminate.
  - cbn. destruct (prefix "/" href); intros [= <-]; apply Hrel.
Qed.

Lemma extracted_links_same_host_filtered_distinct_witness :
  NoDup ["http://s.com/news"; "http://s.com/2024/01/02/first-post";
         "http://s.com/page/2"]
  /\ forall u,
       In u ["http://s.com/news"; "http://s.com/2024/01/02/first-post";
             "http://s.com/page/2"] ->
       (exists pu, Sample.urlparse u = Ok pu /\ scheme pu <> ""
                   /\ netloc pu <> "" /\ netloc pu = "s.com")
       /\ (forall x, In x link_denylist ->
             contains x u = false /\ contains x (lower u) = false).
Proof.
  apply (@extracted_links_same_host_filtered_distinct Sample.anchors_href
           Sample.urljoin Sample.urlparse as_inserted
           "http://s.com/news /about-us login.html http://other.com/2024/01/02/x http://s.com/2024/01/02/first-post http://s.com/page/2 http://s.com/news"
           "http://s.com/" (UrlParts "http" "s.com")).
  - intros l _. apply Permutation_refl.
  - reflexivity.
  - discriminate.
  - apply sample_urljoin_has_scheme.
  - vm_compute. reflexivity.
Defined.

End DiscoveryFacts.

(* ------------------------------------------------------------------ *)
(** ** Facts about the content-extraction pipeline *)

Module PipelineFacts.
Import Text Re Pipeline PipelineSpec TextFacts.

Lemma try_catch_total (A : Type) (m h : outcome A) :
  (exists a, h = Ok a) -> exists a, try_catch m h = Ok a.
Proof.
  intros [a Ha]. destruct m as [b |]; simpl; eauto.
Qed.

(** The last step of [manual_clean] gives a single line. *)
Lemma final_cleanup_single_line result :
  no_newline (final_cleanup result) = true.
Proof.
  unfold final_cleanup.
  assert (H : no_newline (sub no_flags spaces_re " " result) = true).
  { unfold no_newline, sub, spaces_re.
    eapply all_chars_weaken; [| apply sub_spaces_chars].
    intros c Hc. apply negb_true_iff. apply Ascii.eqb_neq. intros ->.
    discriminate. }
  unfold sub at 1, blank_lines_re, cats.
  change (lit nl) with (Chr newline).
  rewrite sub_single_line by exact H.
  apply all_chars_strip. exact H.
Qed.

Section WithDom.

Variable D : dom.
Variable print : notice -> outcome unit.
Variable post_chat : prompt -> string -> reply.

Local Abbreviation clean_text := (clean_text D print post_chat).
Local Abbreviation clean_text_try := (clean_text_try D print post_chat).

Lemma strip_html_basic_total html : exists s, strip_html_basic D html = Ok s.
Proof. apply try_catch_total. eauto. Qed.

(** A handler that prints and then falls back on the basic text raises
    exactly when its [print] does. *)
Lemma handler_total n html :
  print n = Ok tt ->
  exists s, (_ <- print n ;; strip_html_basic D html) = Ok s.
Proof. intros ->. cbn [bind]. apply strip_html_basic_total. Qed.

Lemma handler_raises n html :
  (_ <- print n ;; strip_html_basic D html) = Raised <-> print n = Raised.
Proof.
  destruct (print n) as [[] |]; cbn [bind]; [| tauto].
  destruct (strip_html_basic_total html) as [s ->].
  split; discriminate.
Qed.

Lemma extract_article_content_total html :
  print ExtractionFailed = Ok tt ->
  exists s, extract_article_content D print html = Ok s.
Proof. intros H. apply try_catch_total. now apply handler_total. Qed.

Lemma manual_clean_total html :
  print ManualFailed = Ok tt -> exists s, manual_clean D print html = Ok s.
Proof. intros H. apply try_catch_total. now apply handler_total. Qed.

Lemma gpt_clean_total html :
  print CleaningFailed = Ok tt ->
  exists s, gpt_clean D print post_chat html = Ok s.
Proof. intros H. apply try_catch_total. now apply handler_total. Qed.

Lemma gpt_summary_total text :
  print SummaryError = Ok tt ->
  exists s, gpt_summary print post_chat text = Ok s.
Proof. intros H. apply try_catch_total. rewrite H. cbn [bind]. eauto. Qed.

Lemma clean_text_unfold use_llm html :
  clean_text use_llm html
  = try_catch (clean_text_try use_llm html)
      (_ <- print (failure_notice use_llm) ;; strip_html_basic D html).
Proof. destruct use_llm; reflexivity. Qed.

(** C2, as amended: a strategy of the pipeline raises exactly when its
    [try] block fails and the [print] of its handler raises in turn; so it
    returns a string whenever that message can be printed, whatever the
    parser and the remote model do.  The basic fallback always returns a
    string; and when a strategy and the basic fallback both fail, and the
    message is printed, the string returned is empty. *)
Theorem pipeline_raises_only_in_handler html :
  (forall use_llm,
     (print (failure_notice use_llm) = Ok tt ->
      exists s, clean_text use_llm html = Ok s)
     /\ (clean_text use_llm html = Raised
         <-> clean_text_try use_llm html = Raised
             /\ print (failure_notice use_llm) = Raised))
  /\ (exists s, strip_html_basic D html = Ok s)
  /\ (strip_html_basic_try D html = Raised ->
      strip_html_basic D html = Ok ""
      /\ forall use_llm,
           clean_text_try use_llm html = Raised ->
           print (failure_notice use_llm) = Ok tt ->
           clean_text use_llm html = Ok "").
Proof.
  split; [| split].
  - intros use_llm. rewrite clean_text_unfold. split.
    + intros H. apply try_catch_total. now apply handler_total.
    + destruct (clean_text_try use_llm html) as [s |]; cbn [try_catch].
      * split; [discriminate | intros [H _]; discriminate].
      * rewrite handler_raises. tauto.
  - apply strip_html_basic_total.
  - intros Hbasic.
    assert (H : strip_html_basic D html = Ok "")
      by (unfold strip_html_basic; now rewrite Hbasic).
    split; [exact H |].
    intros use_llm Htry Hprint. rewrite clean_text_unfold, Htry.
    cbn [try_catch]. rewrite Hprint. exact H.
Qed.

(** Whenever the structural strategy itself succeeds, its result is a
    single line: the separators between the parts are gone. *)
Lemma manual_clean_try_single_line html s :
  manual_clean_try D print html = Ok s -> no_newline s = true.
Proof.
  unfold manual_clean_try.
  destruct (print ManualStarting); cbn [bind]; [| discriminate].
  destruct (extract_article_content D print html) as [article_html |];
    cbn [bind]; [| discriminate].
  destruct (HTMLParser D article_html) as [t |]; cbn [bind]; [| discriminate].
  destruct (title_parts D t) as [parts |]; cbn [bind]; [| discriminate].
  destruct (content_parts D t content_tags parts) as [parts' |];
    cbn [bind]; [| discriminate].
  destruct (print (ManualOutput _)); cbn [bind]; [| discriminate].
  intros [= <-]. apply final_cleanup_single_line.
Qed.

(** What [manual_clean] computes on a container with a heading and three
    paragraphs that pass the filters. *)
Lemma manual_clean_heading_and_paragraphs html article_html t h title p1 p2 p3 t1 t2 t3 :
  (forall n, print n = Ok tt) ->
  extract_article_content D print html = Ok article_html ->
  HTMLParser D article_html = Ok t ->
  css_first D t "h1" = Ok (Some h) -> text_strip D h = Ok title ->
  nonempty title = true ->
  css D t "p" = Ok [p1; p2; p3] ->
  text_strip D p1 = Ok t1 -> text_strip D p2 = Ok t2 -> text_strip D p3 = Ok t3 ->
  keep_text t1 = true -> keep_text t2 = true -> keep_text t3 = true ->
  css D t "h2" = Ok [] -> css D t "h3" = Ok [] -> css D t "h4" = Ok [] ->
  css D t "li" = Ok [] -> css D t "blockquote" = Ok [] ->
  manual_clean D print html
  = Ok (final_cleanup (join (nl ++ nl) [title; ""; t1; t2; t3]))
  /\ forall rest,
       manual_clean D print html <> Ok (title ++ nl ++ nl ++ rest).
Proof.
  intros Hprint Hx Hp Hh Ht Hne Hps H1 H2 H3 K1 K2 K3 Hh2 Hh3 Hh4 Hli Hbq.
  assert (Hres : manual_clean D print html
                 = Ok (final_cleanup (join (nl ++ nl) [title; ""; t1; t2; t3]))).
  { unfold manual_clean, manual_clean_try, title_parts.
    rewrite Hprint. cbn [bind].
    rewrite Hx. cbn [bind]. rewrite Hp. cbn [bind]. rewrite Hh. cbn [bind].
    rewrite Ht. cbn [bind]. rewrite Hne.
    unfold content_tags. cbn [content_parts].
    rewrite Hps. cbn [bind kept_texts].
    rewrite H1. cbn [bind]. rewrite K1. cbn [kept_texts].
    rewrite H2. cbn [bind]. rewrite K2. cbn [kept_texts].
    rewrite H3. cbn [bind]. rewrite K3. cbn [kept_texts].
    rewrite Hh2, Hh3, Hh4, Hli, Hbq. cbn [bind kept_texts].
    rewrite Hprint. cbn [bind try_catch].
    reflexivity. }
  split; [exact Hres |].
  intros rest Heq. rewrite Hres in Heq. injection Heq as Heq.
  eapply no_newline_no_break; [| exact Heq].
  apply final_cleanup_single_line.
Qed.

End WithDom.

Import Sample.

(** C2 fails on the code: with the model out of reach and a console that
    does not take the warning sign, the remote-assisted strategy, which is
    the one [crawl_site] uses, raises on the sample page: the [try] block
    fails at the request, and the handler at its [print]. *)
Lemma gpt_clean_raises_in_handler :
  USE_LLM_CLEANING = true
  /\ gpt_clean_try storm_dom plain_console offline storm_page = Raised
  /\ plain_console CleaningFailed = Raised
  /\ Pipeline.clean_text storm_dom plain_console offline USE_LLM_CLEANING
       storm_page = Raised.
Proof. repeat split; vm_compute; reflexivity. Qed.

Lemma pipeline_raises_only_in_handler_witness :
  (exists s, Pipeline.clean_text storm_dom quiet offline true storm_page = Ok s)
  /\ (exists s, Pipeline.clean_text blank_dom quiet offline false "" = Ok s)
  /\ strip_html_basic blank_dom "" = Ok "".
Proof.
  destruct (pipeline_raises_only_in_handler storm_dom quiet offline storm_page)
    as (Hstorm & _ & _).
  destruct (pipeline_raises_only_in_handler blank_dom quiet offline "")
    as (Hblank & _ & _).
  split; [exact (proj1 (Hstorm true) eq_refl) |].
  split; [exact (proj1 (Hblank false) eq_refl) | reflexivity].
Defined.

(** C7 fails on the code: for the sample page, whose [article] holds one
    heading and three paragraphs that pass the filters, [manual_clean]
    returns the four texts on one line, separated by single spaces. *)
Theorem manual_clean_loses_blank_lines :
  keep_text "Rain fell all night." = true
  /\ keep_text "Rivers rose by morning." = true
  /\ keep_text "Roads reopened at noon." = true
  /\ manual_clean storm_dom quiet storm_page
     = Ok "Storm hits coast Rain fell all night. Rivers rose by morning. Roads reopened at noon."
  /\ manual_clean storm_dom quiet storm_page
     <> Ok (join (nl ++ nl)
              ["Storm hits coast"; "Rain fell all night.";
               "Rivers rose by morning."; "Roads reopened at noon."]).
Proof.
  repeat split; try (vm_compute; reflexivity).
  vm_compute. discriminate.
Qed.

(** The sample page is such a container. *)
Example storm_page_single_line :
  forall rest,
    manual_clean storm_dom quiet storm_page
    <> Ok ("Storm hits coast" ++ nl ++ nl ++ rest).
Proof.
  eapply (@manual_clean_heading_and_paragraphs storm_dom quiet storm_page
            storm_article storm_elements (tagged "h1" "Storm hits coast")
            "Storm hits coast"
            (tagged "p" "Rain fell all night.")
            (tagged "p" "Rivers rose by morning.")
            (tagged "p" "Roads reopened at noon."));
    reflexivity.
Qed.

End PipelineFacts.

(* ------------------------------------------------------------------ *)
(** ** Facts about metadata extraction *)

Module MetadataFacts.
Import Text Metadata.

Section WithDom.

Variable D : dom.
Variable json_loads : string -> outcome json.
Variable datetime : Type.
Variable fromisoformat : string -> outcome datetime.
Variable utcnow : datetime.

Local Abbreviation resolve_author := (resolve_author D json_loads).
Local Abbreviation extract_metadata :=
  (extract_metadata D json_loads fromisoformat utcnow).

(** A non-empty author found in the structured data is the author: the
    meta tag and the byline are not asked. *)
Lemma resolve_author_jsonld t scripts :
  css D t "script[type='application/ld+json']" = Ok scripts ->
  truthy (jsonld_author D json_loads scripts (JStr "")) = true ->
  resolve_author t = Ok (jsonld_author D json_loads scripts (JStr "")).
Proof.
  intros Hcss Htrue. unfold Metadata.resolve_author.
  rewrite Hcss. cbn [bind]. rewrite Htrue. cbn [bind]. now rewrite Htrue.
Qed.

Lemma extract_metadata_author html t title author published :
  HTMLParser D html = Ok t ->
  extract_metadata html = Ok (title, author, published) ->
  resolve_author t = Ok author.
Proof.
  intros Hp. unfold Metadata.extract_metadata. rewrite Hp. cbn [bind].
  destruct (resolve_title D t); cbn [bind]; [| discriminate].
  destruct (resolve_author t); cbn [bind]; [| discriminate].
  destruct (resolve_published D fromisoformat utcnow t); cbn [bind];
    [| discriminate].
  now intros [= _ -> _].
Qed.

Lemma jsonld_author_app l1 l2 author :
  jsonld_author D json_loads (l1 ++ l2)%list author
  = jsonld_author D json_loads l2 (jsonld_author D json_loads l1 author).
Proof.
  revert author. induction l1 as [| n l1 IH]; intros author; simpl.
  - reflexivity.
  - destruct (script_author D json_loads n); apply IH.
Qed.

Lemma jsonld_author_silent l author :
  (forall m, In m l -> script_author D json_loads m = None) ->
  jsonld_author D json_loads l author = author.
Proof.
  induction l as [| n l IH]; intros Hall; simpl.
  - reflexivity.
  - rewrite (Hall n (or_introl eq_refl)). apply IH.
    intros m Hm. apply Hall. now right.
Qed.

(** What a script assigns, by the shape of its author field: an author
    object gives its name, or the empty string when it has none; a list of
    two author objects with names gives the two names with a comma and a
    space between them; an author that is a plain text gives nothing. *)
Lemma script_author_shapes n s fields :
  text_strip D n = Ok s ->
  json_loads s = Ok (JObj fields) ->
  (forall afields,
     get_field "author" fields = Some (JObj afields) ->
     script_author D json_loads n
     = Some (match get_field "name" afields with
             | Some name => name
             | None => JStr ""
             end))
  /\ (forall f1 f2 name1 name2,
        get_field "author" fields = Some (JArr [JObj f1; JObj f2]) ->
        get_field "name" f1 = Some (JStr name1) ->
        get_field "name" f2 = Some (JStr name2) ->
        script_author D json_loads n = Some (JStr (name1 ++ ", " ++ name2)))
  /\ (forall name,
        get_field "author" fields = Some (JStr name) ->
        script_author D json_loads n = None).
Proof.
  intros Htext Hload. unfold script_author.
  rewrite Htext. cbn [bind]. rewrite Hload. cbn [bind author_of_data].
  repeat split.
  - intros afields ->. reflexivity.
  - intros f1 f2 name1 name2 -> H1 H2.
    cbn [author_names py_in py_get bind]. rewrite H1, H2. reflexivity.
  - intros name ->. reflexivity.
Qed.


End WithDom.

Import Sample.



End MetadataFacts.

(* ------------------------------------------------------------------ *)
(** ** Facts about the per-article loop *)

Module OrchestratorFacts.
Import Text Discovery Pipeline Metadata Orchestrator OrchestratorSpec
  PipelineFacts.

Lemma too_short_false text :
  too_short text = false <-> 50 <= String.length (strip text).
Proof. unfold too_short. rewrite Nat.ltb_ge. reflexivity. Qed.

Lemma too_short_true text :
  too_short text = true <-> String.length (strip text) < 50.
Proof. unfold too_short. apply Nat.ltb_lt. Qed.

Section WithWorld.

Variable D : dom.
Variable print : notice -> outcome unit.
Variable post_chat : prompt -> string -> reply.
Variable json_loads : string -> outcome json.
Variable datetime : Type.
Variable fromisoformat : string -> outcome datetime.
Variable utcnow : datetime.
Variable http_get : string -> response.
Variable upsert_post : list (post datetime) -> post datetime -> outcome (option Z).
Variable use_llm : bool.

Local Abbreviation crawl_article := (crawl_article D http_get).
Local Abbreviation candidate :=
  (candidate D print post_chat json_loads fromisoformat utcnow http_get
     use_llm).
Local Abbreviation crawl_one :=
  (crawl_one D print post_chat json_loads fromisoformat utcnow http_get
     upsert_post use_llm).
Local Abbreviation crawl_loop :=
  (crawl_loop D print post_chat json_loads fromisoformat utcnow http_get
     upsert_post use_llm).

Local Abbreviation passed_gates :=
  (passed_gates D print post_chat http_get use_llm).

Lemma candidate_passed_gates u p : candidate u = Ok (Some p) -> passed_gates p /\ post_url p = u.
Proof.
  unfold Orchestrator.candidate.
  destruct (crawl_article u) as [res |] eqn:Hres; [| discriminate].
  destruct (negb (success res)); [discriminate |].
  destruct (raw_text_of D res) as [raw |] eqn:Hraw; cbn [bind]; [| discriminate].
  destruct (too_short raw) eqn:Hgate1; [discriminate |].
  destruct (extract_metadata D json_loads fromisoformat utcnow (html res))
    as [[[title author] published] |]; cbn [bind]; [| discriminate].
  destruct (clean_text D print post_chat use_llm (html res)) as [cleaned |]
    eqn:Hclean; cbn [bind]; [| discriminate].
  destruct (too_short cleaned) eqn:Hgate2; [discriminate |].
  destruct (extract_article_content D print (html res)); cbn [bind];
    [| discriminate].
  destruct (gpt_summary print post_chat cleaned); cbn [bind]; [| discriminate].
  intros [= <-]. split; [| reflexivity].
  exists res, raw. cbn [post_url post_text].
  apply too_short_false in Hgate1, Hgate2. auto.
Qed.

Lemma crawl_one_handed st u p :
  In p (handed (fst (crawl_one st u))) ->
  In p (handed st) \/ candidate u = Ok (Some p).
Proof.
  unfold Orchestrator.crawl_one.
  destruct (candidate u) as [[q |] |]; cbn [fst handed skip]; auto.
  assert (H : In p (handed st ++ [q]) -> In p (handed st) \/ Ok (Some q) = Ok (Some p)).
  { intros [H | [-> | []]]%in_app_iff; auto. }
  destruct (upsert_post (handed st) q) as [[id |] |]; cbn [fst handed]; auto.
  destruct (id =? 0)%Z; cbn [fst handed]; auto.
Qed.

Lemma crawl_loop_handed article_urls st p :
  In p (handed (fst (crawl_loop article_urls st))) ->
  In p (handed st) \/ exists u, In u article_urls /\ candidate u = Ok (Some p).
Proof.
  revert st. induction article_urls as [| u rest IH]; intros st; cbn [crawl_loop].
  - auto.
  - destruct (10 <=? inserted st)%Z; [auto |].
    pose proof (@crawl_one_handed st u p) as Hone.
    destruct (crawl_one st u) as [st' [|]]; cbn [fst] in *.
    + intros H. destruct (Hone H); [auto | right]. exists u. simpl. auto.
    + intros H. destruct (IH _ H) as [H' | (v & Hv & Hc)].
      * destruct (Hone H'); [auto | right]. exists u. simpl. auto.
      * right. exists v. simpl. auto.
Qed.

(** What one pass through the body does to the counters and to the log of
    calls. *)
Lemma crawl_one_tally st u st' flag :
  crawl_one st u = (st', flag) ->
  exists extra,
    handed st' = (handed st ++ extra)%list
    /\ List.length extra <= 1
    /\ (flag = false ->
        (inserted st' + skipped st' = inserted st + skipped st + 1)%Z)
    /\ (flag = true -> inserted st' = inserted st /\ skipped st' = skipped st)
    /\ (inserted st <= inserted st' <= inserted st + Z.of_nat (List.length extra))%Z
    /\ (skipped st <= skipped st')%Z.
Proof.
  unfold Orchestrator.crawl_one.
  destruct (candidate u) as [[p |] |].
  - destruct (upsert_post (handed st) p) as [[id |] |];
      [destruct (id =? 0)%Z | |];
      intros [= <- <-]; exists [p]; cbn [handed inserted skipped List.length];
      repeat split; try reflexivity; try discriminate; lia.
  - intros [= <- <-]. exists []. rewrite app_nil_r.
    cbn [skip handed inserted skipped List.length].
    repeat split; try reflexivity; try discriminate; lia.
  - intros [= <- <-]. exists []. rewrite app_nil_r.
    cbn [List.length]. repeat split; try reflexivity; try discriminate; lia.
Qed.

Lemma crawl_loop_tally article_urls st st' flag :
  crawl_loop article_urls st = (st', flag) ->
  exists extra,
    handed st' = (handed st ++ extra)%list
    /\ List.length extra <= List.length article_urls
    /\ ((inserted st <= 10)%Z -> (inserted st' <= 10)%Z)
    /\ (inserted st <= inserted st'
        <= inserted st + Z.of_nat (List.length extra))%Z
    /\ (skipped st <= skipped st')%Z
    /\ (inserted st' + skipped st'
        <= inserted st + skipped st + len article_urls)%Z
    /\ (flag = false -> (inserted st' < 10)%Z ->
        (inserted st' + skipped st'
         = inserted st + skipped st + len article_urls)%Z).
Proof.
  revert st. induction article_urls as [| u rest IH]; intros st;
    cbn [Orchestrator.crawl_loop].
  - intros [= <- <-]. exists []. rewrite app_nil_r. unfold len.
    cbn [List.length]. repeat split; auto; lia.
  - destruct (10 <=? inserted st)%Z eqn:Hfull.
    + intros [= <- <-]. exists []. rewrite app_nil_r. unfold len.
      apply Z.leb_le in Hfull.
      cbn [List.length]. repeat split; auto; lia.
    + apply Z.leb_gt in Hfull.
      destruct (crawl_one st u) as [st1 flag1] eqn:Hone.
      destruct (crawl_one_tally _ _ Hone)
        as (extra1 & Hh1 & Hl1 & Hcount & Hstop & Hins & Hskip).
      destruct flag1.
      * intros [= <- <-]. exists extra1.
        destruct (Hstop eq_refl) as [Hi Hs]. unfold len.
        cbn [List.length]. repeat split; auto; lia.
      * intros Hrest.
        destruct (IH _ Hrest)
          as (extra & Hh & Hl & Hcap & Hins' & Hskip' & Hsum & Hall).
        specialize (Hcount eq_refl).
        exists (extra1 ++ extra)%list.
        rewrite Hh, Hh1, <- app_assoc, length_app. unfold len in *.
        cbn [List.length]. repeat split; auto; try lia.
        intros Hflag Hlt. specialize (Hall Hflag Hlt). lia.
Qed.

(** The loop over a list in two pieces: the second piece starts where the
    first ends, unless an exception left the first. *)
Lemma crawl_loop_app before after st :
  crawl_loop (before ++ after) st
  = match crawl_loop before st with
    | (st1, false) => crawl_loop after st1
    | stopped => stopped
    end.
Proof.
  revert st. induction before as [| u rest IH]; intros st;
    cbn [app Orchestrator.crawl_loop].
  - reflexivity.
  - destruct (10 <=? inserted st)%Z eqn:Hfull.
    + destruct after as [| v after]; cbn [Orchestrator.crawl_loop];
        [reflexivity | now rewrite Hfull].
    + destruct (crawl_one st u) as [st1 [|]]; [reflexivity | apply IH].
Qed.

(** The body of the loop at a candidate that was fetched and passed the
    first gate. *)
Lemma crawl_one_gate st u res raw_text meta cleaned_text :
  crawl_article u = Some res ->
  raw_text_of D res = Ok raw_text ->
  50 <= String.length (strip raw_text) ->
  extract_metadata D json_loads fromisoformat utcnow (html res) = Ok meta ->
  clean_text D print post_chat use_llm (html res) = Ok cleaned_text ->
  (String.length (strip cleaned_text) < 50 ->
   crawl_one st u = (skip st, false))
  /\ (50 <= String.length (strip cleaned_text) ->
      print ExtractionFailed = Ok tt -> print SummaryError = Ok tt ->
      exists p st' flag,
        post_url p = u /\ post_text p = cleaned_text
        /\ crawl_one st u = (st', flag)
        /\ handed st' = (handed st ++ [p])%list).
Proof.
  destruct meta as [[title author] published].
  intros Hres Hraw Hgate1 Hmeta Hclean.
  assert (Hsuccess : success res = true).
  { revert Hres. unfold Orchestrator.crawl_article.
    destruct (http_get u) as [| code body]; [discriminate |].
    destruct (negb (code =? 200)%Z); [discriminate |].
    destruct (strip_html_basic D body); [| discriminate].
    now intros [= <-]. }
  apply too_short_false in Hgate1.
  unfold Orchestrator.crawl_one, Orchestrator.candidate.
  rewrite Hres, Hsuccess. cbn [negb]. rewrite Hraw. cbn [bind].
  rewrite Hgate1, Hmeta. cbn [bind]. rewrite Hclean. cbn [bind].
  split.
  - intros Hlt. apply too_short_true in Hlt. now rewrite Hlt.
  - intros Hge Hextract Hsummary. apply too_short_false in Hge. rewrite Hge.
    destruct (extract_article_content_total D print (html res) Hextract)
      as [cleaned_html ->].
    destruct (gpt_summary_total print post_chat cleaned_text Hsummary)
      as [summary ->].
    cbn [bind].
    exists (Post u title cleaned_text cleaned_html author [] published summary).
    destruct (upsert_post _ _) as [[id |] |]; [destruct (id =? 0)%Z | |];
      eexists; eexists; (split; [reflexivity |]); (split; [reflexivity |]);
      (split; [reflexivity |]); reflexivity.
Qed.

(** C8: every record the loop hands to [upsert_post] is for one of its
    URLs and comes from a candidate whose raw text and whose cleaned text
    both have at least 50 characters once stripped.  And when the loop
    reaches a URL (no exception before it, fewer than ten insertions)
    whose page was fetched and passed the first gate: with a cleaned text
    shorter than 50 the URL is counted as skipped and no record is made
    for it; with one of 50 or more, a record with that URL and that text
    is the next one handed to [upsert_post], provided the two messages
    that [extract_article_content] and [gpt_summary] print on a failure
    can be printed. *)
Theorem admission_gate :
  (forall article_urls p,
     In p (handed (fst (crawl_loop article_urls (Tally 0 0 [])))) ->
     passed_gates p /\ In (post_url p) article_urls)
  /\ (forall before u after st1 res raw_text meta cleaned_text,
        crawl_loop before (Tally 0 0 []) = (st1, false) ->
        (inserted st1 < 10)%Z ->
        crawl_article u = Some res ->
        raw_text_of D res = Ok raw_text ->
        50 <= String.length (strip raw_text) ->
        extract_metadata D json_loads fromisoformat utcnow (html res) = Ok meta ->
        clean_text D print post_chat use_llm (html res) = Ok cleaned_text ->
        (String.length (strip cleaned_text) < 50 ->
         crawl_loop (before ++ u :: after) (Tally 0 0 [])
         = crawl_loop after (skip st1))
        /\ (50 <= String.length (strip cleaned_text) ->
            print ExtractionFailed = Ok tt -> print SummaryError = Ok tt ->
            exists p rest,
              post_url p = u /\ post_text p = cleaned_text
              /\ handed (fst (crawl_loop (before ++ u :: after)
                                (Tally 0 0 [])))
                 = (handed st1 ++ p :: rest)%list)).
Proof.
  split.
  - intros article_urls p Hin.
    destruct (crawl_loop_handed _ _ _ Hin) as [[] | (u & Hu & Hc)].
    apply candidate_passed_gates in Hc as [Hgates <-]. auto.
  - intros before u after st1 res raw meta cleaned Hbefore Hroom Hres Hraw
      Hgate1 Hmeta Hclean.
    destruct (crawl_one_gate st1 u Hres Hraw Hgate1 Hmeta Hclean)
      as [Hskip Hhand].
    apply Z.leb_gt in Hroom.
    assert (Hstep : crawl_loop (before ++ u :: after) (Tally 0 0 [])
                    = match crawl_one st1 u with
                      | (st', false) => crawl_loop after st'
                      | stopped => stopped
                      end).
    { rewrite crawl_loop_app, Hbefore. cbn [Orchestrator.crawl_loop].
      now rewrite Hroom. }
    split.
    + intros Hlt. rewrite Hstep, (Hskip Hlt). reflexivity.
    + intros Hge Hextract Hsummary.
      destruct (Hhand Hge Hextract Hsummary)
        as (p & st' & flag & Hurl & Htext & Hone & Hlog).
      exists p. rewrite Hstep, Hone. destruct flag.
      * exists []. cbn [fst]. auto.
      * destruct (crawl_loop after st') as [st2 flag2] eqn:Hafter.
        destruct (crawl_loop_tally _ _ Hafter) as (extra & Hh & _).
        exists extra. cbn [fst]. rewrite Hh, Hlog, <- app_assoc. auto.
Qed.

End WithWorld.

Import Sample.

Lemma admission_gate_witness :
  String.length (strip text49) = 49
  /\ storm_visits text49 = (Tally 0 3 [], false)
  /\ String.length (strip text50) = 50
  /\ exists p rest,
       post_url p = "http://s.com/2024/01/02/storm-hits-coast"
       /\ post_text p = text50
       /\ handed (fst (storm_visits text50)) = p :: rest.
Proof.
  assert (Hraw : 50 <= String.length (strip
            (join (nl ++ nl)
               ["Storm hits coast"; "Rain fell all night.";
                "Rivers rose by morning."; "Roads reopened at noon."])))
    by (vm_compute; lia).
  split; [reflexivity | split; [| split; [reflexivity |]]].
  - destruct (admission_gate storm_dom quiet (canned text49) json_loads
                fromisoformat utcnow (serve storm_site) accept_all true)
      as [_ Hloop].
    destruct (Hloop [] "http://s.com/2024/01/02/storm-hits-coast"
                ["http://s.com/2024/01/03/not-there";
                 "http://s.com/2024/01/02/storm-hits-coast"]
                (Tally 0 0 []) _ _ _ text49 eq_refl eq_refl eq_refl eq_refl
                Hraw eq_refl eq_refl)
      as [Hskip _].
    unfold storm_visits. cbn [app] in Hskip. rewrite Hskip.
    + reflexivity.
    + vm_compute. lia.
  - destruct (admission_gate storm_dom quiet (canned text50) json_loads
                fromisoformat utcnow (serve storm_site) accept_all true)
      as [_ Hloop].
    destruct (Hloop [] "http://s.com/2024/01/02/storm-hits-coast"
                ["http://s.com/2024/01/03/not-there";
                 "http://s.com/2024/01/02/storm-hits-coast"]
                (Tally 0 0 []) _ _ _ text50 eq_refl eq_refl eq_refl eq_refl
                Hraw eq_refl eq_refl)
      as [_ Hhand].
    destruct Hhand as (p & rest & Hurl & Htext & Hlog);
      [vm_compute; lia | reflexivity | reflexivity |].
    exists p, rest. auto.
Defined.

End OrchestratorFacts.

(* ------------------------------------------------------------------ *)
(** ** Facts about stripping and whitespace *)

Module WhitespaceFacts.
Import Text Re Pipeline TextSpec TextFacts.

Lemma append_nil_r s : s ++ "" = s.
Proof. induction s as [| c s IH]; simpl; [reflexivity | now rewrite IH]. Qed.

Lemma append_assoc s1 s2 s3 : (s1 ++ s2) ++ s3 = s1 ++ (s2 ++ s3).
Proof. induction s1 as [| c s1 IH]; simpl; [reflexivity | now rewrite IH]. Qed.

Lemma length_append s1 s2 :
  String.length (s1 ++ s2) = String.length s1 + String.length s2.
Proof. induction s1 as [| c s1 IH]; simpl; [reflexivity | now rewrite IH]. Qed.

Lemma rev_append s1 s2 : rev (s1 ++ s2) = rev s2 ++ rev s1.
Proof.
  induction s1 as [| c s1 IH]; simpl.
  - now rewrite append_nil_r.
  - now rewrite IH, append_assoc.
Qed.

Lemma rev_involutive s : rev (rev s) = s.
Proof.
  induction s as [| c s IH]; simpl; [reflexivity |].
  now rewrite rev_append, IH.
Qed.

Lemma length_rev s : String.length (rev s) = String.length s.
Proof.
  induction s as [| c s IH]; simpl; [reflexivity |].
  rewrite length_append, IH. simpl. lia.
Qed.

(** [lstrip] drops a prefix of whitespace. *)
Lemma lstrip_split s :
  exists w, s = w ++ lstrip s /\ all_chars isspace w = true.
Proof.
  induction s as [| c s (w & Hs & Hw)]; simpl.
  - exists "". auto.
  - destruct (isspace c) eqn:Hc.
    + exists (String c w). simpl. rewrite Hc, Hw. split; [congruence | reflexivity].
    + exists "". auto.
Qed.

(** [rstrip] drops a suffix of whitespace. *)
Lemma rstrip_split s :
  exists w, s = rstrip s ++ w /\ all_chars isspace w = true.
Proof.
  unfold rstrip. destruct (lstrip_split (rev s)) as (w & Hs & Hw).
  exists (rev w). split.
  - rewrite <- rev_append, <- Hs. now rewrite rev_involutive.
  - now rewrite all_chars_rev.
Qed.

Lemma lstrip_head s :
  match lstrip s with
  | EmptyString => True
  | String a _ => isspace a = false
  end.
Proof.
  induction s as [| c s IH]; simpl; [exact I |].
  destruct (isspace c) eqn:Hc; [exact IH | exact Hc].
Qed.

Lemma lstrip_fixed a s : isspace a = false -> lstrip (String a s) = String a s.
Proof. intros H. simpl. now rewrite H. Qed.

Lemma lstrip_snoc s a :
  isspace a = false -> lstrip (s ++ String a "") = lstrip s ++ String a "".
Proof.
  intros Ha. induction s as [| c s IH]; simpl.
  - now rewrite Ha.
  - destruct (isspace c); [exact IH | reflexivity].
Qed.

Lemma rstrip_cons a s :
  isspace a = false -> rstrip (String a s) = String a (rstrip s).
Proof.
  intros Ha. unfold rstrip. simpl.
  rewrite lstrip_snoc by exact Ha. rewrite rev_append. reflexivity.
Qed.

(** The last character of what [rstrip] keeps is no whitespace. *)
Lemma rstrip_last s :
  match rev (rstrip s) with
  | EmptyString => True
  | String z _ => isspace z = false
  end.
Proof. unfold rstrip. rewrite rev_involutive. apply lstrip_head. Qed.

(** What [strip] returns neither starts nor ends with whitespace. *)
Lemma strip_trimmed s : trimmed (strip s) = true.
Proof.
  unfold strip, trimmed.
  pose proof (lstrip_head s) as Hhead.
  destruct (lstrip s) as [| a t] eqn:Hl.
  - reflexivity.
  - rewrite rstrip_cons by exact Hhead. rewrite Hhead. cbn [negb andb].
    pose proof (rstrip_last (String a t)) as Hlast.
    rewrite rstrip_cons in Hlast by exact Hhead.
    destruct (rev (String a (rstrip t))); [reflexivity |].
    now rewrite Hlast.
Qed.

(** A string that neither starts nor ends with whitespace is left alone
    by [strip]. *)
Lemma strip_fixed s : trimmed s = true -> strip s = s.
Proof.
  unfold trimmed, strip. destruct s as [| a t]; [reflexivity |].
  intros [Ha Hz]%andb_prop. apply negb_true_iff in Ha.
  rewrite lstrip_fixed by exact Ha.
  unfold rstrip. destruct (rev (String a t)) as [| z u] eqn:Hr.
  - apply (f_equal rev) in Hr. rewrite rev_involutive in Hr. discriminate.
  - apply negb_true_iff in Hz. rewrite lstrip_fixed by exact Hz.
    rewrite <- Hr. apply rev_involutive.
Qed.

Lemma strip_idempotent s : strip (strip s) = strip s.
Proof. apply strip_fixed, strip_trimmed. Qed.

(** [strip] keeps a piece of the string between two runs of whitespace. *)
Lemma strip_split s :
  exists w1 w2, s = w1 ++ strip s ++ w2
                /\ all_chars isspace w1 = true /\ all_chars isspace w2 = true.
Proof.
  destruct (lstrip_split s) as (w1 & Hs & H1).
  destruct (rstrip_split (lstrip s)) as (w2 & Hl & H2).
  exists w1, w2. unfold strip. rewrite <- Hl. auto.
Qed.

Lemma strip_length s : String.length (strip s) <= String.length s.
Proof.
  destruct (strip_split s) as (w1 & w2 & Hs & _).
  rewrite Hs at 2. rewrite !length_append. lia.
Qed.


(** *** Runs of whitespace *)

Lemma leading_ws_lstrip s :
  String.length s = leading_ws s + String.length (lstrip s).
Proof.
  induction s as [| a s IH]; simpl; [reflexivity |].
  destruct (isspace a); simpl; lia.
Qed.

(** A greedy run of whitespace stops at the first other character. *)
Lemma rep_space_lstrip n prev s :
  String.length s <= n ->
  rep_loop true (exec no_flags (Cls isspace)) accept n prev s = Some (lstrip s).
Proof.
  revert prev s. induction n as [| n IH]; intros prev s Hn.
  - destruct s; [reflexivity | simpl in Hn; lia].
  - cbn [rep_loop]. rewrite exec_cls. destruct s as [| b s2].
    + reflexivity.
    + cbn [lstrip]. destruct (isspace b).
      * replace (String.length s2 <? String.length (String b s2)) with true
          by (symmetry; apply Nat.ltb_lt; simpl; lia).
        rewrite IH by (simpl in Hn; lia). reflexivity.
      * reflexivity.
Qed.

(** What [\s+] matches at one position: the whitespace the subject starts
    with, if any. *)
Lemma match_spaces_exact prev a s :
  match_at no_flags spaces_re prev (String a s)
  = if isspace a then Some (lstrip s) else None.
Proof.
  unfold match_at, spaces_re, plus, space.
  change (exec no_flags (Cat (Cls isspace) (Rep true (Cls isspace))) prev
            (String a s) accept)
    with (if isspace a
          then rep_loop true (exec no_flags (Cls isspace)) accept
                 (String.length s) (Some a) s
          else None).
  destruct (isspace a); [| reflexivity].
  apply rep_space_lstrip. lia.
Qed.

Lemma collapse_from_true_head a s :
  isspace a = false ->
  collapse_from true (String a s) = collapse_from false (String a s).
Proof. intros H. simpl. now rewrite H. Qed.

(** [re.sub(r"\s+", " ", s)] is [collapse s]. *)
Lemma sub_spaces_collapse_from s :
  forall prev,
    sub_from no_flags spaces_re " " 0 prev s = collapse_from false s
    /\ sub_from no_flags spaces_re " " (leading_ws s) prev s
       = collapse_from true s.
Proof.
  induction s as [| a s IH]; intros prev.
  - split; reflexivity.
  - destruct (IH (Some a)) as [IH0 IHk].
    assert (H0 : sub_from no_flags spaces_re " " 0 prev (String a s)
                 = collapse_from false (String a s)).
    { cbn [sub_from]. rewrite match_spaces_exact. cbn [collapse_from].
      destruct (isspace a).
      - change (String.length (String a s)) with (S (String.length s)).
        rewrite (leading_ws_lstrip s) at 1.
        replace (S (leading_ws s + String.length (lstrip s))
                 - String.length (lstrip s))
          with (S (leading_ws s)) by lia.
        rewrite IHk. reflexivity.
      - now rewrite IH0. }
    split; [exact H0 |].
    cbn [leading_ws]. destruct (isspace a) eqn:Ha.
    + cbn [sub_from collapse_from]. rewrite Ha. exact IHk.
    + rewrite H0. cbn [collapse_from]. now rewrite Ha.
Qed.

Lemma sub_spaces_collapse s : sub no_flags spaces_re " " s = collapse s.
Proof. apply sub_spaces_collapse_from. Qed.

Lemma collapse_from_single_spaced b s :
  single_spaced_from b (collapse_from b s) = true.
Proof.
  revert b. induction s as [| a s IH]; intros b; cbn [collapse_from].
  - reflexivity.
  - destruct (isspace a) eqn:Ha.
    + destruct b; [apply IH |].
      cbn [single_spaced_from]. change (isspace " ") with true.
      cbn [negb andb Ascii.eqb]. rewrite IH. reflexivity.
    + cbn [single_spaced_from]. rewrite Ha. apply IH.
Qed.

(** A string whose only whitespace is single spaces is left alone. *)
Lemma collapse_fixed_gen s :
  forall b, single_spaced_from b s = true ->
    collapse_from b s = s.
Proof.
  induction s as [| a s IH]; intros b H; cbn [collapse_from].
  - reflexivity.
  - cbn [single_spaced_from] in H. destruct (isspace a).
    + apply andb_prop in H as [H Hs]. apply andb_prop in H as [Heq Hb].
      apply negb_true_iff in Hb. subst b.
      apply Ascii.eqb_eq in Heq. subst a. now rewrite IH.
    + now rewrite IH.
Qed.

Lemma collapse_idempotent s : collapse (collapse s) = collapse s.
Proof. apply collapse_fixed_gen, collapse_from_single_spaced. Qed.

Lemma collapse_from_length b s :
  String.length (collapse_from b s) <= String.length s.
Proof.
  revert b. induction s as [| a s IH]; intros b; cbn [collapse_from].
  - lia.
  - pose proof (IH true) as Ht. pose proof (IH false) as Hf.
    destruct (isspace a); [destruct b |]; cbn [String.length]; lia.
Qed.

(** Pieces of a single-spaced string are single-spaced. *)
Lemma single_spaced_from_weaken b s :
  single_spaced_from b s = true -> single_spaced_from false s = true.
Proof.
  destruct s as [| a s]; [reflexivity |]. cbn [single_spaced_from].
  destruct (isspace a); [| auto].
  intros [[-> _]%andb_prop ->]%andb_prop. reflexivity.
Qed.

Lemma single_spaced_app b s1 s2 :
  single_spaced_from b (s1 ++ s2) = true ->
  single_spaced_from b s1 = true /\ single_spaced s2 = true.
Proof.
  revert b. induction s1 as [| a s1 IH]; intros b; simpl.
  - intros H. split; [reflexivity |]. eapply single_spaced_from_weaken, H.
  - destruct (isspace a).
    + intros [H1 H2]%andb_prop. destruct (IH _ H2) as [Ha Hb].
      now rewrite H1, Ha.
    + apply IH.
Qed.

Lemma single_spaced_strip s : single_spaced s = true -> single_spaced (strip s) = true.
Proof.
  intros H. destruct (strip_split s) as (w1 & w2 & Hs & _).
  unfold single_spaced in *. rewrite Hs in H.
  apply single_spaced_app in H as [_ H].
  unfold single_spaced in H. now apply single_spaced_app in H as [H _].
Qed.

(** Single spaces only means no newline. *)
Lemma single_spaced_no_newline b s :
  single_spaced_from b s = true -> no_newline s = true.
Proof.
  unfold no_newline. revert b. induction s as [| a s IH]; intros b; simpl.
  - reflexivity.
  - destruct (isspace a) eqn:Ha.
    + intros [[Heq _]%andb_prop Hs]%andb_prop.
      apply Ascii.eqb_eq in Heq. subst a. simpl. eapply IH, Hs.
    + intros Hs. rewrite (IH _ Hs). rewrite andb_true_r.
      apply negb_true_iff. apply Ascii.eqb_neq. intros ->. discriminate.
Qed.

End WhitespaceFacts.

(* ------------------------------------------------------------------ *)
(** ** Facts about the matcher *)

Module ReFacts.
Import Text Re Pipeline TextSpec TextFacts WhitespaceFacts.

Lemma chr_match_newline fl a : chr_match fl newline a = true -> a = newline.
Proof.
  unfold chr_match. destruct (IGNORECASE fl).
  - destruct a as [[] [] [] [] [] [] [] []]; vm_compute; intros H;
      try discriminate; reflexivity.
  - intros H. symmetry. now apply Ascii.eqb_eq.
Qed.

Lemma first_of_some (A : Type) (x y : option A) (v : A) :
  first_of x y = Some v -> x = Some v \/ y = Some v.
Proof. destruct x; simpl; auto. Qed.

Lemma hands_over_nothing s k p x : k p s = Some x -> hands_over false s k x.
Proof.
  intros H. exists "", p, s. repeat split; auto; discriminate.
Qed.

Lemma hands_over_char needs a s k x :
  k (Some a) s = Some x -> (needs = true -> a = newline) ->
  hands_over needs (String a s) k x.
Proof.
  intros H Hn. exists (String a ""), (Some a), s. repeat split; auto.
  intros Hneeds. rewrite (Hn Hneeds). reflexivity.
Qed.

Lemma hands_over_seq n1 n2 s k1 k x :
  hands_over n1 s k1 x ->
  (forall p' s', k1 p' s' = Some x -> hands_over n2 s' k x) ->
  hands_over (n1 || n2) s k x.
Proof.
  intros (c1 & p1 & s1 & -> & Hk1 & Hn1) Hnext.
  destruct (Hnext _ _ Hk1) as (c2 & p2 & s2 & -> & Hk & Hn2).
  exists (c1 ++ c2), p2, s2. split; [now rewrite append_assoc |].
  split; [assumption |].
  unfold no_newline in *. rewrite all_chars_app.
  intros [H | H]%orb_prop.
  - now rewrite (Hn1 H).
  - rewrite (Hn2 H). apply andb_false_r.
Qed.

Lemma hands_over_weaken needs s k x :
  hands_over needs s k x -> hands_over false s k x.
Proof.
  intros (c & p & s' & Hs & Hk & _). exists c, p, s'.
  repeat split; auto; discriminate.
Qed.

Lemma rep_loop_hands_over greedy (step : option ascii -> string -> cont -> option string) k n :
  (forall prev s k' x, step prev s k' = Some x -> hands_over false s k' x) ->
  forall prev s x,
    rep_loop greedy step k n prev s = Some x -> hands_over false s k x.
Proof.
  intros Hstep. induction n as [| n IH]; intros prev s x; cbn [rep_loop].
  - apply hands_over_nothing.
  - intros H.
    assert (Hcases : step prev s
                       (fun p s' => if String.length s' <? String.length s
                                    then rep_loop greedy step k n p s' else None)
                     = Some x \/ k prev s = Some x).
    { destruct greedy; apply first_of_some in H; tauto. }
    destruct Hcases as [Hagain | Hstop]; [| eapply hands_over_nothing, Hstop].
    apply Hstep in Hagain.
    change false with (false || false).
    eapply hands_over_seq; [exact Hagain |].
    intros p' s' Hk. cbv beta in Hk.
    destruct (String.length s' <? String.length s); [| discriminate].
    exact (IH _ _ _ Hk).
Qed.

(** A match consumes a prefix of the subject, with a newline in it when
    the pattern needs one. *)
Lemma exec_hands_over fl r :
  forall prev s k x,
    exec fl r prev s k = Some x -> hands_over (needs_newline r) s k x.
Proof.
  induction r as [| c | f | | | | r1 IH1 r2 IH2 | r1 IH1 r2 IH2 | g r1 IH1];
    intros prev s k x; cbn [exec needs_newline].
  - apply hands_over_nothing.
  - destruct s as [| a s]; [discriminate |].
    destruct (chr_match fl c a) eqn:Hm; [| discriminate].
    intros H. apply hands_over_char; [assumption |].
    intros Hc. apply Ascii.eqb_eq in Hc. subst c.
    eapply chr_match_newline, Hm.
  - destruct s as [| a s]; [discriminate |]. destruct (f a); [| discriminate].
    intros H. apply hands_over_char; [assumption | discriminate].
  - destruct s as [| a s]; [discriminate |].
    destruct (DOTALL fl || negb (Ascii.eqb a newline)); [| discriminate].
    intros H. apply hands_over_char; [assumption | discriminate].
  - destruct (at_bol fl prev); [apply hands_over_nothing | discriminate].
  - destruct (at_eol fl s); [apply hands_over_nothing | discriminate].
  - intros H. apply IH1 in H. eapply hands_over_seq; [exact H |].
    intros p' s' Hk. now apply IH2 in Hk.
  - intros [H | H]%first_of_some; [apply IH1 in H | apply IH2 in H];
      destruct H as (cs & p & s' & Hs & Hk & Hn);
      exists cs, p, s'; repeat split; auto;
      intros [H1 H2]%andb_prop; auto.
  - apply rep_loop_hands_over.
    intros prev' s' k' x' H. eapply hands_over_weaken, IH1, H.
Qed.

Lemma no_newline_app s1 s2 :
  no_newline (s1 ++ s2) = no_newline s1 && no_newline s2.
Proof. apply all_chars_app. Qed.

(** A pattern that needs a newline matches nowhere in a single line. *)
Lemma match_at_single_line fl r prev s :
  needs_newline r = true -> no_newline s = true -> match_at fl r prev s = None.
Proof.
  intros Hr Hs. unfold match_at.
  destruct (exec fl r prev s accept) as [x |] eqn:H; [| reflexivity].
  apply exec_hands_over in H. destruct H as (c & p & s' & -> & _ & Hn).
  rewrite no_newline_app, (Hn Hr) in Hs. discriminate.
Qed.

Lemma sub_from_single_line fl r repl prev s :
  needs_newline r = true -> no_newline s = true ->
  sub_from fl r repl 0 prev s = s.
Proof.
  intros Hr. revert prev. induction s as [| a s IH]; intros prev Hs;
    cbn [sub_from]; rewrite (@match_at_single_line fl r prev _ Hr Hs).
  - reflexivity.
  - f_equal. apply IH. unfold no_newline in *. simpl in Hs.
    now apply andb_prop in Hs as [_ Hs].
Qed.

Lemma sub_single_line_fixed fl r repl s :
  needs_newline r = true -> no_newline s = true -> sub fl r repl s = s.
Proof. apply sub_from_single_line. Qed.

End ReFacts.

(* ------------------------------------------------------------------ *)
(** ** More facts about the pipeline *)

Module PipelineMore.
Import Text Re Pipeline TextSpec TextFacts WhitespaceFacts ReFacts PipelineFacts.

(** *** [chunk_text] *)

Lemma take_drop n s : take n s ++ drop n s = s.
Proof.
  revert s. induction n as [| n IH]; intros [| c s]; simpl; try reflexivity.
  now rewrite IH.
Qed.

Lemma length_take n s : String.length (take n s) = Nat.min n (String.length s).
Proof.
  revert s. induction n as [| n IH]; intros [| c s]; simpl; try reflexivity.
  now rewrite IH.
Qed.

Lemma length_drop n s : String.length (drop n s) = String.length s - n.
Proof.
  revert s. induction n as [| n IH]; intros [| c s]; simpl; try reflexivity.
  apply IH.
Qed.

Lemma concat_cons sep x y l :
  String.concat sep (x :: y :: l) = x ++ sep ++ String.concat sep (y :: l).
Proof. reflexivity. Qed.

Lemma chunk_from_spec fuel max_len text :
  0 < max_len -> String.length text <= fuel ->
  String.concat "" (chunk_from fuel max_len text) = text
  /\ Forall (fun chunk => 1 <= String.length chunk <= max_len)
            (chunk_from fuel max_len text)
  /\ List.length (chunk_from fuel max_len text) * max_len
     < String.length text + max_len.
Proof.
  intros Hpos. revert text. induction fuel as [| fuel IH]; intros text Hfuel.
  - destruct text; [| simpl in Hfuel; lia]. simpl. repeat split; auto; lia.
  - destruct text as [| c text']; [simpl; repeat split; auto; lia |].
    change (chunk_from (S fuel) max_len (String c text'))
      with (take max_len (String c text')
            :: chunk_from fuel max_len (drop max_len (String c text'))).
    assert (Hlen : 1 <= String.length (String c text')) by (simpl; lia).
    remember (String c text') as text eqn:Htext. clear Htext.
    destruct (IH (drop max_len text)) as (Hcat & Hall & Hcount).
    { rewrite length_drop. lia. }
    pose proof (length_take max_len text) as Htake.
    pose proof (length_drop max_len text) as Hdrop.
    assert (Hhi : String.length (take max_len text) <= max_len)
      by (rewrite Htake; apply Nat.le_min_l).
    assert (Hlo : 1 <= String.length (take max_len text))
      by (rewrite Htake; apply Nat.min_glb; lia).
    clear Htake.
    split; [| split].
    + destruct (chunk_from fuel max_len (drop max_len text)) as [| d ds] eqn:Hrest.
      * simpl in Hcat. cbn [String.concat]. rewrite <- (take_drop max_len text) at 2.
        now rewrite <- Hcat, append_nil_r.
      * rewrite concat_cons. change ("" ++ ?x) with x.
        rewrite Hcat. apply take_drop.
    + constructor; [lia | exact Hall].
    + cbn [List.length].
      destruct (List.length (chunk_from fuel max_len (drop max_len text)));
        simpl in *; lia.
Qed.

(** X1: for a positive chunk size, the chunks of [chunk_text] put end to
    end are the text again, no chunk is empty or longer than the chunk
    size, and there are no more chunks than the size of the text needs. *)
Theorem chunk_text_partitions text max_len :
  0 < max_len ->
  String.concat "" (chunk_text text max_len) = text
  /\ Forall (fun chunk => 1 <= String.length chunk <= max_len)
            (chunk_text text max_len)
  /\ List.length (chunk_text text max_len) * max_len
     < String.length text + max_len.
Proof. intros H. apply chunk_from_spec; [exact H | lia]. Qed.

Lemma chunk_text_partitions_witness :
  0 < 4
  /\ chunk_text "extraction" 4 = ["extr"; "acti"; "on"]
  /\ String.concat "" (chunk_text "extraction" 4) = "extraction".
Proof.
  split; [lia | split; [reflexivity |]].
  apply (@chunk_text_partitions "extraction" 4). lia.
Defined.


(** *** Whitespace in the results *)

Lemma collapsed_strip_normal x :
  single_spaced (strip (collapse x)) = true
  /\ trimmed (strip (collapse x)) = true.
Proof.
  split; [| apply strip_trimmed].
  apply single_spaced_strip. apply collapse_from_single_spaced.
Qed.

(** The cap on blank lines finds nothing to replace: the last step of
    [manual_clean] is [strip] after [collapse]. *)
Lemma final_cleanup_collapse result :
  final_cleanup result = strip (collapse result).
Proof.
  unfold final_cleanup. rewrite sub_spaces_collapse.
  rewrite sub_single_line_fixed; [reflexivity | reflexivity |].
  eapply single_spaced_no_newline, collapse_from_single_spaced.
Qed.

(** X2: [html_preclean] returns a text whose only whitespace is single
    spaces, with none at either end. *)
Theorem html_preclean_normalised html :
  single_spaced (html_preclean html) = true
  /\ trimmed (html_preclean html) = true.
Proof.
  unfold html_preclean. rewrite sub_spaces_collapse. apply collapsed_strip_normal.
Qed.

(** X3: a text without a newline passes [clean_llm_artifacts] unchanged but
    for the whitespace at its ends: every preamble pattern ends with a
    newline and every postamble pattern starts with one. *)
Theorem clean_llm_artifacts_single_line text :
  no_newline text = true -> clean_llm_artifacts text = strip text.
Proof.
  intros H. unfold clean_llm_artifacts.
  assert (Hfold : forall fl patterns,
            forallb needs_newline patterns = true ->
            fold_left (fun t pattern => sub fl pattern "" t) patterns text = text).
  { intros fl patterns. induction patterns as [| r rs IH]; cbn [fold_left forallb].
    - reflexivity.
    - intros [Hr Hrs]%andb_prop.
      rewrite sub_single_line_fixed by assumption. now apply IH. }
  rewrite (Hfold flag_IM preambles eq_refl).
  rewrite sub_single_line_fixed by (reflexivity || assumption).
  rewrite (Hfold flag_IS postambles eq_refl). reflexivity.
Qed.

Lemma clean_llm_artifacts_single_line_witness :
  no_newline "Here's the cleaned text: Storm hits coast " = true
  /\ clean_llm_artifacts "Here's the cleaned text: Storm hits coast "
     = "Here's the cleaned text: Storm hits coast".
Proof.
  split; [reflexivity |].
  apply (@clean_llm_artifacts_single_line
           "Here's the cleaned text: Storm hits coast "). reflexivity.
Defined.

Section WithDom.

Variable D : dom.
Variable print : notice -> outcome unit.
Variable post_chat : prompt -> string -> reply.

(** X4: whenever the remote-assisted strategy itself succeeds, its result
    has no whitespace but single spaces and none at either end, so the
    [strip] of the admission gate leaves it as it is. *)
Theorem gpt_clean_try_normalised html s :
  gpt_clean_try D print post_chat html = Ok s ->
  single_spaced s = true /\ trimmed s = true /\ strip s = s.
Proof.
  unfold gpt_clean_try.
  destruct (extract_article_content D print html) as [article_html |];
    cbn [bind]; [| discriminate].
  destruct (print (Extracted _ _)); cbn [bind]; [| discriminate].
  destruct (clean_chunks D print post_chat _ _ _ []) as [outputs |];
    cbn [bind]; [| discriminate].
  intros [= <-]. rewrite sub_spaces_collapse.
  destruct (collapsed_strip_normal
              (sub no_flags tag_re ""
                 (clean_llm_artifacts (join nl outputs)))) as [H1 H2].
  auto using strip_fixed.
Qed.

(** X5: whenever the structural strategy itself succeeds, its result has no
    whitespace but single spaces and none at either end: the separators
    that [join] puts between the parts are collapsed, and the cap on blank
    lines never applies. *)
Theorem manual_clean_try_normalised html s :
  manual_clean_try D print html = Ok s ->
  single_spaced s = true /\ trimmed s = true /\ strip s = s.
Proof.
  unfold manual_clean_try.
  destruct (print ManualStarting); cbn [bind]; [| discriminate].
  destruct (extract_article_content D print html) as [article_html |];
    cbn [bind]; [| discriminate].
  destruct (HTMLParser D article_html) as [t |]; cbn [bind]; [| discriminate].
  destruct (title_parts D t) as [parts |]; cbn [bind]; [| discriminate].
  destruct (content_parts D t content_tags parts) as [parts' |];
    cbn [bind]; [| discriminate].
  destruct (print (ManualOutput _)); cbn [bind]; [| discriminate].
  intros [= <-]. rewrite final_cleanup_collapse.
  destruct (collapsed_strip_normal (join (nl ++ nl) parts')) as [H1 H2].
  auto using strip_fixed.
Qed.

(** *** [strip_html_basic] *)

Lemma basic_parts_long nodes parts :
  basic_parts D nodes = Ok parts ->
  Forall (fun t => 10 < String.length t) parts.
Proof.
  revert parts. induction nodes as [| n rest IH]; intros parts; cbn [basic_parts].
  - intros [= <-]. constructor.
  - destruct (text_strip D n) as [t |]; cbn [bind]; [| discriminate].
    destruct (basic_parts D rest) as [ps |]; cbn [bind]; [| discriminate].
    specialize (IH ps eq_refl).
    destruct (10 <? String.length t) eqn:Hlen; intros [= <-]; [| exact IH].
    constructor; [now apply Nat.ltb_lt | exact IH].
Qed.

Lemma join_length_first sep part parts :
  String.length part <= String.length (join sep (part :: parts)).
Proof.
  unfold join. destruct parts as [| p ps]; [simpl; lia |].
  rewrite concat_cons, length_append. lia.
Qed.

(** X6: what [strip_html_basic] returns is empty or longer than 10
    characters: every text it keeps is, and a failure gives the empty
    string. *)
Theorem strip_html_basic_empty_or_long html s :
  strip_html_basic D html = Ok s -> s = "" \/ 10 < String.length s.
Proof.
  unfold strip_html_basic, strip_html_basic_try.
  destruct (HTMLParser D _) as [t |]; cbn [bind try_catch];
    [| intros [= <-]; now left].
  destruct (css D t _) as [nodes |]; cbn [bind try_catch];
    [| intros [= <-]; now left].
  destruct (basic_parts D nodes) as [parts |] eqn:Hparts; cbn [bind try_catch];
    [| intros [= <-]; now left].
  intros [= <-]. apply basic_parts_long in Hparts.
  destruct parts as [| p ps]; [now left | right].
  inversion Hparts as [| ? ? Hp _]; subst. cbv beta in Hp.
  eapply Nat.lt_le_trans; [exact Hp | apply join_length_first].
Qed.

(** *** The container *)

(** X7: the container of [extract_article_content] is the match of the
    first selector of the list that has one: the selectors before it were
    tried and matched nothing. *)
Theorem find_container_first t selectors a :
  find_container D print t selectors = Ok (Some a) ->
  exists before selector after,
    selectors = (before ++ selector :: after)%list
    /\ css_first D t selector = Ok (Some a)
    /\ forall s, In s before -> css_first D t s = Ok None.
Proof.
  induction selectors as [| sel rest IH]; cbn [find_container].
  - discriminate.
  - destruct (css_first D t sel) as [[n |] |] eqn:Hsel; cbn [bind];
      [| | discriminate].
    + destruct (print (ContainerFound sel)); cbn [bind]; [| discriminate].
      intros [= <-]. exists [], sel, rest. repeat split; auto.
      intros s [].
    + intros H. destruct (IH H) as (before & selector & after & -> & Hm & Hb).
      exists (sel :: before), selector, after. repeat split; auto.
      intros s [<- | Hs]; auto.
Qed.

Lemma find_container_hit t before selector after a :
  (forall s, In s before -> css_first D t s = Ok None) ->
  css_first D t selector = Ok (Some a) ->
  print (ContainerFound selector) = Ok tt ->
  find_container D print t (before ++ selector :: after) = Ok (Some a).
Proof.
  intros Hb Hs Hprint.
  induction before as [| b bs IH]; cbn [app find_container].
  - rewrite Hs. cbn [bind]. now rewrite Hprint.
  - rewrite (Hb b (or_introl eq_refl)). cbn [bind]. apply IH.
    intros s Hin. apply Hb. now right.
Qed.

End WithDom.

Import Sample.

Lemma gpt_clean_try_normalised_witness :
  gpt_clean_try storm_dom quiet (canned text50) storm_page = Ok text50
  /\ single_spaced text50 = true /\ trimmed text50 = true
  /\ strip text50 = text50.
Proof.
  split; [reflexivity |].
  apply (@gpt_clean_try_normalised storm_dom quiet (canned text50)
           storm_page).
  reflexivity.
Defined.

Lemma manual_clean_try_normalised_witness :
  single_spaced
    "Storm hits coast Rain fell all night. Rivers rose by morning. Roads reopened at noon."
  = true
  /\ trimmed
       "Storm hits coast Rain fell all night. Rivers rose by morning. Roads reopened at noon."
     = true
  /\ strip
       "Storm hits coast Rain fell all night. Rivers rose by morning. Roads reopened at noon."
     = "Storm hits coast Rain fell all night. Rivers rose by morning. Roads reopened at noon.".
Proof.
  apply (@manual_clean_try_normalised storm_dom quiet storm_page).
  reflexivity.
Defined.

Lemma strip_html_basic_empty_or_long_witness :
  join (nl ++ nl)
    ["Storm hits coast"; "Rain fell all night."; "Rivers rose by morning.";
     "Roads reopened at noon."] = ""
  \/ 10 < String.length
            (join (nl ++ nl)
               ["Storm hits coast"; "Rain fell all night.";
                "Rivers rose by morning."; "Roads reopened at noon."]).
Proof.
  apply (@strip_html_basic_empty_or_long storm_dom storm_page). reflexivity.
Defined.

Lemma find_container_first_witness :
  exists before selector after,
    content_selectors = (before ++ selector :: after)%list
    /\ css_first storm_dom
         (Element ["body"] "" ("<body>" ++ storm_article ++ "</body>") []
          :: storm_elements) selector
       = Ok (Some (Element ["article"] "" storm_article []))
    /\ forall s, In s before ->
         css_first storm_dom
           (Element ["body"] "" ("<body>" ++ storm_article ++ "</body>") []
            :: storm_elements) s = Ok None.
Proof.
  apply (@find_container_first storm_dom quiet). reflexivity.
Defined.

End PipelineMore.

(* ------------------------------------------------------------------ *)
(** ** The loops of the pipeline *)

Module PipelineLoops.
Import Text Re Pipeline TextSpec TextFacts WhitespaceFacts PipelineFacts
  PipelineMore.

Section WithDom.

Variable D : dom.
Variable print : notice -> outcome unit.
Variable post_chat : prompt -> string -> reply.

Local Abbreviation strip_html_basic := (strip_html_basic D).
Local Abbreviation clean_chunks := (clean_chunks D print post_chat).
Local Abbreviation gpt_summary := (gpt_summary print post_chat).

(** X22: [gpt_clean] makes one output of every chunk, in the order of the
    chunks: the stripped answer of the model when the status is 200 and
    that answer is not empty, the basic text of the chunk otherwise. *)
Theorem clean_chunks_one_per_chunk total idx chunks outputs res :
  clean_chunks total idx chunks outputs = Ok res ->
  exists added,
    res = (outputs ++ added)%list
    /\ Forall2
         (fun chunk out =>
            (exists answer,
               post_chat CLEANING_PROMPT chunk = Reply 200 (Ok answer)
               /\ out = strip answer /\ out <> "")
            \/ ((forall answer,
                   post_chat CLEANING_PROMPT chunk = Reply 200 (Ok answer) ->
                   strip answer = "")
                /\ strip_html_basic chunk = Ok out))
         chunks added.
Proof.
  revert idx outputs. induction chunks as [| chunk rest IH];
    intros idx outputs; cbn [Pipeline.clean_chunks].
  - intros [= <-]. exists []. rewrite app_nil_r. split; [reflexivity | constructor].
  - destruct (print (CleaningChunk _ _)); cbn [bind]; [| discriminate].
    destruct (post_chat CLEANING_PROMPT chunk) as [| code content] eqn:Hpost;
      [discriminate |].
    assert (Hfallback :
              (forall answer, Reply code content = Reply 200 (Ok answer) ->
                              strip answer = "") ->
              (fallback <- strip_html_basic chunk ;;
               clean_chunks total (S idx) rest (outputs ++ [fallback]))
              = Ok res ->
              exists added,
                res = (outputs ++ added)%list
                /\ Forall2
                     (fun chunk out =>
                        (exists answer,
                           post_chat CLEANING_PROMPT chunk
                           = Reply 200 (Ok answer)
                           /\ out = strip answer /\ out <> "")
                        \/ ((forall answer,
                               post_chat CLEANING_PROMPT chunk
                               = Reply 200 (Ok answer) ->
                               strip answer = "")
                            /\ strip_html_basic chunk = Ok out))
                     (chunk :: rest) added).
    { intros Hempty.
      destruct (strip_html_basic chunk) as [fallback |] eqn:Hbasic;
        cbn [bind]; [| discriminate].
      intros H. destruct (IH _ _ H) as (added & -> & Hall).
      exists (fallback :: added). rewrite <- app_assoc. split; [reflexivity |].
      constructor; [| exact Hall]. right. rewrite Hpost. auto. }
    destruct (code =? 200)%Z eqn:Hcode; cbn [negb].
    + apply Z.eqb_eq in Hcode. subst code.
      destruct content as [answer |]; cbn [bind]; [| discriminate].
      destruct (nonempty (strip answer)) eqn:Hne.
      * intros H. destruct (IH _ _ H) as (added & -> & Hall).
        exists (strip answer :: added). rewrite <- app_assoc.
        split; [reflexivity |].
        constructor; [| exact Hall]. left. exists answer.
        split; [exact Hpost | split; [reflexivity |]].
        destruct (strip answer); [discriminate | discriminate].
      * destruct (print ChunkEmpty); cbn [bind]; [| discriminate].
        apply Hfallback. intros answer' [= <-].
        destruct (strip answer); [reflexivity | discriminate].
    + destruct (print ChunkFailed); cbn [bind]; [| discriminate].
      apply Hfallback. intros answer [= -> _]. discriminate.
Qed.

(** X23: [gpt_summary] raises only in its handler: its [try] block has
    failed (the request raised, the answer could not be read, or the
    message for a status other than 200 could not be printed) and the
    [print] of the handler raised in turn; so it returns a string whenever
    that message can be printed.  What it returns has no white space at
    either end, and is empty unless the model, asked with the first 4000
    characters of the text, answered with status 200, in which case it is
    the stripped answer. *)
Theorem gpt_summary_result text :
  (print SummaryError = Ok tt -> exists summary, gpt_summary text = Ok summary)
  /\ (gpt_summary text = Raised ->
      print SummaryError = Raised
      /\ (post_chat SUMMARY_PROMPT (take 4000 text) = PostFailed
          \/ post_chat SUMMARY_PROMPT (take 4000 text) = Reply 200 Raised
          \/ exists code content,
               post_chat SUMMARY_PROMPT (take 4000 text) = Reply code content
               /\ code <> 200%Z /\ print SummaryFailed = Raised))
  /\ (forall summary,
        gpt_summary text = Ok summary ->
        strip summary = summary
        /\ (summary <> "" ->
            exists answer,
              post_chat SUMMARY_PROMPT (take 4000 text) = Reply 200 (Ok answer)
              /\ summary = strip answer)).
Proof.
  split; [apply gpt_summary_total |].
  unfold Pipeline.gpt_summary. change (40 * 100) with 4000.
  destruct (post_chat SUMMARY_PROMPT (take 4000 text)) as [| code content];
    cbn [try_catch].
  - destruct (print SummaryError) as [[] |]; cbn [bind]; split.
    + discriminate.
    + intros summary [= <-]. split; [reflexivity | congruence].
    + auto.
    + discriminate.
  - destruct (code =? 200)%Z eqn:Hcode; cbn [negb].
    + apply Z.eqb_eq in Hcode. subst code.
      destruct content as [answer |]; cbn [bind try_catch].
      * split; [discriminate |].
        intros summary [= <-]. split; [apply strip_idempotent | eauto].
      * destruct (print SummaryError) as [[] |]; cbn [bind]; split.
        -- discriminate.
        -- intros summary [= <-]. split; [reflexivity | congruence].
        -- auto.
        -- discriminate.
    + apply Z.eqb_neq in Hcode.
      destruct (print SummaryFailed) as [[] |] eqn:Hfailed;
        cbn [bind try_catch].
      * split; [discriminate |].
        intros summary [= <-]. split; [reflexivity | congruence].
      * destruct (print SummaryError) as [[] |]; cbn [bind]; split.
        -- discriminate.
        -- intros summary [= <-]. split; [reflexivity | congruence].
        -- intros _. split; [reflexivity |]. right. right. eauto.
        -- discriminate.
Qed.

(** The texts [manual_clean] keeps of the elements of one selector come
    after the parts collected before, in the order of the elements. *)
Lemma kept_texts_appends elems parts res :
  kept_texts D elems parts = Ok res ->
  exists texts,
    Forall2 (fun elem text => text_strip D elem = Ok text) elems texts
    /\ res = (parts ++ filter keep_text texts)%list.
Proof.
  revert parts. induction elems as [| elem rest IH]; intros parts;
    cbn [kept_texts].
  - intros [= <-]. exists []. rewrite app_nil_r. split; [constructor | reflexivity].
  - destruct (text_strip D elem) as [text |] eqn:Htext; cbn [bind];
      [| discriminate].
    destruct (keep_text text) eqn:Hkeep; intros H;
      destruct (IH _ H) as (texts & Hall & ->);
      exists (text :: texts); cbn [filter]; rewrite Hkeep;
      (split; [constructor; assumption |]).
    + now rewrite <- app_assoc.
    + reflexivity.
Qed.

(** X24: the parts [manual_clean] joins are grouped by tag, not in the
    order of the document: after the parts it starts from come the kept
    texts of all [p] elements, then those of all [h2] elements, and so on
    through the list of selectors. *)
Theorem content_parts_grouped t selectors parts res :
  content_parts D t selectors parts = Ok res ->
  exists groups,
    Forall2
      (fun selector group =>
         exists elems texts,
           css D t selector = Ok elems
           /\ Forall2 (fun elem text => text_strip D elem = Ok text)
                elems texts
           /\ group = filter keep_text texts)
      selectors groups
    /\ res = (parts ++ List.concat groups)%list.
Proof.
  revert parts. induction selectors as [| selector rest IH]; intros parts;
    cbn [content_parts].
  - intros [= <-]. exists []. cbn [List.concat]. rewrite app_nil_r.
    split; [constructor | reflexivity].
  - destruct (css D t selector) as [elems |] eqn:Hcss; cbn [bind];
      [| discriminate].
    destruct (kept_texts D elems parts) as [parts' |] eqn:Hkept; cbn [bind];
      [| discriminate].
    destruct (kept_texts_appends _ _ Hkept) as (texts & Htexts & ->).
    intros H. destruct (IH _ H) as (groups & Hgroups & ->).
    exists (filter keep_text texts :: groups). split.
    + constructor; [| exact Hgroups]. exists elems, texts. auto.
    + cbn [List.concat]. now rewrite <- app_assoc.
Qed.

End WithDom.

Import Sample.

Lemma clean_chunks_one_per_chunk_witness :
  exists added,
    [text50; text50] = ([] ++ added)%list
    /\ Forall2
         (fun chunk out =>
            (exists answer,
               canned (" " ++ text50) CLEANING_PROMPT chunk
               = Reply 200 (Ok answer)
               /\ out = strip answer /\ out <> "")
            \/ ((forall answer,
                   canned (" " ++ text50) CLEANING_PROMPT chunk
                   = Reply 200 (Ok answer) ->
                   strip answer = "")
                /\ strip_html_basic storm_dom chunk = Ok out))
         ["<p>first</p>"; "<p>second</p>"] added.
Proof.
  apply (@clean_chunks_one_per_chunk storm_dom quiet (canned (" " ++ text50))
           2 0 ["<p>first</p>"; "<p>second</p>"] [] [text50; text50]).
  reflexivity.
Defined.

Lemma gpt_summary_result_witness :
  plain_console SummaryError = Raised
  /\ (offline SUMMARY_PROMPT (take 4000 text50) = PostFailed
      \/ offline SUMMARY_PROMPT (take 4000 text50) = Reply 200 Raised
      \/ exists code content,
           offline SUMMARY_PROMPT (take 4000 text50) = Reply code content
           /\ code <> 200%Z /\ plain_console SummaryFailed = Raised).
Proof.
  apply (proj1 (proj2 (@gpt_summary_result plain_console offline text50))).
  reflexivity.
Defined.

Lemma content_parts_grouped_witness :
  exists groups,
    Forall2
      (fun selector group =>
         exists elems texts,
           css storm_dom mixed_elements selector = Ok elems
           /\ Forall2 (fun elem text => text_strip storm_dom elem = Ok text)
                elems texts
           /\ group = filter keep_text texts)
      content_tags groups
    /\ ["Rain fell all night."; "Roads reopened at noon.";
        "Forecast for the week"; "What comes next"]
       = ([] ++ List.concat groups)%list.
Proof.
  apply (@content_parts_grouped storm_dom mixed_elements content_tags []
           ["Rain fell all night."; "Roads reopened at noon.";
            "Forecast for the week"; "What comes next"]).
  reflexivity.
Defined.

End PipelineLoops.

(* ------------------------------------------------------------------ *)
(** ** More facts about metadata extraction *)

Module MetadataMore.
Import Text Metadata MetadataSpec MetadataFacts.

(** X8: for a list of author objects whose names, where present, are
    strings, the author is the names in order with a comma and a space
    between them; objects without a name are passed over. *)
Theorem author_list_joined fields authors :
  get_field "author" fields = Some (JArr (map JObj authors)) ->
  forallb name_is_text authors = true ->
  author_of_data (JObj fields)
  = Ok (Some (JStr (join ", " (flat_map name_of authors)))).
Proof.
  intros Hauthor Hall. cbn [author_of_data]. rewrite Hauthor.
  assert (Hnames : author_names (map JObj authors)
                   = Ok (flat_map name_of authors)).
  { clear Hauthor.
    induction authors as [| f fs IH]; cbn [map author_names flat_map].
    - reflexivity.
    - cbn [forallb] in Hall. apply andb_prop in Hall as [Hf Hfs].
      rewrite (IH Hfs). unfold name_is_text in Hf. unfold name_of.
      cbn [py_in py_get bind].
      destruct (get_field "name" f) as [[| | | name | |] |]; try discriminate;
        reflexivity. }
  rewrite Hnames. reflexivity.
Qed.

Lemma author_list_joined_witness :
  author_of_data
    (JObj [("author",
            JArr [JObj [("name", JStr "Jane Doe")];
                  JObj [("url", JStr "http://s.com/staff")];
                  JObj [("name", JStr "John Roe")];
                  JObj [("name", JStr "Ann Poe")]])])
  = Ok (Some (JStr "Jane Doe, John Roe, Ann Poe")).
Proof.
  apply (@author_list_joined
           [("author",
             JArr [JObj [("name", JStr "Jane Doe")];
                   JObj [("url", JStr "http://s.com/staff")];
                   JObj [("name", JStr "John Roe")];
                   JObj [("name", JStr "Ann Poe")]])]
           [[("name", JStr "Jane Doe")]; [("url", JStr "http://s.com/staff")];
            [("name", JStr "John Roe")]; [("name", JStr "Ann Poe")]]);
    reflexivity.
Defined.

Section WithDom.

Variable D : dom.
Variable json_loads : string -> outcome json.
Variable datetime : Type.
Variable fromisoformat : string -> outcome datetime.
Variable utcnow : datetime.

Local Abbreviation script_author := (script_author D json_loads).
Local Abbreviation resolve_author := (resolve_author D json_loads).

(** X9: a JSON-LD script assigns no author when its text is not JSON, when
    its data is not an object or has no [author] key, when the author is a
    string, a number, a truth value or null, and when the author is a list
    with an element that is one of these last or an object whose name is
    not a string. *)
Theorem script_without_author n :
  (text_strip D n = Raised
   \/ exists s, text_strip D n = Ok s
        /\ (json_loads s = Raised
            \/ exists data, json_loads s = Ok data
                 /\ ((forall fields, data <> JObj fields)
                     \/ exists fields, data = JObj fields
                          /\ (get_field "author" fields = None
                              \/ (exists v, get_field "author" fields = Some v
                                            /\ scalar v = true)
                              \/ (exists before bad after,
                                    get_field "author" fields
                                    = Some (JArr (map JObj before
                                                  ++ bad :: after))
                                    /\ forallb name_is_text before = true
                                    /\ (match bad with
                                        | JObj f => name_is_text f = false
                                        | JNull | JBool _ | JNum _ => True
                                        | _ => False
                                        end))))))
  -> script_author n = None.
Proof.
  unfold Metadata.script_author.
  intros [-> | (s & -> & Hs)]; cbn [bind try_catch]; [reflexivity |].
  destruct Hs as [-> | (data & -> & Hdata)]; cbn [bind try_catch];
    [reflexivity |].
  destruct Hdata as [Hshape | (fields & -> & Hfields)].
  - destruct data; try reflexivity. now destruct (Hshape fields).
  - cbn [author_of_data].
    destruct Hfields as [-> | [(v & -> & Hv) | (before & bad & after & -> & Hb & Hbad)]].
    + reflexivity.
    + destruct v; try discriminate; reflexivity.
    + assert (Hnames : author_names (map JObj before ++ bad :: after) = Raised).
      { induction before as [| f fs IH]; cbn [map app author_names].
        - destruct bad as [| | | | | f]; try contradiction; try reflexivity.
          unfold name_is_text in Hbad. cbn [py_in py_get bind].
          destruct (get_field "name" f) as [[| | | name | |] |];
            try discriminate; reflexivity.
        - cbn [forallb] in Hb. apply andb_prop in Hb as [Hf Hfs].
          rewrite (IH Hfs). unfold name_is_text in Hf. cbn [py_in py_get bind].
          destruct (get_field "name" f) as [[| | | name | |] |];
            try discriminate; reflexivity. }
      rewrite Hnames. reflexivity.
Qed.

(** X10: when no JSON-LD script assigns an author, the author is the
    content of the author meta tag if that is a non-empty text, whatever
    the byline says; with no such tag, or an empty one, it is the text of
    the byline element with every [By ] taken out, and the empty string
    when there is no byline either. *)
Theorem author_fallbacks t scripts :
  css D t "script[type='application/ld+json']" = Ok scripts ->
  (forall n, In n scripts -> script_author n = None) ->
  (forall m s,
     css_first D t "meta[name='author']" = Ok (Some m) ->
     attribute D m "content" = Some (Some s) -> s <> "" ->
     resolve_author t = Ok (JStr s))
  /\ ((css_first D t "meta[name='author']" = Ok None
       \/ exists m, css_first D t "meta[name='author']" = Ok (Some m)
                    /\ (attribute D m "content" = None
                        \/ attribute D m "content" = Some None
                        \/ attribute D m "content" = Some (Some ""))) ->
      (forall b s,
         css_first D t ".byline, .author, .post-author" = Ok (Some b) ->
         text_strip D b = Ok s ->
         resolve_author t = Ok (JStr (replace "By " "" s)))
      /\ (css_first D t ".byline, .author, .post-author" = Ok None ->
          exists v, resolve_author t = Ok v /\ truthy v = false)).
Proof.
  intros Hcss Hsilent.
  assert (Hloop : jsonld_author D json_loads scripts (JStr "") = JStr "")
    by now apply jsonld_author_silent.
  unfold Metadata.resolve_author. rewrite Hcss. cbn [bind]. rewrite Hloop.
  cbn [truthy nonempty]. split.
  - intros m s Hm Hs Hne. rewrite Hm. cbn [bind].
    unfold content_attr. rewrite Hs.
    destruct s; [congruence | reflexivity].
  - intros Hmeta.
    assert (Hfalsy : exists v,
              (meta_author <- css_first D t "meta[name='author']" ;;
               match meta_author with
               | Some n => Ok (content_attr D n)
               | None => Ok (JStr "")
               end) = Ok v /\ truthy v = false).
    { destruct Hmeta as [-> | (m & -> & [Ha | [Ha | Ha]])]; cbn [bind];
        unfold content_attr; try rewrite Ha; eauto. }
    destruct Hfalsy as (v & -> & Hv). cbn [bind]. rewrite Hv. split.
    + intros b s Hb Hs. rewrite Hb. cbn [bind]. rewrite Hs. reflexivity.
    + intros Hb. rewrite Hb. cbn [bind]. eauto.
Qed.

(** X11: the title that [extract_metadata] resolves is never empty: it is
    the content of the [og:title] tag, or else the text of the first
    heading, or else [Untitled]. *)
Theorem title_never_empty t title :
  resolve_title D t = Ok title ->
  truthy title = true
  /\ ((exists og s, css_first D t "meta[property='og:title']" = Ok (Some og)
                    /\ attribute D og "content" = Some (Some s)
                    /\ title = JStr s)
      \/ (exists h s, css_first D t "h1" = Ok (Some h)
                      /\ text_strip D h = Ok s /\ title = JStr s)
      \/ title = JStr "Untitled").
Proof.
  unfold resolve_title.
  destruct (css_first D t "meta[property='og:title']") as [og |] eqn:Hog;
    cbn [bind]; [| discriminate].
  set (first := match og with Some n => content_attr D n | None => JStr "" end).
  destruct (truthy first) eqn:Hfirst; cbn [bind].
  - rewrite Hfirst. intros [= <-]. split; [assumption |]. left.
    subst first. destruct og as [n |]; [| discriminate].
    unfold content_attr in *.
    destruct (attribute D n "content") as [[s |] |] eqn:Ha; try discriminate.
    exists n, s. auto.
  - destruct (css_first D t "h1") as [[h |] |] eqn:Hh; cbn [bind];
      [| | discriminate].
    + destruct (text_strip D h) as [s |] eqn:Hs; cbn [bind]; [| discriminate].
      destruct (truthy (JStr s)) eqn:Htruthy; intros [= <-].
      * split; [assumption |]. right. left. exists h, s. auto.
      * split; [reflexivity | auto].
    + rewrite Hfirst. intros [= <-]. split; [reflexivity | auto].
Qed.

(** X12: the publication time is what [fromisoformat] makes of the content
    of the [article:published_time] tag; when the tag is missing or empty,
    or its content does not parse, it is the current time, and no
    exception is raised. *)
Theorem published_or_now t :
  (forall m s d,
     css_first D t "meta[property='article:published_time']" = Ok (Some m) ->
     attribute D m "content" = Some (Some s) -> s <> "" ->
     (fromisoformat s = Ok d ->
      resolve_published D fromisoformat utcnow t = Ok d)
     /\ (fromisoformat s = Raised ->
         resolve_published D fromisoformat utcnow t = Ok utcnow))
  /\ ((css_first D t "meta[property='article:published_time']" = Ok None
       \/ exists m,
            css_first D t "meta[property='article:published_time']"
            = Ok (Some m)
            /\ (attribute D m "content" = None
                \/ attribute D m "content" = Some None
                \/ attribute D m "content" = Some (Some ""))) ->
      resolve_published D fromisoformat utcnow t = Ok utcnow).
Proof.
  unfold resolve_published. split.
  - intros m s d Hm Hs Hne. rewrite Hm. cbn [bind].
    unfold content_attr. rewrite Hs.
    assert (Ht : truthy (JStr s) = true) by (destruct s; [congruence | reflexivity]).
    rewrite Ht. split; intros ->; reflexivity.
  - intros [-> | (m & -> & [Ha | [Ha | Ha]])]; cbn [bind];
      unfold content_attr; try rewrite Ha; reflexivity.
Qed.

End WithDom.

Import Sample.

Lemma script_without_author_witness :
  Metadata.script_author byline_dom json_loads
    (Element ["script[type='application/ld+json']"] "{not json" "" [])
  = None.
Proof.
  apply (@script_without_author byline_dom json_loads).
  right. exists "{not json". split; [reflexivity |]. left. reflexivity.
Defined.

Lemma author_fallbacks_witness :
  Metadata.resolve_author byline_dom json_loads
    (List.tl (byline_elements one_author_text))
  = Ok (JStr "Site Staff").
Proof.
  destruct (@author_fallbacks byline_dom json_loads
              (List.tl (byline_elements one_author_text)) []
              eq_refl (fun n (H : In n []) => match H with end))
    as [Hmeta _].
  apply (Hmeta (Element ["meta[name='author']"; "meta"] ""
                  "<meta name='author' content='Site Staff'>"
                  [("name", Some "author"); ("content", Some "Site Staff")])
               "Site Staff"); [reflexivity | reflexivity | discriminate].
Defined.

Lemma title_never_empty_witness :
  truthy (JStr "Untitled") = true
  /\ ((exists og s,
         css_first byline_dom (byline_elements one_author_text)
           "meta[property='og:title']" = Ok (Some og)
         /\ attribute byline_dom og "content" = Some (Some s)
         /\ JStr "Untitled" = JStr s)
      \/ (exists h s,
            css_first byline_dom (byline_elements one_author_text) "h1"
            = Ok (Some h)
            /\ text_strip byline_dom h = Ok s /\ JStr "Untitled" = JStr s)
      \/ JStr "Untitled" = JStr "Untitled").
Proof.
  apply (@title_never_empty byline_dom (byline_elements one_author_text)).
  reflexivity.
Defined.

Lemma published_or_now_witness :
  resolve_published byline_dom fromisoformat utcnow
    (byline_elements one_author_text)
  = Ok utcnow.
Proof.
  apply (proj2 (@published_or_now byline_dom string fromisoformat utcnow
                  (byline_elements one_author_text))).
  left. reflexivity.
Defined.

End MetadataMore.

(* ------------------------------------------------------------------ *)
(** ** URL patterns that are plain words *)

Module PatternFacts.
Import Text Re Discovery PatternSpec WhitespaceFacts.

(** What a literal pattern does at one position. *)
Lemma exec_lit fl p prev s k :
  (forall p1 p2 rest, k p1 rest = k p2 rest) ->
  exec fl (lit p) prev s k
  = if (if IGNORECASE fl then prefix (lower p) (lower s) else prefix p s)
    then k None (drop (String.length p) s) else None.
Proof.
  intros Hk. revert prev s.
  induction p as [| c p IH]; intros prev s.
  - cbn [lit exec lower String.length drop]. destruct (IGNORECASE fl);
      cbn [prefix]; destruct s; apply Hk.
  - assert (Hprefix : forall (x y : ascii) (u v : string),
              prefix (String x u) (String y v)
              = if Ascii.eqb x y then prefix u v else false).
    { intros x y u v. cbn [prefix].
      destruct (ascii_dec x y) as [-> | Hne].
      - now rewrite Ascii.eqb_refl.
      - apply Ascii.eqb_neq in Hne. now rewrite Hne. }
    destruct p as [| c' p'].
    + cbn [lit exec].
      destruct s as [| a s'].
      * cbn [lower]. destruct (IGNORECASE fl); reflexivity.
      * cbn [lower String.length drop]. rewrite !Hprefix. unfold chr_match.
        destruct (IGNORECASE fl); destruct (Ascii.eqb _ _);
          cbn [prefix]; try reflexivity; destruct s'; apply Hk.
    + change (lit (String c (String c' p')))
        with (Cat (Chr c) (lit (String c' p'))).
      cbn [exec].
      destruct s as [| a s'].
      * cbn [lower]. destruct (IGNORECASE fl); reflexivity.
      * rewrite IH.
        change (lower (String c (String c' p')))
          with (String (lower_char c) (lower (String c' p'))).
        change (lower (String a s')) with (String (lower_char a) (lower s')).
        rewrite !Hprefix.
        change (drop (String.length (String c (String c' p'))) (String a s'))
          with (drop (String.length (String c' p')) s').
        unfold chr_match.
        destruct (IGNORECASE fl); destruct (Ascii.eqb _ _); reflexivity.
Qed.

(** Searching for a literal pattern is a substring test, on the
    lower-cased pattern and subject under [re.I]. *)
Lemma search_lit fl p s :
  search fl (lit p) s
  = if IGNORECASE fl then contains (lower p) (lower s) else contains p s.
Proof.
  unfold search. generalize (@None ascii) as prev.
  induction s as [| a s IH]; intros prev.
  - cbn [search_from]. unfold match_at.
    rewrite exec_lit by reflexivity. unfold accept.
    cbn [lower].
    rewrite (DiscoveryFacts.contains_unfold (lower p) ""),
      (DiscoveryFacts.contains_unfold p "").
    destruct (IGNORECASE fl); destruct (prefix _ _); reflexivity.
  - cbn [search_from]. unfold match_at.
    rewrite exec_lit by reflexivity. unfold accept.
    rewrite IH.
    rewrite (DiscoveryFacts.contains_unfold (lower p) (lower (String a s))),
      (DiscoveryFacts.contains_unfold p (String a s)).
    cbn [lower].
    destruct (IGNORECASE fl); destruct (prefix _ _); reflexivity.
Qed.

Lemma search_from_later fl r prev pre x :
  (forall q, match_at fl r q x <> None) ->
  search_from fl r prev (pre ++ x) = true.
Proof.
  intros Hx. revert prev. induction pre as [| a pre IH]; intros prev.
  - cbn [append]. specialize (Hx prev).
    destruct x; cbn [search_from]; destruct (match_at fl r prev _);
      congruence.
  - cbn [append search_from].
    destruct (match_at fl r prev _); [reflexivity | apply IH].
Qed.

Lemma prefix_app p s : prefix p (p ++ s) = true.
Proof.
  induction p as [| c p IH]; cbn [append prefix].
  - destruct s; reflexivity.
  - destruct (ascii_dec c c); [exact IH | congruence].
Qed.

Lemma lower_app s1 s2 : lower (s1 ++ s2) = lower s1 ++ lower s2.
Proof. induction s1 as [| c s1 IH]; cbn [append lower]; congruence. Qed.

Lemma drop_app p s : drop (String.length p) (p ++ s) = s.
Proof.
  induction p as [| c p IH]; cbn [append String.length drop].
  - destruct s; reflexivity.
  - exact IH.
Qed.

Lemma section_re_matches q name tail :
  tail = "" \/ tail = "/" ->
  match_at flag_I (section_re name) q (name ++ tail) <> None.
Proof.
  intros Htail. unfold match_at, section_re.
  change (cats [lit name; opt (lit "/"); Eol])
    with (Cat (lit name) (Cat (opt (lit "/")) Eol)).
  cbn [exec]. rewrite exec_lit by reflexivity.
  cbn [IGNORECASE flag_I]. rewrite lower_app, prefix_app, drop_app.
  destruct Htail as [-> | ->]; vm_compute; discriminate.
Qed.

(** X25: the hard-exclusion patterns that are plain words are substring
    tests without regard to letter case: a link that contains [?share=],
    [#respond], [#comment] or [/author/], in any letter case, is
    hard-excluded. *)
Theorem literal_patterns_exclude link word :
  In word excluded_substrings ->
  contains word (lower link) = true ->
  hard_excluded link = true.
Proof.
  intros Hword Hcontains.
  unfold hard_excluded, any_search_I. apply existsb_exists.
  exists (lit word). split.
  - unfold excluded_substrings in Hword. unfold hard_exclude_patterns.
    cbn [In] in *. intuition (subst; auto).
  - rewrite search_lit. cbn [IGNORECASE flag_I].
    assert (Hlower : lower word = word).
    { unfold excluded_substrings in Hword. cbn [In] in Hword.
      intuition (subst; reflexivity). }
    now rewrite Hlower.
Qed.

Lemma literal_patterns_exclude_witness :
  hard_excluded "http://s.com/Author/Bob" = true.
Proof.
  apply (@literal_patterns_exclude "http://s.com/Author/Bob" "/author/");
    [cbn; tauto | reflexivity].
Defined.

(** X26: a link that ends in one of the section names of the
    soft-exclusion list, or in such a name and a slash, is a section page,
    whatever comes before the name, a dated article path included. *)
Theorem named_sections_are_section_pages pre name :
  In name section_names ->
  is_section_page (pre ++ name) = true
  /\ is_section_page (pre ++ name ++ "/") = true.
Proof.
  intros Hname.
  assert (Hpattern : In (section_re name) soft_exclude_patterns).
  { unfold section_names in Hname. unfold soft_exclude_patterns.
    cbn [In] in *. intuition (subst; auto 25). }
  unfold is_section_page, any_search_I. split; apply existsb_exists;
    exists (section_re name); (split; [exact Hpattern |]); unfold search.
  - rewrite <- (append_nil_r name) at 2.
    apply search_from_later. intros q. apply section_re_matches. auto.
  - apply search_from_later. intros q. apply section_re_matches. auto.
Qed.

Lemma named_sections_are_section_pages_witness :
  is_section_page "http://s.com/story/2024/01/26/tech" = true
  /\ is_section_page "http://s.com/story/2024/01/26/tech/" = true
  /\ is_article "http://s.com/story/2024/01/26/tech" = true.
Proof.
  destruct (@named_sections_are_section_pages
              "http://s.com/story/2024/01/26" "/tech") as [H1 H2];
    [cbn; tauto |].
  split; [exact H1 | split; [exact H2 | reflexivity]].
Defined.

End PatternFacts.

(* ------------------------------------------------------------------ *)
(** ** More facts about discovery *)

Module DiscoveryMore.
Import Text Re Discovery DiscoverySpec FrontierSpec DiscoveryFacts.

Lemma enqueues_app t1 t2 :
  enqueues (t1 ++ t2) = (enqueues t1 ++ enqueues t2)%list.
Proof.
  induction t1 as [| [u | u | u] t1 IH]; cbn [app enqueues];
    rewrite ?IH; reflexivity.
Qed.

Lemma first_occurrences_snoc l u :
  first_occurrences (l ++ [u]) = PySet.add u (first_occurrences l).
Proof. unfold first_occurrences. rewrite fold_left_app. reflexivity. Qed.

Lemma In_firstn (A : Type) (n : nat) (l : list A) x :
  In x (firstn n l) -> In x l.
Proof.
  revert l. induction n as [| n IH]; intros [| a l]; cbn [firstn In];
    try tauto.
  intros [H | H]; auto.
Qed.

Lemma In_slice_to (A : Type) (l : list A) (stop : Z) x :
  In x (slice_to l stop) -> In x l.
Proof. unfold slice_to. destruct (0 <=? stop)%Z; apply In_firstn. Qed.

Lemma slice_to_nil (A : Type) (stop : Z) : slice_to (@nil A) stop = [].
Proof. unfold slice_to. destruct (0 <=? stop)%Z; apply firstn_nil. Qed.

Section Loop.

Variable anchors_href : string -> outcome (list (option string)).
Variable urljoin : string -> string -> outcome string.
Variable urlparse : string -> outcome url_parts.
Variable set_order : list string -> list string.
Variable http_get : string -> response.
Variable domain : string.
Variable max_pages max_articles : Z.

Local Abbreviation process_link := (process_link urlparse domain max_articles).
Local Abbreviation for_links := (for_links urlparse domain max_articles).
Local Abbreviation visit :=
  (visit anchors_href urljoin urlparse set_order http_get domain max_articles).
Local Abbreviation discover_loop :=
  (fun fuel => discover_loop anchors_href urljoin urlparse set_order http_get
                 fuel domain max_pages max_articles).
Local Abbreviation has_host := (has_host urlparse domain).
Local Abbreviation confined := (confined urlparse domain).

(** A property of the frontier that the loop body keeps is kept by the
    loop over the links of a page, *)
Lemma for_links_preserves (P : frontier -> Prop) :
  (forall st link, P st -> P (fst (process_link st link))) ->
  forall links st, P st -> P (fst (for_links links st)).
Proof.
  intros Hstep links.
  induction links as [| link rest IH]; intros st HP; cbn [Discovery.for_links].
  - exact HP.
  - specialize (Hstep st link HP).
    destruct (process_link st link) as [st' []]; cbn [fst] in *; auto.
Qed.

(** by one visit, *)
Lemma visit_preserves (P : frontier -> Prop) url rest st :
  P (Frontier (visited st ++ [url]) rest (article_urls st)
              (trace st ++ [Visit url])) ->
  (forall st link, P st -> P (fst (process_link st link))) ->
  P (visit url rest st).
Proof.
  intros Hmark Hstep. unfold Discovery.visit.
  destruct (http_get url) as [| code html]; [exact Hmark |].
  destruct (negb (code =? 200)%Z); [exact Hmark |].
  destruct (extract_article_links _ _ _ _ html url); [| exact Hmark].
  now apply for_links_preserves.
Qed.

(** and by the whole [while] loop. *)
Lemma discover_loop_preserves (P : frontier -> Prop) :
  (forall st url rest,
     P st -> queue st = url :: rest -> PySet.mem url (visited st) = true ->
     P (Frontier (visited st) rest (article_urls st) (trace st))) ->
  (forall st url rest,
     P st -> queue st = url :: rest -> PySet.mem url (visited st) = false ->
     P (Frontier (visited st ++ [url]) rest (article_urls st)
                 (trace st ++ [Visit url]))) ->
  (forall st link, P st -> P (fst (process_link st link))) ->
  forall fuel st st', P st -> discover_loop fuel st = Some st' -> P st'.
Proof.
  intros Hskip Hmark Hstep fuel.
  induction fuel as [| fuel IH]; intros st st' HP; cbn [Discovery.discover_loop].
  - destruct (loop_test max_pages max_articles st); [discriminate |].
    now intros [= <-].
  - destruct (loop_test max_pages max_articles st); [| now intros [= <-]].
    destruct (queue st) as [| url rest] eqn:Hq; [now intros [= <-] |].
    destruct (PySet.mem url (visited st)) eqn:Hmem.
    + apply IH. now apply Hskip with url.
    + apply IH. apply visit_preserves; [| exact Hstep].
      now apply Hmark.
Qed.

(** The loop body checks the host of a link before it queues or collects
    it. *)
Lemma process_link_checks_host st link u :
  let st' := fst (process_link st link) in
  visited st' = visited st
  /\ (In u (queue st') -> In u (queue st) \/ (u = link /\ has_host link))
  /\ (In u (article_urls st') ->
      In u (article_urls st) \/ (u = link /\ has_host link)).
Proof.
  cbn zeta. unfold Discovery.process_link.
  destruct (urlparse link) as [p |] eqn:Hp; [| cbn; auto].
  destruct (netloc p =? domain)%string eqn:Hhost; cbn [negb]; [| cbn; auto].
  apply String.eqb_eq in Hhost.
  assert (Hlink : has_host link) by (exists p; auto).
  destruct (hard_excluded link); [cbn; auto |].
  set (st1 := if PySet.mem link (visited (see link st)) then see link st
              else enqueue link (see link st)).
  assert (H1 : visited st1 = visited st
               /\ (In u (queue st1) -> In u (queue st) \/ (u = link /\ has_host link))
               /\ article_urls st1 = article_urls st).
  { subst st1. destruct (PySet.mem link (visited (see link st)));
      cbn [see enqueue visited queue article_urls]; repeat split; auto.
    intros [H | [<- | []]]%in_app_iff; auto. }
  destruct H1 as (Hv & Hq & Ha).
  destruct (negb (is_section_page link)); [| cbn [fst]; rewrite Ha; auto].
  destruct (is_article link && negb (PySet.mem link (article_urls st1)));
    [| cbn [fst]; rewrite Ha; auto].
  assert (H2 : In u (article_urls (add_article link st1)) ->
               In u (article_urls st) \/ (u = link /\ has_host link)).
  { cbn [add_article article_urls]. rewrite add_In, Ha. intros [-> | H]; auto. }
  destruct (max_articles <=? len (article_urls (add_article link st1)))%Z;
    cbn [fst]; repeat split; auto.
Qed.

Lemma process_link_confined st link :
  confined st -> confined (fst (process_link st link)).
Proof.
  intros Hc u.
  destruct (process_link_checks_host st link u) as (Hv & Hq & Ha).
  rewrite Hv. intros [H | [H | H]].
  - destruct (Hq H) as [H' | [_ H']]; [apply Hc; auto | subst; auto].
    destruct (Hq H) as [H'' | [-> H'']]; [apply Hc; auto | exact H''].
  - apply Hc; auto.
  - destruct (Ha H) as [H' | [-> H']]; [apply Hc; auto | exact H'].
Qed.

Lemma discover_loop_confined fuel st st' :
  confined st -> discover_loop fuel st = Some st' -> confined st'.
Proof.
  apply discover_loop_preserves with (P := confined).
  - intros s url rest Hc Hq _ u. cbn [queue visited article_urls].
    intros [H | H]; apply Hc; [left; rewrite Hq; now right | now right].
  - intros s url rest Hc Hq _ u. cbn [queue visited article_urls].
    intros [H | [[H | [<- | []]]%in_app_iff | H]]; apply Hc; rewrite ?Hq;
      cbn [In]; auto.
  - apply process_link_confined.
Qed.

(** The loop body appends to the queue what it logs as enqueued. *)
Lemma process_link_fifo st link popped :
  fifo st popped -> fifo (fst (process_link st link)) popped.
Proof.
  intros [Henq Hvis].
  destruct (process_link st link) as [st' c] eqn:Hstep.
  destruct (process_link_cases _ _ _ _ _ Hstep) as (Hv & Hq & _).
  cbn [fst]. unfold fifo. rewrite Hv.
  destruct Hq as [[-> ->] | (_ & _ & _ & -> & ->)];
    rewrite enqueues_app, Henq; cbn [enqueues]; split; auto.
  - now rewrite app_nil_r.
  - now rewrite app_assoc.
Qed.

Lemma discover_loop_fifo fuel st st' :
  (exists popped, fifo st popped) -> discover_loop fuel st = Some st' ->
  exists popped, fifo st' popped.
Proof.
  apply discover_loop_preserves with (P := fun s => exists popped, fifo s popped).
  - intros s url rest [popped [Henq Hvis]] Hq Hmem.
    exists (popped ++ [url])%list. unfold fifo. cbn [trace queue visited].
    rewrite Henq, Hq, first_occurrences_snoc, <- Hvis, <- app_assoc.
    unfold PySet.add. rewrite Hmem. auto.
  - intros s url rest [popped [Henq Hvis]] Hq Hmem.
    exists (popped ++ [url])%list. unfold fifo. cbn [trace queue visited].
    rewrite enqueues_app, Henq, Hq, first_occurrences_snoc, <- Hvis.
    unfold PySet.add. rewrite Hmem. cbn [enqueues].
    rewrite app_nil_r, <- app_assoc. auto.
  - intros s link [popped H]. exists popped. now apply process_link_fifo.
Qed.

End Loop.

Lemma first_occurrences_In l u : In u (first_occurrences l) <-> In u l.
Proof.
  induction l as [| x l IH] using rev_ind.
  - reflexivity.
  - rewrite first_occurrences_snoc, add_In, in_app_iff, IH. cbn [In].
    intuition.
Qed.

Lemma first_occurrences_NoDup l : NoDup (first_occurrences l).
Proof.
  induction l as [| x l IH] using rev_ind.
  - constructor.
  - rewrite first_occurrences_snoc. now apply add_NoDup.
Qed.

Lemma loop_test_false max_pages max_articles st :
  loop_test max_pages max_articles st = false ->
  queue st = [] \/ (max_pages <= len (visited st))%Z
  \/ (max_articles <= len (article_urls st))%Z.
Proof.
  unfold loop_test. destruct (queue st); [auto |]. cbn [andb].
  intros [H | H]%andb_false_iff; apply Z.ltb_ge in H; auto.
Qed.

Section Links.

Variable anchors_href : string -> outcome (list (option string)).
Variable urljoin : string -> string -> outcome string.
Variable urlparse : string -> outcome url_parts.
Variable set_order : list string -> list string.

Local Abbreviation kept_link := (kept_link urljoin urlparse).

Lemma kept_link_later base_url h hrefs url :
  kept_link base_url (h :: hrefs) url ->
  (forall href, h = Some href -> href <> "" ->
                urljoin base_url href <> Ok url) ->
  kept_link base_url hrefs url.
Proof.
  intros ((href & [-> | Hin] & Hne & Hjoin) & Hhost & Hdeny) Hother.
  - now destruct (Hother href eq_refl Hne).
  - split; [exists href; auto | auto].
Qed.

Lemma collect_links_complete base_url hrefs links res :
  collect_links urljoin urlparse base_url hrefs links = Ok res ->
  (forall u, In u links -> In u res)
  /\ (forall u, kept_link base_url hrefs u -> In u res).
Proof.
  revert links.
  induction hrefs as [| [href |] rest IH]; intros links;
    cbn [Discovery.collect_links].
  - intros [= <-]. split; [auto |].
    now intros u ((href & [] & _) & _).
  - destruct (nonempty href) eqn:Hne; cbn [negb].
    + destruct (urljoin base_url href) as [url |] eqn:Hjoin; cbn [bind];
        [| discriminate].
      destruct (existsb (fun x => contains x (lower url)) link_denylist)
        eqn:Hdeny.
      * intros H. destruct (IH _ H) as [Hl Hk]. split; [exact Hl |].
        intros u Hu. apply Hk. apply kept_link_later with (Some href);
          [exact Hu |].
        intros href' [= <-] _ Heq. rewrite Hjoin in Heq.
        injection Heq as ->.
        destruct Hu as (_ & _ & Hclean).
        apply existsb_exists in Hdeny as (x & Hx & Hc).
        rewrite (Hclean x Hx) in Hc. discriminate.
      * destruct (urlparse url) as [pu |] eqn:Hpu; cbn [bind];
          [| discriminate].
        destruct (urlparse base_url) as [pb |] eqn:Hpb; cbn [bind];
          [| discriminate].
        destruct (netloc pu =? netloc pb)%string eqn:Hhost.
        -- intros H. destruct (IH _ H) as [Hl Hk]. split.
           ++ intros u Hu. apply Hl, add_In. auto.
           ++ intros u ((href' & [[= <-] | Hin] & Hne' & Hjoin') & Hrest).
              ** rewrite Hjoin in Hjoin'. injection Hjoin' as <-.
                 apply Hl, add_In. auto.
              ** apply Hk. split; [exists href'; auto | exact Hrest].
        -- intros H. destruct (IH _ H) as [Hl Hk]. split; [exact Hl |].
           intros u Hu. apply Hk. apply kept_link_later with (Some href);
             [exact Hu |].
           intros href' [= <-] _ Heq. rewrite Hjoin in Heq.
           injection Heq as ->.
           destruct Hu as (_ & (pu' & pb' & Hpu' & Hpb' & Heq) & _).
           rewrite Hpu in Hpu'. rewrite Hpb in Hpb'.
           injection Hpu' as <-. injection Hpb' as <-.
           apply String.eqb_neq in Hhost. contradiction.
    + intros H. destruct (IH _ H) as [Hl Hk]. split; [exact Hl |].
      intros u Hu. apply Hk. apply kept_link_later with (Some href);
        [exact Hu |].
      intros href' [= <-] Hnonempty _. destruct href; [congruence | discriminate].
  - intros H. destruct (IH _ H) as [Hl Hk]. split; [exact Hl |].
    intros u Hu. apply Hk. apply kept_link_later with None; [exact Hu |].
    discriminate.
Qed.

(** X13: the links [extract_article_links] returns are exactly the
    resolutions of the non-empty [href]s of the page that have the host of
    the page and contain, in lower case, no denylisted word: none of them
    is left out, and anchors without [href] or with an empty one give
    nothing. *)
Theorem extracted_links_exactly html base_url hrefs res :
  (forall l x, In x (set_order l) <-> In x l) ->
  anchors_href html = Ok hrefs ->
  extract_article_links anchors_href urljoin urlparse set_order html base_url
  = Ok res ->
  forall u, In u res <-> kept_link base_url hrefs u.
Proof.
  intros Horder Hhrefs. unfold Discovery.extract_article_links.
  rewrite Hhrefs. cbn [bind].
  destruct (collect_links urljoin urlparse base_url hrefs []) as [links |]
    eqn:Hlinks; cbn [bind]; [| discriminate].
  intros [= <-] u. rewrite Horder. split.
  - intros Hu.
    destruct (collect_links_spec _ _ _ _ _ Hlinks) as [_ Hsound].
    destruct (Hsound u Hu) as [[] | H]. exact H.
  - now apply collect_links_complete with (links := []).
Qed.

End Links.

Section Runs.

Variable anchors_href : string -> outcome (list (option string)).
Variable urljoin : string -> string -> outcome string.
Variable urlparse : string -> outcome url_parts.
Variable set_order : list string -> list string.
Variable http_get : string -> response.

Local Abbreviation discover_run :=
  (discover_run anchors_href urljoin urlparse set_order http_get).
Local Abbreviation discover_all_links :=
  (discover_all_links anchors_href urljoin urlparse set_order http_get).

Lemma discover_run_frontier fuel start_url max_pages max_articles st :
  discover_run fuel start_url max_pages max_articles = Some (Ok st) ->
  exists p, urlparse start_url = Ok p
            /\ confined urlparse (netloc p) st
            /\ exists popped, fifo st popped.
Proof.
  unfold Discovery.discover_run.
  destruct (urlparse start_url) as [p |] eqn:Hp; [| discriminate].
  destruct (discover_loop _ _ _ _ _ fuel (netloc p) max_pages max_articles
              (initial start_url)) as [st' |] eqn:Hloop; [| discriminate].
  intros [= <-]. exists p. split; [reflexivity | split].
  - eapply discover_loop_confined; [| exact Hloop].
    intros u [[<- | []] | [[] | []]]. exists p. auto.
  - eapply discover_loop_fifo; [| exact Hloop].
    exists []. split; reflexivity.
Qed.

Lemma discover_run_invariant fuel start_url max_pages max_articles st :
  discover_run fuel start_url max_pages max_articles = Some (Ok st) ->
  invariant start_url max_pages max_articles st.
Proof.
  unfold Discovery.discover_run.
  destruct (urlparse start_url) as [p |]; [| discriminate].
  destruct (discover_loop _ _ _ _ _ fuel (netloc p) max_pages max_articles
              (initial start_url)) as [st' |] eqn:Hloop; [| discriminate].
  intros [= <-].
  eapply discover_loop_invariant; [apply initial_invariant | exact Hloop].
Qed.

(** X14: discovery stops only when there is nothing left to fetch or a
    budget is used up exactly: at its end the queue is empty, or the
    number of visited pages is [max_pages], or the number of collected
    articles is [max_articles]. *)
Theorem discovery_stops_when_done start_url max_pages max_articles :
  (0 <= max_pages)%Z -> (0 <= max_articles)%Z ->
  exists fuel, forall fuel', fuel <= fuel' ->
    match discover_run fuel' start_url max_pages max_articles with
    | Some (Ok st) =>
        queue st = [] \/ len (visited st) = max_pages
        \/ len (article_urls st) = max_articles
    | Some Raised => urlparse start_url = Raised
    | None => False
    end.
Proof.
  intros Hpages Harticles.
  destruct (@discover_run_total anchors_href urljoin urlparse set_order
              http_get start_url max_pages max_articles) as [fuel H].
  exists fuel. intros fuel' Hle. specialize (H fuel' Hle).
  destruct (discover_run fuel' start_url max_pages max_articles)
    as [[st |] |]; [| exact H | exact H].
  destruct H as [Hinv Hexit].
  pose proof (inv_visited_bound Hinv) as Hv.
  pose proof (inv_articles_bound Hinv) as Ha.
  destruct (loop_test_false _ _ _ Hexit) as [H | [H | H]]; [auto | right ..].
  - left. lia.
  - right. lia.
Qed.

(** X15: with a page budget or an article budget that is zero or negative,
    discovery fetches nothing and returns the empty list. *)
Theorem discovery_without_budget start_url p max_pages max_articles fuel :
  urlparse start_url = Ok p ->
  (max_pages <= 0)%Z \/ (max_articles <= 0)%Z ->
  set_order [] = [] ->
  discover_run fuel start_url max_pages max_articles
  = Some (Ok (initial start_url))
  /\ discover_all_links fuel start_url max_pages max_articles = Some (Ok []).
Proof.
  intros Hp Hbudget Hempty.
  assert (Htest : loop_test max_pages max_articles (initial start_url) = false).
  { unfold loop_test. cbn [initial queue visited article_urls andb].
    apply andb_false_iff. rewrite !Z.ltb_ge. cbn. exact Hbudget. }
  assert (Hrun : discover_run fuel start_url max_pages max_articles
                 = Some (Ok (initial start_url))).
  { unfold Discovery.discover_run. rewrite Hp.
    destruct fuel; cbn [Discovery.discover_loop]; rewrite Htest; reflexivity. }
  split; [exact Hrun |].
  unfold Discovery.discover_all_links. rewrite Hrun.
  unfold returned. cbn [initial article_urls]. rewrite Hempty.
  now rewrite slice_to_nil.
Qed.

(** X16: when the start page cannot be fetched, answers with a status
    other than 200, or link extraction raises on it, the exception is
    swallowed: the start URL is the one URL visited and the result is the
    empty list. *)
Theorem failed_start_page start_url p max_pages max_articles fuel :
  urlparse start_url = Ok p ->
  (0 < max_pages)%Z -> (0 < max_articles)%Z ->
  (http_get start_url = ConnError
   \/ exists code html,
        http_get start_url = Status code html
        /\ (code <> 200%Z
            \/ extract_article_links anchors_href urljoin urlparse set_order
                 html start_url = Raised)) ->
  set_order [] = [] -> 0 < fuel ->
  discover_run fuel start_url max_pages max_articles
  = Some (Ok (Frontier [start_url] [] []
                       [Enq start_url; Visit start_url]))
  /\ discover_all_links fuel start_url max_pages max_articles = Some (Ok []).
Proof.
  intros Hp Hpages Harticles Hfail Hempty Hfuel.
  assert (Htest : loop_test max_pages max_articles (initial start_url) = true).
  { unfold loop_test. cbn [initial queue visited article_urls andb].
    apply andb_true_iff. rewrite !Z.ltb_lt. cbn. auto. }
  assert (Hvisit : visit anchors_href urljoin urlparse set_order http_get
                     (netloc p) max_articles start_url [] (initial start_url)
                   = Frontier [start_url] [] []
                              [Enq start_url; Visit start_url]).
  { unfold visit. cbn [initial visited article_urls trace app].
    destruct Hfail as [-> | (code & html & -> & [Hcode | Hraise])];
      [reflexivity | |].
    - apply Z.eqb_neq in Hcode. now rewrite Hcode.
    - destruct (negb (code =? 200)%Z); [reflexivity |]. now rewrite Hraise. }
  assert (Hrun : discover_run fuel start_url max_pages max_articles
                 = Some (Ok (Frontier [start_url] [] []
                                      [Enq start_url; Visit start_url]))).
  { unfold Discovery.discover_run. rewrite Hp.
    destruct fuel as [| fuel]; [lia |].
    cbn [Discovery.discover_loop]. rewrite Htest.
    cbn [initial queue visited PySet.mem existsb].
    change (Frontier [] [start_url] [] [Enq start_url])
      with (initial start_url).
    rewrite Hvisit.
    destruct fuel; cbn [Discovery.discover_loop loop_test queue andb];
      reflexivity. }
  split; [exact Hrun |].
  unfold Discovery.discover_all_links. rewrite Hrun.
  unfold returned. cbn [article_urls]. rewrite Hempty.
  now rewrite slice_to_nil.
Qed.

(** X17: discovery never leaves the host of the start URL: every URL it
    fetches has that host, and so has every URL it returns; what it
    returns is, besides, no hard-excluded URL and no section page, and has
    passed the article test. *)
Theorem discovery_confined start_url max_pages max_articles :
  (forall l x, In x (set_order l) -> In x l) ->
  exists fuel, forall fuel', fuel <= fuel' ->
    match discover_run fuel' start_url max_pages max_articles with
    | Some (Ok st) =>
        exists p,
          urlparse start_url = Ok p
          /\ (forall u, In u (visited st) -> has_host urlparse (netloc p) u)
          /\ (forall u, In u (returned set_order max_articles st) ->
                has_host urlparse (netloc p) u
                /\ hard_excluded u = false /\ is_section_page u = false
                /\ is_article u = true)
    | Some Raised => urlparse start_url = Raised
    | None => False
    end.
Proof.
  intros Horder.
  destruct (@discover_run_total anchors_href urljoin urlparse set_order
              http_get start_url max_pages max_articles) as [fuel H].
  exists fuel. intros fuel' Hle. specialize (H fuel' Hle).
  destruct (discover_run fuel' start_url max_pages max_articles)
    as [[st |] |] eqn:Hrun; [| exact H | exact H].
  destruct H as [Hinv _].
  destruct (discover_run_frontier _ _ _ _ Hrun) as (p & Hp & Hconf & _).
  exists p. split; [exact Hp | split].
  - intros u Hu. apply Hconf. auto.
  - intros u Hu. apply In_slice_to, Horder in Hu. split.
    + apply Hconf. auto.
    + now apply (inv_articles_class Hinv).
Qed.

(** X18: the queue is first in, first out: at the end of discovery the
    URLs appended to the queue are those popped from it followed by those
    still in it, and the visited URLs are the popped ones in the order in
    which each was first appended.  So when discovery ends with an empty
    queue, every URL that was ever queued has been visited. *)
Theorem discovery_first_in_first_out start_url max_pages max_articles :
  exists fuel, forall fuel', fuel <= fuel' ->
    match discover_run fuel' start_url max_pages max_articles with
    | Some (Ok st) =>
        (exists popped,
           enqueues (trace st) = (popped ++ queue st)%list
           /\ visited st = first_occurrences popped)
        /\ (queue st = [] ->
            forall u, In (Enq u) (trace st) -> In u (visited st))
    | Some Raised => urlparse start_url = Raised
    | None => False
    end.
Proof.
  destruct (@discover_run_total anchors_href urljoin urlparse set_order
              http_get start_url max_pages max_articles) as [fuel H].
  exists fuel. intros fuel' Hle. specialize (H fuel' Hle).
  destruct (discover_run fuel' start_url max_pages max_articles)
    as [[st |] |] eqn:Hrun; [| exact H | exact H].
  destruct (discover_run_frontier _ _ _ _ Hrun)
    as (p & _ & _ & popped & Henq & Hvis).
  split; [exists popped; auto |].
  intros Hq u Hu. apply enqueues_In in Hu.
  rewrite Henq, Hq, app_nil_r in Hu.
  rewrite Hvis. now apply first_occurrences_In.
Qed.

End Runs.

Import Sample.

Lemma extracted_links_exactly_witness :
  kept_link Sample.urljoin Sample.urlparse "http://s.com/"
    [Some "http://s.com/news"; Some "http://s.com/about";
     Some "http://t.com/2024/01/02/elsewhere";
     Some "/2024/01/02/first-post"]
    "http://s.com/2024/01/02/first-post"
  /\ ~ kept_link Sample.urljoin Sample.urlparse "http://s.com/"
        [Some "http://s.com/news"; Some "http://s.com/about";
         Some "http://t.com/2024/01/02/elsewhere";
         Some "/2024/01/02/first-post"]
        "http://s.com/about".
Proof.
  pose proof (@extracted_links_exactly Sample.anchors_href Sample.urljoin
                Sample.urlparse as_inserted
                "http://s.com/news http://s.com/about http://t.com/2024/01/02/elsewhere /2024/01/02/first-post"
                "http://s.com/"
                [Some "http://s.com/news"; Some "http://s.com/about";
                 Some "http://t.com/2024/01/02/elsewhere";
                 Some "/2024/01/02/first-post"]
                ["http://s.com/news"; "http://s.com/2024/01/02/first-post"]
                (fun l x => iff_refl _) eq_refl eq_refl) as H.
  split.
  - apply H. cbn [In]. tauto.
  - intros Hk. apply H in Hk. cbn [In] in Hk.
    destruct Hk as [Hk | [Hk | []]]; discriminate.
Defined.

Lemma discovery_stops_when_done_witness :
  (0 <= 500)%Z /\ (0 <= 10)%Z
  /\ exists fuel, forall fuel', fuel <= fuel' ->
       match crawl as_inserted blog fuel' "http://s.com/" 500 10 with
       | Some (Ok st) =>
           queue st = [] \/ len (visited st) = 500%Z
           \/ len (article_urls st) = 10%Z
       | Some Raised => Sample.urlparse "http://s.com/" = Raised
       | None => False
       end.
Proof.
  split; [lia | split; [lia |]].
  apply (@discovery_stops_when_done Sample.anchors_href Sample.urljoin
           Sample.urlparse as_inserted (serve blog) "http://s.com/" 500 10);
    lia.
Defined.

Lemma discovery_without_budget_witness :
  crawl as_inserted blog 0 "http://s.com/" 500 0
  = Some (Ok (initial "http://s.com/"))
  /\ crawl_result as_inserted blog 0 "http://s.com/" 500 0 = Some (Ok []).
Proof.
  apply (@discovery_without_budget Sample.anchors_href Sample.urljoin
           Sample.urlparse as_inserted (serve blog) "http://s.com/"
           (UrlParts "http" "s.com") 500 0 0);
    [reflexivity | right; lia | reflexivity].
Defined.

Lemma failed_start_page_witness :
  crawl as_inserted [] 1 "http://s.com/" 500 10
  = Some (Ok (Frontier ["http://s.com/"] [] []
                       [Enq "http://s.com/"; Visit "http://s.com/"]))
  /\ crawl_result as_inserted [] 1 "http://s.com/" 500 10 = Some (Ok []).
Proof.
  apply (@failed_start_page Sample.anchors_href Sample.urljoin
           Sample.urlparse as_inserted (serve []) "http://s.com/"
           (UrlParts "http" "s.com") 500 10 1);
    [reflexivity | lia | lia | | reflexivity | lia].
  right. exists 404%Z, "". split; [reflexivity | left; discriminate].
Defined.

Lemma discovery_confined_witness :
  exists fuel, forall fuel', fuel <= fuel' ->
    match crawl as_inserted blog fuel' "http://s.com/" 500 10 with
    | Some (Ok st) =>
        exists p,
          Sample.urlparse "http://s.com/" = Ok p
          /\ (forall u, In u (visited st) ->
                has_host Sample.urlparse (netloc p) u)
          /\ (forall u, In u (returned as_inserted 10 st) ->
                has_host Sample.urlparse (netloc p) u
                /\ hard_excluded u = false /\ is_section_page u = false
                /\ is_article u = true)
    | Some Raised => Sample.urlparse "http://s.com/" = Raised
    | None => False
    end.
Proof.
  apply (@discovery_confined Sample.anchors_href Sample.urljoin
           Sample.urlparse as_inserted (serve blog) "http://s.com/" 500 10).
  intros l x H. exact H.
Defined.

End DiscoveryMore.

(* ------------------------------------------------------------------ *)
(** ** The queue and the start URL *)

Module FrontierFacts.
Import Text Re Discovery DiscoverySpec FrontierSpec DiscoveryFacts
  DiscoveryMore.

Lemma sightings_app link vis t1 t2 :
  sightings link vis (t1 ++ t2)
  = sightings link vis t1 + sightings link (vis ++ visits t1) t2.
Proof.
  revert vis. induction t1 as [| [u | u | l] t1 IH]; intros vis;
    cbn [app sightings visits].
  - now rewrite app_nil_r.
  - apply IH.
  - rewrite IH, <- app_assoc. reflexivity.
  - rewrite IH. lia.
Qed.

Section Loop.

Variable anchors_href : string -> outcome (list (option string)).
Variable urljoin : string -> string -> outcome string.
Variable urlparse : string -> outcome url_parts.
Variable set_order : list string -> list string.
Variable http_get : string -> response.
Variable domain : string.
Variable max_pages max_articles : Z.

Local Abbreviation process_link := (process_link urlparse domain max_articles).
Local Abbreviation discover_loop :=
  (fun fuel => discover_loop anchors_href urljoin urlparse set_order http_get
                 fuel domain max_pages max_articles).
Local Abbreviation appended := (appended urlparse domain).

(** What the loop body adds to the log. *)
Lemma process_link_trace st link :
  trace (fst (process_link st link))
  = (trace st
     ++ Seen link :: (if appended (visited st) link then [Enq link] else []))%list.
Proof.
  unfold Discovery.process_link, FrontierSpec.appended, on_host.
  destruct (urlparse link) as [p |]; [| reflexivity].
  destruct (netloc p =? domain)%string; cbn [negb andb]; [| reflexivity].
  destruct (hard_excluded link); cbn [negb andb]; [reflexivity |].
  cbn [see visited].
  set (st1 := if PySet.mem link (visited st) then see link st
              else enqueue link (see link st)).
  assert (H1 : trace st1
               = (trace st
                  ++ Seen link :: (if negb (PySet.mem link (visited st))
                                   then [Enq link] else []))%list).
  { subst st1. destruct (PySet.mem link (visited st));
      cbn [negb see enqueue trace]; [reflexivity |].
    now rewrite <- app_assoc. }
  destruct (negb (is_section_page link)); [| exact H1].
  destruct (is_article link && negb (PySet.mem link (article_urls st1)));
    [| exact H1].
  destruct (max_articles <=? len (article_urls (add_article link st1)))%Z;
    exact H1.
Qed.

Lemma visits_process_link st link :
  visits (trace (fst (process_link st link))) = visits (trace st).
Proof.
  rewrite process_link_trace, visits_app.
  destruct (appended (visited st) link); cbn [visits]; apply app_nil_r.
Qed.

(** The loop only adds to the visited list and to the log. *)
Lemma discover_loop_grows fuel st st' :
  discover_loop fuel st = Some st' ->
  exists more later,
    visited st' = (visited st ++ more)%list
    /\ trace st' = (trace st ++ later)%list.
Proof.
  apply discover_loop_preserves
    with (P := fun s => exists more later,
                 visited s = (visited st ++ more)%list
                 /\ trace s = (trace st ++ later)%list).
  - intros s url rest H _ _. exact H.
  - intros s url rest (more & later & Hv & Ht) _ _. cbn [visited trace].
    exists (more ++ [url])%list, (later ++ [Visit url])%list.
    rewrite Hv, Ht, <- !app_assoc. auto.
  - intros s link (more & later & Hv & Ht).
    rewrite process_link_visited, process_link_trace, Ht, <- app_assoc.
    eauto.
  - exists [], []. now rewrite !app_nil_r.
Qed.

(** Every run of the loop body on a link of the crawl's host that matches
    no hard-exclusion pattern and is not visited appends the link once;
    nothing else appends it. *)
Lemma discover_loop_counts link extra fuel st st' :
  on_host urlparse domain link = true -> hard_excluded link = false ->
  visits (trace st) = visited st
  /\ count_occ string_dec (enqueues (trace st)) link
     = extra + sightings link [] (trace st) ->
  discover_loop fuel st = Some st' ->
  visits (trace st') = visited st'
  /\ count_occ string_dec (enqueues (trace st')) link
     = extra + sightings link [] (trace st').
Proof.
  intros Hhost Hhard.
  apply discover_loop_preserves
    with (P := fun s => visits (trace s) = visited s
                 /\ count_occ string_dec (enqueues (trace s)) link
                    = extra + sightings link [] (trace s)).
  - intros s url rest H _ _. exact H.
  - intros s url rest [Hv Hc] _ _. cbn [visited trace].
    rewrite visits_app, enqueues_app, sightings_app, Hv.
    cbn [visits enqueues sightings app]. rewrite app_nil_r.
    split; [reflexivity | lia].
  - intros s l [Hv Hc].
    rewrite visits_process_link, process_link_visited.
    split; [exact Hv |].
    rewrite process_link_trace, enqueues_app, sightings_app, count_occ_app, Hc.
    cbn [app]. rewrite Hv. cbn [enqueues sightings].
    unfold FrontierSpec.appended.
    destruct (String.eqb_spec l link) as [-> | Hne].
    + rewrite Hhost, Hhard. cbn [andb negb].
      destruct (PySet.mem link (visited s)); cbn [negb enqueues count_occ sightings].
      * lia.
      * destruct (string_dec link link); [lia | congruence].
    + cbn [andb].
      destruct (on_host urlparse domain l && negb (hard_excluded l)
                && negb (PySet.mem l (visited s)));
        cbn [enqueues count_occ sightings]; [| lia].
      destruct (string_dec l link); [congruence | lia].
Qed.

End Loop.

Section Runs.

Variable anchors_href : string -> outcome (list (option string)).
Variable urljoin : string -> string -> outcome string.
Variable urlparse : string -> outcome url_parts.
Variable set_order : list string -> list string.
Variable http_get : string -> response.

Local Abbreviation discover_run :=
  (discover_run anchors_href urljoin urlparse set_order http_get).

Lemma discover_run_ends start_url max_pages max_articles :
  exists fuel, forall fuel', fuel <= fuel' ->
    discover_run fuel' start_url max_pages max_articles <> None.
Proof.
  destruct (@discover_run_total anchors_href urljoin urlparse set_order
              http_get start_url max_pages max_articles) as [fuel H].
  exists fuel. intros fuel' Hle. specialize (H fuel' Hle).
  destruct (discover_run fuel' start_url max_pages max_articles)
    as [[st |] |]; [discriminate | discriminate | contradiction].
Qed.

Lemma discover_run_counts fuel start_url max_pages max_articles st :
  discover_run fuel start_url max_pages max_articles = Some (Ok st) ->
  exists p,
    urlparse start_url = Ok p
    /\ forall link,
         on_host urlparse (netloc p) link = true ->
         hard_excluded link = false ->
         count_occ string_dec (enqueues (trace st)) link
         = (if (start_url =? link)%string then 1 else 0)
           + sightings link [] (trace st).
Proof.
  unfold Discovery.discover_run.
  destruct (urlparse start_url) as [p |] eqn:Hp; [| discriminate].
  destruct (discover_loop _ _ _ _ _ fuel (netloc p) max_pages max_articles
              (initial start_url)) as [st' |] eqn:Hloop; [| discriminate].
  intros [= <-]. exists p. split; [reflexivity |].
  intros link Hhost Hhard.
  eapply discover_loop_counts in Hloop as [_ Hc];
    [exact Hc | exact Hhost | exact Hhard |].
  cbn [initial trace visited visits enqueues count_occ sightings].
  split; [reflexivity |].
  destruct (String.eqb_spec start_url link) as [Heq | Hne];
    destruct (string_dec start_url link) as [Heq' | Hne'];
    try congruence; lia.
Qed.

(** With both budgets positive, the start URL is the first URL visited. *)
Lemma discover_run_starts fuel start_url max_pages max_articles st :
  (0 < max_pages)%Z -> (0 < max_articles)%Z ->
  discover_run fuel start_url max_pages max_articles = Some (Ok st) ->
  exists rest, visited st = start_url :: rest.
Proof.
  intros Hpages Harticles. unfold Discovery.discover_run.
  destruct (urlparse start_url) as [p |]; [| discriminate].
  assert (Htest : loop_test max_pages max_articles (initial start_url) = true).
  { unfold loop_test. cbn [initial queue visited article_urls andb].
    apply andb_true_iff. rewrite !Z.ltb_lt. cbn. auto. }
  destruct fuel as [| fuel]; cbn [Discovery.discover_loop]; rewrite Htest;
    [discriminate |].
  cbn [initial queue visited PySet.mem existsb].
  change (Frontier [] [start_url] [] [Enq start_url])
    with (initial start_url).
  destruct (discover_loop _ _ _ _ _ fuel (netloc p) max_pages max_articles
              (visit _ _ _ _ _ _ _ _ _ _)) as [st' |] eqn:Hloop;
    [| discriminate].
  intros [= <-].
  apply discover_loop_grows in Hloop as (more & _ & Hv & _).
  rewrite visit_visited in Hv. cbn [initial visited app] in Hv. eauto.
Qed.

(** C4, as amended: discovery always ends, and at its end: a URL was added
    to [visited] (and requested) at most once, and was never appended to
    the queue after that; a link of the crawl's host that matches no
    hard-exclusion pattern was appended once for every run of the loop
    body on it while it was not visited (and once more if it is the start
    URL), so a link met on several pages before its visit was appended
    several times; and the copies of a URL popped after the first added
    nothing to [visited]. *)
Theorem visited_once_never_requeued start_url max_pages max_articles :
  (exists fuel, forall fuel', fuel <= fuel' ->
     discover_run fuel' start_url max_pages max_articles <> None)
  /\ forall fuel st,
       discover_run fuel start_url max_pages max_articles = Some (Ok st) ->
       NoDup (visits (trace st)) /\ no_enq_after_visit (trace st)
       /\ (forall u, In u (queue st) -> In u (enqueues (trace st)))
       /\ (forall u, In (Visit u) (trace st) -> In (Enq u) (trace st))
       /\ (exists p,
             urlparse start_url = Ok p
             /\ forall link,
                  on_host urlparse (netloc p) link = true ->
                  hard_excluded link = false ->
                  count_occ string_dec (enqueues (trace st)) link
                  = (if (start_url =? link)%string then 1 else 0)
                    + sightings link [] (trace st))
       /\ (exists popped,
             enqueues (trace st) = (popped ++ queue st)%list
             /\ visited st = first_occurrences popped).
Proof.
  split; [apply discover_run_ends |].
  intros fuel st Hrun.
  pose proof Hrun as Hinv. apply discover_run_invariant in Hinv.
  pose proof Hrun as Hfr.
  apply discover_run_frontier in Hfr as (_ & _ & _ & popped & Hfifo).
  pose proof Hrun as Hcount. apply discover_run_counts in Hcount.
  destruct Hinv. repeat split; auto.
  - now rewrite inv_trace_visits0.
  - intros u Hu. apply enqueues_In. auto.
  - intros u Hu. apply inv_visited_logged0.
    rewrite <- inv_trace_visits0. now apply visits_In.
  - exists popped. exact Hfifo.
Qed.

(** C5, as amended: a link that matches a hard-exclusion pattern and is not
    the start URL is never appended to the queue, never added to [visited]
    and never requested.  The start URL is put in the queue whatever it
    matches, and with both budgets positive it is the first URL visited
    and requested. *)
Theorem hard_excluded_never_enters start_url max_pages max_articles link :
  hard_excluded link = true -> link <> start_url ->
  (exists fuel, forall fuel', fuel <= fuel' ->
     discover_run fuel' start_url max_pages max_articles <> None)
  /\ forall fuel st,
       discover_run fuel start_url max_pages max_articles = Some (Ok st) ->
       ~ In (Enq link) (trace st) /\ ~ In (Visit link) (trace st)
       /\ ~ In link (queue st) /\ ~ In link (visited st)
       /\ (exists later, trace st = Enq start_url :: later)
       /\ ((0 < max_pages)%Z -> (0 < max_articles)%Z ->
           exists rest, visited st = start_url :: rest).
Proof.
  intros Hhard Hne. split; [apply discover_run_ends |].
  intros fuel st Hrun.
  pose proof Hrun as Hinv. apply discover_run_invariant in Hinv.
  destruct Hinv.
  assert (Hlog : ~ In (Enq link) (trace st)).
  { intros Hin. destruct (inv_enq_class0 _ Hin); congruence. }
  repeat split; auto.
  - intros Hv. apply Hlog, inv_visited_logged0.
    rewrite <- inv_trace_visits0. now apply visits_In.
  - revert Hrun. unfold Discovery.discover_run.
    destruct (urlparse start_url) as [p |]; [| discriminate].
    destruct (discover_loop _ _ _ _ _ fuel (netloc p) max_pages max_articles
                (initial start_url)) as [st' |] eqn:Hloop; [| discriminate].
    intros [= <-].
    apply discover_loop_grows in Hloop as (_ & later & _ & Ht).
    cbn [initial trace app] in Ht. eauto.
  - intros Hpages Harticles. now apply discover_run_starts with fuel max_pages max_articles.
Qed.

End Runs.

Import Sample.

Lemma visited_once_never_requeued_witness :
  count_occ string_dec
    ["http://s.com/"; "http://s.com/news";
     "http://s.com/2024/01/02/first-post";
     "http://s.com/2024/01/02/first-post";
     "http://s.com/2024/01/03/second-post"]
    "http://s.com/2024/01/02/first-post"
  = 0 + sightings "http://s.com/2024/01/02/first-post" []
          [Enq "http://s.com/"; Visit "http://s.com/";
           Seen "http://s.com/news"; Enq "http://s.com/news";
           Seen "http://s.com/2024/01/02/first-post";
           Enq "http://s.com/2024/01/02/first-post";
           Seen "http://s.com/page/2";
           Visit "http://s.com/news";
           Seen "http://s.com/2024/01/02/first-post";
           Enq "http://s.com/2024/01/02/first-post";
           Seen "http://s.com/2024/01/03/second-post";
           Enq "http://s.com/2024/01/03/second-post";
           Visit "http://s.com/2024/01/02/first-post";
           Visit "http://s.com/2024/01/03/second-post"]
  /\ sightings "http://s.com/2024/01/02/first-post" []
       [Enq "http://s.com/"; Visit "http://s.com/";
        Seen "http://s.com/news"; Enq "http://s.com/news";
        Seen "http://s.com/2024/01/02/first-post";
        Enq "http://s.com/2024/01/02/first-post";
        Seen "http://s.com/page/2";
        Visit "http://s.com/news";
        Seen "http://s.com/2024/01/02/first-post";
        Enq "http://s.com/2024/01/02/first-post";
        Seen "http://s.com/2024/01/03/second-post";
        Enq "http://s.com/2024/01/03/second-post";
        Visit "http://s.com/2024/01/02/first-post";
        Visit "http://s.com/2024/01/03/second-post"] = 2.
Proof.
  destruct (@visited_once_never_requeued Sample.anchors_href Sample.urljoin
              Sample.urlparse as_inserted (serve blog) "http://s.com/" 500 10)
    as [_ Hrun].
  assert (E : crawl as_inserted blog 20 "http://s.com/" 500 10
              = Some (Ok sample_final)) by (vm_compute; reflexivity).
  destruct (Hrun 20 sample_final E)
    as (_ & _ & _ & _ & (p & Hp & Hcount) & _).
  injection Hp as <-.
  split; [| vm_compute; reflexivity].
  exact (Hcount "http://s.com/2024/01/02/first-post" eq_refl eq_refl).
Defined.

Lemma hard_excluded_never_enters_witness :
  hard_excluded "http://s.com/page/2" = true
  /\ "http://s.com/page/2" <> "http://s.com/"
  /\ ~ In (Enq "http://s.com/page/2")
         [Enq "http://s.com/"; Visit "http://s.com/";
          Seen "http://s.com/news"; Enq "http://s.com/news";
          Seen "http://s.com/2024/01/02/first-post";
          Enq "http://s.com/2024/01/02/first-post";
          Seen "http://s.com/page/2";
          Visit "http://s.com/news";
          Seen "http://s.com/2024/01/02/first-post";
          Enq "http://s.com/2024/01/02/first-post";
          Seen "http://s.com/2024/01/03/second-post";
          Enq "http://s.com/2024/01/03/second-post";
          Visit "http://s.com/2024/01/02/first-post";
          Visit "http://s.com/2024/01/03/second-post"]
  /\ exists rest,
       ["http://s.com/"; "http://s.com/news";
        "http://s.com/2024/01/02/first-post";
        "http://s.com/2024/01/03/second-post"] = "http://s.com/" :: rest.
Proof.
  split; [reflexivity | split; [discriminate |]].
  destruct (@hard_excluded_never_enters Sample.anchors_href Sample.urljoin
              Sample.urlparse as_inserted (serve blog) "http://s.com/" 500 10
              "http://s.com/page/2" eq_refl) as [_ Hrun]; [discriminate |].
  assert (E : crawl as_inserted blog 20 "http://s.com/" 500 10
              = Some (Ok sample_final)) by (vm_compute; reflexivity).
  destruct (Hrun 20 sample_final E) as (Hlog & _ & _ & _ & _ & Hfirst).
  split; [exact Hlog | apply Hfirst; lia].
Defined.

End FrontierFacts.

(* ------------------------------------------------------------------ *)
(** ** More facts about the per-article loop and the crawl of a site *)

Module OrchestratorMore.
Import Text Discovery DiscoverySpec FrontierSpec Pipeline Metadata
  Orchestrator OrchestratorSpec DiscoveryFacts DiscoveryMore PipelineFacts
  OrchestratorFacts.

Section WithWorld.

Variable D : dom.
Variable print : notice -> outcome unit.
Variable post_chat : prompt -> string -> reply.
Variable json_loads : string -> outcome json.
Variable datetime : Type.
Variable fromisoformat : string -> outcome datetime.
Variable utcnow : datetime.
Variable http_get : string -> response.
Variable upsert_post : list (post datetime) -> post datetime -> outcome (option Z).
Variable use_llm : bool.

Local Abbreviation crawl_article := (crawl_article D http_get).
Local Abbreviation candidate :=
  (candidate D print post_chat json_loads fromisoformat utcnow http_get
     use_llm).
Local Abbreviation crawl_one :=
  (crawl_one D print post_chat json_loads fromisoformat utcnow http_get
     upsert_post use_llm).
Local Abbreviation crawl_loop :=
  (crawl_loop D print post_chat json_loads fromisoformat utcnow http_get
     upsert_post use_llm).

(** X19: a result of [crawl_article] comes from an answer with status 200,
    has [success] set, and carries as [markdown] the basic text of its
    [html]; so the raw text [crawl_site] takes from it is that [markdown],
    also when it is empty, and neither the test of [success] nor the
    fallback to [strip_html_basic] changes anything. *)
Theorem crawl_article_result u res :
  crawl_article u = Some res ->
  http_get u = Status 200 (html res)
  /\ success res = true
  /\ strip_html_basic D (html res) = Ok (markdown res)
  /\ raw_text_of D res = Ok (markdown res).
Proof.
  unfold Orchestrator.crawl_article.
  destruct (http_get u) as [| code body]; [discriminate |].
  destruct (code =? 200)%Z eqn:Hcode; cbn [negb]; [| discriminate].
  apply Z.eqb_eq in Hcode. subst code.
  destruct (strip_html_basic D body) as [text |] eqn:Htext; [| discriminate].
  intros [= <-]. cbn [html markdown success].
  repeat split; try assumption.
  unfold raw_text_of. cbn [html markdown].
  destruct (nonempty text); [reflexivity | exact Htext].
Qed.

(** X20: the counters of the loop over the article URLs: [inserted] never
    passes 10; every URL counts at most once, as inserted or as skipped,
    and exactly once when the loop ends neither by an exception nor at ten
    insertions; every insertion is a call of [upsert_post], and no URL
    gives more than one call. *)
Theorem crawl_loop_accounting article_urls st flag :
  crawl_loop article_urls (Tally 0 0 []) = (st, flag) ->
  (0 <= inserted st <= 10)%Z /\ (0 <= skipped st)%Z
  /\ (inserted st + skipped st <= len article_urls)%Z
  /\ (flag = false -> (inserted st < 10)%Z ->
      (inserted st + skipped st = len article_urls)%Z)
  /\ (inserted st <= len (handed st))%Z
  /\ List.length (handed st) <= List.length article_urls.
Proof.
  intros Hloop.
  apply crawl_loop_tally in Hloop
    as (extra & Hh & Hl & Hcap & Hins & Hskip & Hsum & Hall).
  cbn [handed inserted skipped app] in *. subst. unfold len in *.
  repeat split; try lia. intros Hflag Hlt. specialize (Hall Hflag Hlt). lia.
Qed.

End WithWorld.

Section Site.

Variable D : dom.
Variable urljoin : string -> string -> outcome string.
Variable urlparse : string -> outcome url_parts.
Variable set_order : list string -> list string.
Variable discovery_get : string -> response.
Variable article_get : string -> response.
Variable print : notice -> outcome unit.
Variable post_chat : prompt -> string -> reply.
Variable json_loads : string -> outcome json.
Variable datetime : Type.
Variable fromisoformat : string -> outcome datetime.
Variable utcnow : datetime.
Variable upsert_post : list (post datetime) -> post datetime -> outcome (option Z).

Local Abbreviation crawl_site :=
  (Site.crawl_site D urljoin urlparse set_order discovery_get article_get
     print post_chat json_loads fromisoformat utcnow upsert_post).

(** X21: [crawl_site] as a whole (discovery with the budgets 500 and 10,
    then the loop over the article URLs): it always comes to an end; it
    makes at most ten calls of [upsert_post] and counts at most ten
    insertions; and every record it hands over is for a URL on the host of
    the site that passed the article test of discovery, is no section page
    and no hard-excluded URL, and whose raw and cleaned texts passed both
    length gates.  When the site URL does not parse, the exception leaves
    the function with nothing counted and nothing handed over. *)
Theorem crawl_site_end_to_end site_url :
  (forall l x, In x (set_order l) -> In x l) ->
  (exists fuel, forall fuel', fuel <= fuel' ->
     crawl_site fuel' site_url <> None)
  /\ forall fuel st flag,
       crawl_site fuel site_url = Some (st, flag) ->
       (urlparse site_url = Raised -> st = Tally 0 0 [] /\ flag = true)
       /\ (0 <= inserted st <= 10)%Z
       /\ List.length (handed st) <= 10
       /\ forall p, In p (handed st) ->
            passed_gates D print post_chat article_get USE_LLM_CLEANING p
            /\ (exists ps, urlparse site_url = Ok ps
                           /\ has_host urlparse (netloc ps) (post_url p))
            /\ hard_excluded (post_url p) = false
            /\ is_section_page (post_url p) = false
            /\ is_article (post_url p) = true.
Proof.
  intros Horder. split.
  - destruct (@discover_run_total (Site.anchors_href D) urljoin urlparse
                set_order discovery_get site_url 500 10) as [fuel H].
    exists fuel. intros fuel' Hle. specialize (H fuel' Hle).
    unfold Site.crawl_site, discover_all_links.
    destruct (discover_run (Site.anchors_href D) urljoin urlparse set_order
                discovery_get fuel' site_url 500 10)
      as [[fr |] |]; [discriminate | discriminate | contradiction].
  - intros fuel st flag. unfold Site.crawl_site, discover_all_links.
    destruct (discover_run (Site.anchors_href D) urljoin urlparse set_order
                discovery_get fuel site_url 500 10)
      as [[fr |] |] eqn:Hrun; [| | discriminate].
    + pose proof Hrun as Hinv. apply discover_run_invariant in Hinv.
      pose proof Hrun as Hfr.
      apply discover_run_frontier in Hfr as (ps & Hps & Hconf & _).
      intros [= Hloop].
      pose proof Hloop as Hcount.
      apply crawl_loop_tally in Hcount
        as (extra & Hh & Hlen & Hcap & Hins & _).
      cbn [handed inserted app] in Hh, Hcap, Hins.
      split; [rewrite Hps; discriminate | split; [lia | split]].
      * pose proof (@slice_to_length _ (set_order (article_urls fr)) 10) as Hs.
        rewrite Hh. unfold returned, len in *. lia.
      * intros p Hp.
        assert (Hfst : In p (handed (fst (st, flag)))) by exact Hp.
        rewrite <- Hloop in Hfst.
        apply crawl_loop_handed in Hfst as [[] | (u & Hu & Hc)].
        apply candidate_passed_gates in Hc as [Hgates <-].
        split; [exact Hgates |].
        apply In_slice_to, Horder in Hu.
        split; [exists ps; split; [exact Hps | apply Hconf; auto] |].
        now apply (inv_articles_class Hinv).
    + intros [= <- <-]. cbn [inserted handed List.length In].
      split; [auto | split; [lia | split; [lia | intros p []]]].
Qed.

End Site.

Import Sample.

Lemma crawl_article_result_witness :
  serve storm_site "http://s.com/2024/01/02/storm-hits-coast"
  = Status 200 storm_page
  /\ strip_html_basic storm_dom storm_page
     = Ok (join (nl ++ nl)
             ["Storm hits coast"; "Rain fell all night.";
              "Rivers rose by morning."; "Roads reopened at noon."]).
Proof.
  destruct (@crawl_article_result storm_dom (serve storm_site)
              "http://s.com/2024/01/02/storm-hits-coast"
              (CrawlResult storm_page
                 (join (nl ++ nl)
                    ["Storm hits coast"; "Rain fell all night.";
                     "Rivers rose by morning."; "Roads reopened at noon."])
                 true) eq_refl)
    as (Hget & _ & Htext & _).
  split; [exact Hget | exact Htext].
Defined.

Lemma crawl_loop_accounting_witness :
  (0 <= inserted (fst (storm_visits text50))
   <= 10)%Z
  /\ (0 <= skipped (fst (storm_visits text50)))%Z
  /\ (inserted (fst (storm_visits text50))
      + skipped (fst (storm_visits text50)) <= 3)%Z
  /\ (snd (storm_visits text50) = false ->
      (inserted (fst (storm_visits text50)) < 10)%Z ->
      (inserted (fst (storm_visits text50))
       + skipped (fst (storm_visits text50)) = 3)%Z)
  /\ (inserted (fst (storm_visits text50))
      <= len (handed (fst (storm_visits text50))))%Z
  /\ List.length (handed (fst (storm_visits text50))) <= 3.
Proof.
  apply (@crawl_loop_accounting storm_dom quiet (canned text50) json_loads
           string
           fromisoformat utcnow (serve storm_site) accept_all true
           ["http://s.com/2024/01/02/storm-hits-coast";
            "http://s.com/2024/01/03/not-there";
            "http://s.com/2024/01/02/storm-hits-coast"]
           (fst (storm_visits text50)) (snd (storm_visits text50))).
  apply surjective_pairing.
Defined.

Lemma crawl_site_end_to_end_witness :
  exists p,
    Site.crawl_site news_dom Sample.urljoin Sample.urlparse as_inserted
      (serve news_site) (serve news_site) quiet (canned text50) json_loads
      fromisoformat utcnow accept_all 20 "http://s.com/"
    = Some (Tally 1 0 [p], false)
    /\ post_url p = "http://s.com/2024/01/02/storm-hits-coast"
    /\ post_text p = text50
    /\ passed_gates news_dom quiet (canned text50) (serve news_site)
         USE_LLM_CLEANING p
    /\ has_host Sample.urlparse "s.com" (post_url p)
    /\ is_article (post_url p) = true.
Proof.
  destruct (@crawl_site_end_to_end news_dom Sample.urljoin Sample.urlparse
              as_inserted (serve news_site) (serve news_site) quiet
              (canned text50) json_loads string fromisoformat utcnow
              accept_all "http://s.com/" (fun l x H => H)) as [_ Hrun].
  let run := eval vm_compute in
      (Site.crawl_site news_dom Sample.urljoin Sample.urlparse as_inserted
         (serve news_site) (serve news_site) quiet (canned text50) json_loads
         fromisoformat utcnow accept_all 20 "http://s.com/") in
  match run with
  | Some (Tally _ _ [?p], _) =>
      exists p;
      assert (E : Site.crawl_site news_dom Sample.urljoin Sample.urlparse
                    as_inserted (serve news_site) (serve news_site) quiet
                    (canned text50) json_loads fromisoformat utcnow
                    accept_all 20 "http://s.com/"
                  = Some (Tally 1 0 [p], false))
        by (vm_compute; reflexivity)
  end.
  split; [exact E |].
  split; [reflexivity | split; [reflexivity |]].
  destruct (Hrun 20 _ _ E) as (_ & _ & _ & Hposts).
  destruct (Hposts _ (or_introl eq_refl))
    as (Hgates & (ps & Hps & Hhost) & _ & _ & Harticle).
  split; [exact Hgates | split; [| exact Harticle]].
  injection Hps as <-. exact Hhost.
Defined.

End OrchestratorMore.
